(** * Address cleaning, completion and enrichment pipeline

    A shallow embedding of [reverse_geocoding_batch_processor/address_enhancer.py]
    (and of the copy of [clean_address_text] kept in
    [reverse_geocoding_batch.py]) together with the properties of the
    pipeline that the specification states.

    Python strings are lists of Unicode code points, Python dictionaries are
    association lists in insertion order, and the geocoding provider is an
    oracle threaded through an explicit world.  Numbers are rationals: the
    arithmetic of the program is one division by ten, one minimum, two
    comparisons and the test against zero.  Exceptions are those derived
    from [Exception], the ones that the handlers of the program catch. *)

From Stdlib Require Import List NArith ZArith QArith Bool Lia Arith.
From Stdlib Require Import Strings.String Strings.Ascii.
Import ListNotations.

Close Scope Q_scope.
Set Implicit Arguments.
Set Warnings "-register-all".

(* ================================================================== *)
(** * Python strings *)
(* ================================================================== *)

Module Str.

(** A code point and a Python [str]. *)
Definition char := N.
Bind Scope N_scope with char.
Definition str := list char.

(** ASCII literal of the source as a [str]. *)
Definition lit (s : String.string) : str :=
  List.map N_of_ascii (list_ascii_of_string s).

Fixpoint eqb (a b : str) : bool :=
  match a, b with
  | [], [] => true
  | x :: a', y :: b' => (x =? y)%N && eqb a' b'
  | _, _ => false
  end.

Definition in_range (lo hi c : N) : bool := ((lo <=? c) && (c <=? hi))%N.

(** ** Character database

    The classification that the interpreter takes from the Unicode
    database is carried here for the blocks Basic Latin and Latin-1
    Supplement (U+0000..U+00FF), which hold every literal of the program
    except three keys of the accent table.  Whitespace is the complete
    list of [str.isspace].  Code points from U+0100 up are otherwise left
    unclassified: no digit, no word character, no case. *)

(** [str.isspace] on one code point; it is also the class [\s] of [re]. *)
Definition isspace (c : char) : bool :=
  (in_range 9 13 c || in_range 28 32 c || (c =? 133) || (c =? 160)
   || (c =? 5760) || in_range 8192 8202 c || (c =? 8232) || (c =? 8233)
   || (c =? 8239) || (c =? 8287) || (c =? 12288))%N.

(** The class [\d] of [re] for [str] patterns (decimal digits). *)
Definition isdecimal (c : char) : bool := in_range 48 57 c.

Definition is_upper (c : char) : bool :=
  in_range 65 90 c || in_range 192 214 c || in_range 216 222 c.

Definition is_lower (c : char) : bool :=
  (in_range 97 122 c || (c =? 170) || (c =? 181) || (c =? 186)
   || in_range 223 246 c || in_range 248 255 c)%N.

(** Characters with case, as [str.title] tests them. *)
Definition is_cased (c : char) : bool := is_upper c || is_lower c.

(** [str.isalnum] on one code point. *)
Definition isalnum (c : char) : bool :=
  (isdecimal c || is_cased c || in_range 178 179 c || (c =? 185)
   || in_range 188 190 c)%N.

(** The class [\w] of [re]. *)
Definition is_word (c : char) : bool := (isalnum c || (c =? 95))%N.

(** The class [[A-Z]] of [re]. *)
Definition is_AZ (c : char) : bool := in_range 65 90 c.

Definition lower_char (c : char) : char :=
  if is_upper c then (c + 32)%N else c.

(** Upper-casing may lengthen the text: sharp s gives two letters, and
    two Latin-1 letters have their capital outside Latin-1. *)
Definition upper_char (c : char) : str :=
  if (c =? 223)%N then [83; 83]%N
  else if (c =? 255)%N then [376]%N
  else if (c =? 181)%N then [924]%N
  else if (in_range 97 122 c || in_range 224 246 c || in_range 248 254 c)
       then [(c - 32)%N]
       else [c].

(** Title-casing of one code point: as [upper_char], but sharp s gives
    a capital followed by a small letter. *)
Definition title_char (c : char) : str :=
  if (c =? 223)%N then [83; 115]%N else upper_char c.

(** [s.lower()] and [s.upper()]. *)
Definition lower (s : str) : str := List.map lower_char s.
Definition upper (s : str) : str := flat_map upper_char s.

(** [s.capitalize()]: first code point in title case, the rest lowered. *)
Definition capitalize (s : str) : str :=
  match s with
  | [] => []
  | c :: s' => title_char c ++ lower s'
  end.

(** [s.title()]: a cased character is title-cased when the character
    before it is not cased, lowered otherwise. *)
Fixpoint title_from (prev_cased : bool) (s : str) : str :=
  match s with
  | [] => []
  | c :: s' =>
      if is_cased c
      then (if prev_cased then [lower_char c] else title_char c)
             ++ title_from true s'
      else c :: title_from false s'
  end.

Definition title (s : str) : str := title_from false s.

(** ** Trimming, splitting, joining *)

Fixpoint lstrip (s : str) : str :=
  match s with
  | [] => []
  | c :: s' => if isspace c then lstrip s' else s
  end.

Fixpoint rstrip (s : str) : str :=
  match s with
  | [] => []
  | c :: s' =>
      match rstrip s' with
      | [] => if isspace c then [] else [c]
      | r => c :: r
      end
  end.

(** [s.strip()]. *)
Definition strip (s : str) : str := rstrip (lstrip s).

(** [s.split()] with no argument: the maximal runs of characters that
    are not whitespace.  [cur] is the word being read, reversed. *)
Fixpoint split_from (cur : str) (s : str) : list str :=
  match s with
  | [] => match cur with [] => [] | _ => [rev cur] end
  | c :: s' =>
      if isspace c
      then match cur with
           | [] => split_from [] s'
           | _ => rev cur :: split_from [] s'
           end
      else split_from (c :: cur) s'
  end.

Definition split (s : str) : list str := split_from [] s.

(** [s.split(sep)] for a separator of one character; the result always
    has at least one field. *)
Fixpoint split_on_from (sep : char) (cur : str) (s : str) : list str :=
  match s with
  | [] => [rev cur]
  | c :: s' =>
      if (c =? sep)%N then rev cur :: split_on_from sep [] s'
      else split_on_from sep (c :: cur) s'
  end.

Definition split_on (sep : char) (s : str) : list str := split_on_from sep [] s.

(** [sep.join(words)]. *)
Fixpoint join (sep : str) (ws : list str) : str :=
  match ws with
  | [] => []
  | [w] => w
  | w :: rest => w ++ sep ++ join sep rest
  end.

(** ** Substrings *)

Fixpoint starts_with (p s : str) : bool :=
  match p, s with
  | [], _ => true
  | _ :: _, [] => false
  | a :: p', b :: s' => (a =? b)%N && starts_with p' s'
  end.

(** [p in s]. *)
Fixpoint contains (p s : str) : bool :=
  starts_with p s ||
  match s with
  | [] => false
  | _ :: s' => contains p s'
  end.

(** [s.replace(old, new)] for a non-empty [old]: occurrences are taken
    from the left and do not overlap.  [skip] counts the characters of
    the occurrence being passed over. *)
Fixpoint replace_from (old new : str) (skip : nat) (s : str) : str :=
  match s with
  | [] => []
  | c :: s' =>
      match skip with
      | S k => replace_from old new k s'
      | O =>
          if starts_with old s
          then new ++ replace_from old new (Nat.pred (List.length old)) s'
          else c :: replace_from old new 0 s'
      end
  end.

Definition replace (old new s : str) : str := replace_from old new 0 s.

End Str.

Import Str.

(* ================================================================== *)
(** * Regular expressions of the program *)
(* ================================================================== *)

Module Re.

(** The fragment of [re] that the patterns of the program use.  A
    repetition is only ever applied to a character class. *)
Inductive regex : Type :=
| Eps
| Cls (p : char -> bool)
| Cat (a b : regex)
| Alt (a b : regex)
| Opt (a : regex)
| Plus (p : char -> bool)
| Bol
| Eol
| WordB.

(** One literal character, and one literal character under
    [re.IGNORECASE]. *)
Definition Chr (c : char) : regex := Cls (N.eqb c).

(** Under [re.IGNORECASE] a letter of the pattern also matches its other
    case; for [s], [k] and [i] that includes the long s, the Kelvin sign,
    and the dotted capital and dotless small i. *)
Definition ichar (c x : char) : bool :=
  ((lower_char x =? lower_char c)
   || ((lower_char c =? 115) && (x =? 383))
   || ((lower_char c =? 107) && (x =? 8490))
   || ((lower_char c =? 105) && ((x =? 304) || (x =? 305))))%N.

Fixpoint Lit (s : str) : regex :=
  match s with
  | [] => Eps
  | c :: s' => Cat (Chr c) (Lit s')
  end.

Fixpoint ILit (s : str) : regex :=
  match s with
  | [] => Eps
  | c :: s' => Cat (Cls (ichar c)) (ILit s')
  end.

(** [r{n}]. *)
Fixpoint Rep (n : nat) (r : regex) : regex :=
  match n with
  | O => Eps
  | S k => Cat r (Rep k r)
  end.

Definition is_word_opt (c : option char) : bool :=
  match c with
  | Some x => is_word x
  | None => false
  end.

(** Greedy [p+] followed by the continuation [k]: the longest run is
    tried first, then shorter ones. *)
Fixpoint plus_run (p : char -> bool) (s : str) (n : nat)
    (k : option char -> str -> nat -> option nat) {struct s} : option nat :=
  match s with
  | [] => None
  | c :: s' =>
      if p c then
        match plus_run p s' (S n) k with
        | Some x => Some x
        | None => k (Some c) s' (S n)
        end
      else None
  end.

(** Backtracking matcher.  [prev] is the character before the current
    position, [s] the text from the current position on, [n] the number
    of characters consumed so far; the result is the length of the
    match that [re] finds. *)
Fixpoint run (r : regex) (prev : option char) (s : str) (n : nat)
    (k : option char -> str -> nat -> option nat) {struct r} : option nat :=
  match r with
  | Eps => k prev s n
  | Cls p =>
      match s with
      | c :: s' => if p c then k (Some c) s' (S n) else None
      | [] => None
      end
  | Cat a b => run a prev s n (fun pv s' n' => run b pv s' n' k)
  | Alt a b =>
      match run a prev s n k with
      | Some x => Some x
      | None => run b prev s n k
      end
  | Opt a =>
      match run a prev s n k with
      | Some x => Some x
      | None => k prev s n
      end
  | Plus p => plus_run p s n k
  | Bol => match prev with None => k prev s n | Some _ => None end
  | Eol =>
      match s with
      | [] => k prev s n
      | [c] => if (c =? 10)%N then k prev s n else None
      | _ => None
      end
  | WordB =>
      if xorb (is_word_opt prev) (is_word_opt (hd_error s))
      then k prev s n else None
  end.

(** Length of the match of [r] at the current position, if any. *)
Definition match_len (r : regex) (prev : option char) (s : str) : option nat :=
  run r prev s 0 (fun _ _ n => Some n).

(** [bool(re.match(r, s))]. *)
Definition re_match (r : regex) (s : str) : bool :=
  match match_len r None s with Some _ => true | None => false end.

(** [re.search(r, s)]: start and length of the leftmost match. *)
Fixpoint search_from (r : regex) (prev : option char) (i : nat) (s : str)
    : option (nat * nat) :=
  match match_len r prev s with
  | Some n => Some (i, n)
  | None =>
      match s with
      | [] => None
      | c :: s' => search_from r (Some c) (S i) s'
      end
  end.

Definition re_search (r : regex) (s : str) : option (nat * nat) :=
  search_from r None 0 s.

Definition re_found (r : regex) (s : str) : bool :=
  match re_search r s with Some _ => true | None => false end.

(** [re.search(r, s).group()]. *)
Definition re_group (r : regex) (s : str) : option str :=
  match re_search r s with
  | Some (i, n) => Some (firstn n (skipn i s))
  | None => None
  end.

(** [re.sub(r, repl, s)] for a pattern that matches no empty text (every
    pattern that the program substitutes starts with a character).
    [skip] counts the characters of the match being passed over. *)
Fixpoint sub_from (r : regex) (repl : str) (prev : option char)
    (skip : nat) (s : str) : str :=
  match s with
  | [] => []
  | c :: s' =>
      match skip with
      | S k => sub_from r repl (Some c) k s'
      | O =>
          match match_len r prev s with
          | Some (S n) => repl ++ sub_from r repl (Some c) n s'
          | _ => c :: sub_from r repl (Some c) 0 s'
          end
      end
  end.

Definition re_sub (r : regex) (repl : str) (s : str) : str :=
  sub_from r repl None 0 s.

End Re.

Import Re.

(* ================================================================== *)
(** * TextCleaner: [clean_address_text] *)
(* ================================================================== *)

(** The characters of the class that the first [re.sub] removes: the
    ASCII symbols below, the inverted question and exclamation marks
    (U+00BF, U+00A1) and the double quote (U+0022). *)
Definition symbol_chars : str :=
  lit "?" ++ [191%N] ++ lit "!" ++ [161%N]
      ++ lit "@#$%^&*()_+=<>{}[]|\/:;" ++ [34%N] ++ lit "'`~".

Definition is_symbol (c : char) : bool := existsb (N.eqb c) symbol_chars.

(** The dictionary [replacements], in the order of the source. *)
Definition replacements : list (str * str) :=
  [ ([225%N], lit "a"); ([233%N], lit "e"); ([237%N], lit "i");
    ([243%N], lit "o"); ([250%N], lit "u");
    ([224%N], lit "a"); ([232%N], lit "e"); ([236%N], lit "i");
    ([242%N], lit "o"); ([249%N], lit "u");
    ([228%N], lit "a"); ([235%N], lit "e"); ([239%N], lit "i");
    ([246%N], lit "o"); ([252%N], lit "u");
    ([226%N], lit "a"); ([234%N], lit "e"); ([238%N], lit "i");
    ([244%N], lit "o"); ([251%N], lit "u");
    ([227%N], lit "a"); ([7869%N], lit "e"); ([297%N], lit "i");
    ([245%N], lit "o"); ([361%N], lit "u");
    ([241%N], lit "n"); ([231%N], lit "c"); ([223%N], lit "ss") ].

(** The loop [for accented, basic in replacements.items()]. *)
Definition fold_accents (tbl : list (str * str)) (s : str) : str :=
  fold_left (fun acc e => replace (fst e) (snd e) acc) tbl s.

Definition clean_address_text (text : str) (aggressive : bool) : str :=
  match text with
  | [] => text
  | _ =>
      let cleaned :=
        if aggressive
        then fold_accents replacements (re_sub (Cls is_symbol) [] text)
        else re_sub (Cls is_symbol) [] text in
      let cleaned := re_sub (Plus isspace) (lit " ") cleaned in
      strip cleaned
  end.

(* ================================================================== *)
(** * AddressNormalizer: [normalize_address_format] *)
(* ================================================================== *)

(** The dictionary [self.common_abbreviations], in the order of the
    source. *)
Definition common_abbreviations : list (str * list str) :=
  [ (lit "calle", [lit "c/"; lit "c\"; lit "cl"; lit "cl."; lit "call"]);
    (lit "avenida", [lit "av"; lit "av."; lit "avda"; lit "avda."; lit "aven"]);
    (lit "plaza", [lit "pl"; lit "pl."; lit "plz"]);
    (lit "paseo", [lit "ps"; lit "ps."; lit "pso"]);
    (lit "carrera", [lit "cr"; lit "cr."; lit "cra"; lit "cra."]);
    (lit "diagonal", [lit "dg"; lit "dg."; lit "diag"]);
    (lit "transversal", [lit "tv"; lit "tv."; lit "trans"]);
    (lit "street", [lit "st"; lit "st."; lit "str"; lit "str."]);
    (lit "avenue", [lit "ave"; lit "ave."; lit "av"]);
    (lit "boulevard", [lit "blvd"; lit "blvd."; lit "boul"]);
    (lit "road", [lit "rd"; lit "rd."]);
    (lit "drive", [lit "dr"; lit "dr."]);
    (lit "lane", [lit "ln"; lit "ln."]);
    (lit "court", [lit "ct"; lit "ct."]);
    (lit "place", [lit "pl"; lit "pl."]) ].

Definition spanish_words : list str :=
  [lit "calle"; lit "avenida"; lit "plaza"; lit "paseo"; lit "carrera";
   lit "diagonal"; lit "transversal"].

Definition english_words : list str :=
  [lit "street"; lit "avenue"; lit "boulevard"; lit "road"; lit "drive";
   lit "lane"; lit "court"; lit "place"].

Definition mem (x : str) (l : list str) : bool := existsb (Str.eqb x) l.

(** The pattern [r'\b' + re.escape(abbrev) + r'\b'], compiled with
    [re.IGNORECASE]. *)
Definition abbrev_pattern (abbrev : str) : regex :=
  Cat WordB (Cat (ILit abbrev) WordB).

(** The inner loop [for abbrev in abbreviations]. *)
Definition expand_abbreviations (full_word : str) (abbreviations : list str)
    (normalized : str) : str :=
  fold_left (fun acc abbrev => re_sub (abbrev_pattern abbrev) full_word acc)
            abbreviations normalized.

Definition normalize_address_format (address : str) (target_language : str)
    : str :=
  match address with
  | [] => address
  | _ =>
      let normalized := strip (lower address) in
      let normalized :=
        fold_left
          (fun acc entry =>
             let '(full_word, abbreviations) := entry in
             if Str.eqb target_language (lit "es") && mem full_word spanish_words
             then expand_abbreviations full_word abbreviations acc
             else if Str.eqb target_language (lit "en")
                     && mem full_word english_words
             then expand_abbreviations full_word abbreviations acc
             else acc)
          common_abbreviations normalized in
      let normalized := join (lit " ") (List.map capitalize (split normalized)) in
      strip (re_sub (Plus isspace) (lit " ") normalized)
  end.

(* ================================================================== *)
(** * CompletenessAnalyzer: [detect_incomplete_address] *)
(* ================================================================== *)

Record components_found_t : Type := {
  found_street_number : bool;
  found_street_name : bool;
  found_city : bool;
  found_postal_code : bool
}.

(** The dictionary that [detect_incomplete_address] returns; the key
    [components_found] is absent from the report of the empty address. *)
Record CompletenessReport : Type := {
  is_complete : bool;
  missing_components : list str;
  confidence : Q;
  components_found : option components_found_t
}.

(** [\d+] *)
Definition digits_re : regex := Plus isdecimal.

(** [(calle|avenida|street|avenue|road|drive|c/|av|st|rd)] *)
Definition street_name_re : regex :=
  Alt (Lit (lit "calle")) (Alt (Lit (lit "avenida")) (Alt (Lit (lit "street"))
  (Alt (Lit (lit "avenue")) (Alt (Lit (lit "road")) (Alt (Lit (lit "drive"))
  (Alt (Lit (lit "c/")) (Alt (Lit (lit "av")) (Alt (Lit (lit "st"))
  (Lit (lit "rd")))))))))).

(** [\b\d{5}(-\d{4})?\b|\b[A-Z]\d[A-Z]\s?\d[A-Z]\d\b] *)
Definition postal_shape_re : regex :=
  Alt (Cat WordB (Cat (Rep 5 (Cls isdecimal))
         (Cat (Opt (Cat (Chr 45) (Rep 4 (Cls isdecimal)))) WordB)))
      (Cat WordB (Cat (Cls is_AZ) (Cat (Cls isdecimal) (Cat (Cls is_AZ)
         (Cat (Opt (Cls isspace)) (Cat (Cls isdecimal) (Cat (Cls is_AZ)
         (Cat (Cls isdecimal) WordB)))))))).

Definition street_number_key : str := lit "street_number".
Definition street_name_key : str := lit "street_name".
Definition city_key : str := lit "city".
Definition postal_code_key : str := lit "postal_code".

Definition detect_incomplete_address (address : str) : CompletenessReport :=
  match address with
  | [] =>
      {| is_complete := false;
         missing_components := [lit "address"];
         confidence := 0%Q;
         components_found := None |}
  | _ =>
      let address_lower := lower address in
      let has_street_number := re_found digits_re address in
      let has_street_name := re_found street_name_re address_lower in
      let has_city := (1 <? List.length (split_on 44 address))%nat in
      let has_postal_code := re_found postal_shape_re address in
      let missing_components :=
        (if has_street_number then [] else [street_number_key])
          ++ (if has_street_name then [] else [street_name_key])
          ++ (if has_city then [] else [city_key])
          ++ (if has_postal_code then [] else [postal_code_key]) in
      let total_components := 4%Z in
      let present_components :=
        (total_components - Z.of_nat (List.length missing_components))%Z in
      {| is_complete := (List.length missing_components =? 0)%nat;
         missing_components := missing_components;
         confidence :=
           (inject_Z present_components / inject_Z total_components)%Q;
         components_found :=
           Some {| found_street_number := has_street_number;
                   found_street_name := has_street_name;
                   found_city := has_city;
                   found_postal_code := has_postal_code |} |}
  end.

(* ================================================================== *)
(** * CorrectionSuggester: [suggest_address_corrections] *)
(* ================================================================== *)

(** The dictionary [common_corrections], in the order of the source. *)
Definition common_corrections : list (str * str) :=
  [ (lit "callle", lit "calle");
    (lit "aven" ++ [237%N] ++ lit "da", lit "avenida");
    (lit "avendia", lit "avenida");
    (lit "plasa", lit "plaza");
    (lit "carrrera", lit "carrera");
    (lit "stret", lit "street");
    (lit "streat", lit "street");
    (lit "avenu", lit "avenue");
    (lit "boulvard", lit "boulevard") ].

Definition suggest_address_corrections (address : str) (max_suggestions : nat)
    : list str :=
  match address with
  | [] => []
  | _ =>
      let '(_, suggestions) :=
        fold_left
          (fun (acc : str * list str) (entry : str * str) =>
             let '(corrected, suggestions) := acc in
             let '(error, correction) := entry in
             if contains error corrected
             then let corrected := replace error correction corrected in
                  (corrected, suggestions ++ [title corrected])
             else acc)
          common_corrections (lower address, []) in
      let normalized := normalize_address_format address (lit "es") in
      let suggestions :=
        if negb (Str.eqb normalized address) && negb (mem normalized suggestions)
        then suggestions ++ [normalized]
        else suggestions in
      firstn max_suggestions suggestions
  end.

(* ================================================================== *)
(** * Merging partial and provider addresses: [_merge_address_data] *)
(* ================================================================== *)

(** [set(a) - set(b)] on lists of words, read as a set; the function
    only tests whether the difference is empty. *)
Definition words_minus (a b : list str) : list str :=
  filter (fun w => negb (mem w b)) a.

(** The parameter [components] of the source is never read and is left
    out. *)
Definition _merge_address_data (partial_address full_address : str) : str :=
  match strip partial_address with
  | [] => full_address
  | _ =>
      let partial_words := split (lower partial_address) in
      let full_words := split (lower full_address) in
      let unique_partial_words := words_minus partial_words full_words in
      match unique_partial_words with
      | [] => full_address
      | _ =>
          match re_group digits_re partial_address with
          | Some street_number =>
              if negb (re_found digits_re full_address)
              then street_number ++ lit " " ++ full_address
              else full_address
          | None => full_address
          end
      end
  end.

(* ================================================================== *)
(** * PostalValidator: patterns of [validate_postal_code] *)
(* ================================================================== *)

Definition D : regex := Cls isdecimal.
Definition AZ : regex := Cls is_AZ.
Definition anchored (r : regex) : regex := Cat Bol (Cat r Eol).

(** The dictionary [postal_patterns], in the order of the source: country
    code, pattern text, pattern. *)
Definition postal_patterns : list (str * (str * regex)) :=
  [ (lit "ES", (lit "^\d{5}$", anchored (Rep 5 D)));
    (lit "US", (lit "^\d{5}(-\d{4})?$",
                anchored (Cat (Rep 5 D) (Opt (Cat (Chr 45) (Rep 4 D))))));
    (lit "CA", (lit "^[A-Z]\d[A-Z]\s?\d[A-Z]\d$",
                anchored (Cat AZ (Cat D (Cat AZ (Cat (Opt (Cls isspace))
                            (Cat D (Cat AZ D))))))));
    (lit "MX", (lit "^\d{5}$", anchored (Rep 5 D)));
    (lit "GB", (lit "^[A-Z]{1,2}\d[A-Z\d]?\s?\d[A-Z]{2}$",
                anchored (Cat AZ (Cat (Opt AZ) (Cat D
                   (Cat (Opt (Cls (fun c => is_AZ c || isdecimal c)))
                   (Cat (Opt (Cls isspace)) (Cat D (Rep 2 AZ)))))))));
    (lit "FR", (lit "^\d{5}$", anchored (Rep 5 D)));
    (lit "DE", (lit "^\d{5}$", anchored (Rep 5 D)));
    (lit "IT", (lit "^\d{5}$", anchored (Rep 5 D)));
    (lit "BR", (lit "^\d{5}-?\d{3}$",
                anchored (Cat (Rep 5 D) (Cat (Opt (Chr 45)) (Rep 3 D)))));
    (lit "AR", (lit "^[A-Z]?\d{4}[A-Z]{3}$|^\d{4}$",
                Alt (anchored (Cat (Opt AZ) (Cat (Rep 4 D) (Rep 3 AZ))))
                    (anchored (Rep 4 D))));
    (lit "CO", (lit "^\d{6}$", anchored (Rep 6 D))) ].

Fixpoint assoc {A} (k : str) (l : list (str * A)) : option A :=
  match l with
  | [] => None
  | (k', v) :: l' => if Str.eqb k k' then Some v else assoc k l'
  end.

(* ================================================================== *)
(** * Python values, dictionaries and exceptions *)
(* ================================================================== *)

(** The values that flow through the records: [None], booleans, numbers
    (integers and floats, as rationals), strings, lists and dictionaries
    with string keys, in insertion order. *)
Inductive value : Type :=
| VNone
| VBool (b : bool)
| VNum (q : Q)
| VStr (s : str)
| VList (l : list value)
| VDict (d : list (str * value)).

Definition dict := list (str * value).

(** [bool(v)]. *)
Definition truthy (v : value) : bool :=
  match v with
  | VNone => false
  | VBool b => b
  | VNum q => negb (Qeq_bool q 0)
  | VStr s => match s with [] => false | _ => true end
  | VList l => match l with [] => false | _ => true end
  | VDict d => match d with [] => false | _ => true end
  end.

(** [k in d] and [d.get(k)]. *)
Definition dict_has (k : str) (d : dict) : bool :=
  match assoc k d with Some _ => true | None => false end.

Definition dict_get (k : str) (d : dict) : option value := assoc k d.

Definition dict_get_default (k : str) (default : value) (d : dict) : value :=
  match assoc k d with Some v => v | None => default end.

(** [d[k] = v]: an existing key keeps its place, a new key goes last. *)
Fixpoint dict_set (k : str) (v : value) (d : dict) : dict :=
  match d with
  | [] => [(k, v)]
  | (k', v') :: d' =>
      if Str.eqb k k' then (k', v) :: d' else (k', v') :: dict_set k v d'
  end.

(** [d.update(other)]. *)
Definition dict_update (d other : dict) : dict :=
  fold_left (fun acc kv => dict_set (fst kv) (snd kv) acc) other d.

Inductive exn_kind : Type :=
| KeyError | IndexError | TypeError | AttributeError | ValueError
| OverflowError | ProviderError.

(** An exception derived from [Exception]; [exn_str] is [str(e)].  The
    texts of the errors that the interpreter itself raises are
    indicative. *)
Record exn : Type := mk_exn { exn_kind_of : exn_kind; exn_str : str }.

Inductive outcome (A : Type) : Type :=
| Ok (a : A)
| Raise (e : exn).

Arguments Ok {A} a.
Arguments Raise {A} e.

Definition key_error (k : str) : exn :=
  mk_exn KeyError (lit "'" ++ k ++ lit "'").
Definition type_error (what : String.string) : exn := mk_exn TypeError (lit what).
Definition attribute_error (attr : String.string) : exn :=
  mk_exn AttributeError (lit "object has no attribute '" ++ lit attr ++ lit "'").

(** [v[0]]. *)
Definition index0 (v : value) : outcome value :=
  match v with
  | VList (x :: _) => Ok x
  | VList [] => Raise (mk_exn IndexError (lit "list index out of range"))
  | VStr (c :: _) => Ok (VStr [c])
  | VStr [] => Raise (mk_exn IndexError (lit "string index out of range"))
  | VDict _ => Raise (mk_exn KeyError (lit "0"))
  | _ => Raise (type_error "object is not subscriptable")
  end.

(** [v[k]] for a string key. *)
Definition getitem (v : value) (k : str) : outcome value :=
  match v with
  | VDict d =>
      match assoc k d with
      | Some x => Ok x
      | None => Raise (key_error k)
      end
  | VStr _ => Raise (type_error "string indices must be integers")
  | VList _ => Raise (type_error "list indices must be integers or slices")
  | _ => Raise (type_error "object is not subscriptable")
  end.

(** [v.get(k, default)]. *)
Definition get_method (v : value) (k : str) (default : value) : outcome value :=
  match v with
  | VDict d => Ok (dict_get_default k default d)
  | _ => Raise (attribute_error "get")
  end.

(** [k in v] for a string [k]. *)
Definition contains_key (k : str) (v : value) : outcome bool :=
  match v with
  | VDict d => Ok (dict_has k d)
  | VStr s => Ok (contains k s)
  | VList l =>
      Ok (existsb (fun x => match x with VStr s => Str.eqb s k | _ => false end) l)
  | _ => Raise (type_error "argument is not iterable")
  end.

(** [v / 10.0] *)
Definition div10 (v : value) : outcome Q :=
  match v with
  | VNum q => Ok (q / 10)%Q
  | VBool b => Ok ((if b then 1 else 0) / 10)%Q
  | _ => Raise (type_error "unsupported operand type(s) for /")
  end.

(** [min(a, b)] on numbers. *)
Definition Qmin (a b : Q) : Q := if Qle_bool a b then a else b.

(** ** The pure operations on values of any type *)

(** [clean_address_text(v, aggressive)]. *)
Definition clean_value (v : value) (aggressive : bool) : outcome value :=
  if negb (truthy v) then Ok v
  else match v with
       | VStr s => Ok (VStr (clean_address_text s aggressive))
       | _ => Raise (type_error "expected string or bytes-like object")
       end.

(** The loop that cleans every string of [components] in place. *)
Definition clean_components (components : value) (aggressive : bool)
    : outcome value :=
  match components with
  | VDict d =>
      Ok (VDict (List.map
                   (fun kv =>
                      match snd kv with
                      | VStr s => (fst kv, VStr (clean_address_text s aggressive))
                      | _ => kv
                      end) d))
  | _ => Raise (attribute_error "items")
  end.

(** [self._merge_address_data(partial, full, components)]. *)
Definition merge_value (partial_address full_address : value) : outcome value :=
  match partial_address with
  | VStr p =>
      match strip p with
      | [] => Ok full_address
      | _ =>
          match full_address with
          | VStr f => Ok (VStr (_merge_address_data p f))
          | _ => Raise (attribute_error "lower")
          end
      end
  | _ => Raise (attribute_error "strip")
  end.

(** [self.normalize_address_format(v, language)]. *)
Definition normalize_value (v : value) (language : str) : outcome value :=
  if negb (truthy v) then Ok v
  else match v with
       | VStr s => Ok (VStr (normalize_address_format s language))
       | _ => Raise (attribute_error "lower")
       end.

(** The report of [detect_incomplete_address] on a value of any type. *)
Definition detect_value (v : value) : outcome CompletenessReport :=
  if negb (truthy v) then Ok (detect_incomplete_address [])
  else match v with
       | VStr s => Ok (detect_incomplete_address s)
       | _ => Raise (attribute_error "lower")
       end.

Definition str_list (l : list str) : value := VList (List.map VStr l).

(** [self.suggest_address_corrections(v)], with the default bound 3. *)
Definition suggest_value (v : value) : outcome value :=
  if negb (truthy v) then Ok (VList [])
  else match v with
       | VStr s => Ok (str_list (suggest_address_corrections s 3))
       | _ => Raise (attribute_error "lower")
       end.

(* ================================================================== *)
(** * PostalValidator: [validate_postal_code] *)
(* ================================================================== *)

Definition K (s : String.string) : str := lit s.

(** The loop over [postal_patterns.items()] when no country is given. *)
Fixpoint first_pattern_match (tbl : list (str * (str * regex))) (code : str)
    : option (str * str) :=
  match tbl with
  | [] => None
  | (country, (text, r)) :: tbl' =>
      if re_match r code then Some (country, text)
      else first_pattern_match tbl' code
  end.

Definition validate_postal_code (postal_code : value) (country_code : value)
    : outcome dict :=
  if negb (truthy postal_code)
  then Ok [(K "is_valid", VBool false); (K "reason", VStr (K "empty_postal_code"))]
  else
    match postal_code with
    | VStr pc =>
        let postal_code_clean := upper (strip pc) in
        let by_scan :=
          match first_pattern_match postal_patterns postal_code_clean with
          | Some (country, text) =>
              Ok [(K "is_valid", VBool true);
                  (K "possible_country", VStr country);
                  (K "pattern_matched", VStr text);
                  (K "cleaned_postal_code", VStr postal_code_clean)]
          | None =>
              Ok [(K "is_valid", VBool false);
                  (K "reason", VStr (K "no_pattern_match"));
                  (K "cleaned_postal_code", VStr postal_code_clean)]
          end in
        if truthy country_code then
          match country_code with
          | VStr cc =>
              match assoc (upper cc) postal_patterns with
              | Some (text, r) =>
                  Ok [(K "is_valid", VBool (re_match r postal_code_clean));
                      (K "country_code", VStr (upper cc));
                      (K "pattern_used", VStr text);
                      (K "cleaned_postal_code", VStr postal_code_clean)]
              | None => by_scan
              end
          | _ => Raise (attribute_error "upper")
          end
        else by_scan
    | _ => Raise (attribute_error "strip")
    end.

(* ================================================================== *)
(** * Notions used to state and prove the properties *)
(* ================================================================== *)

(** Length of the longest prefix of [s] in the class [p]. *)
Fixpoint span (p : char -> bool) (s : str) : nat :=
  match s with
  | [] => 0
  | c :: s' => if p c then S (span p s') else 0
  end.

(** Every run of whitespace becomes one space; [in_run] tells that the
    character before belongs to a run already replaced. *)
Fixpoint collapse (in_run : bool) (s : str) : str :=
  match s with
  | [] => []
  | c :: s' =>
      if isspace c
      then (if in_run then collapse true s' else 32%N :: collapse true s')
      else c :: collapse false s'
  end.

(** The only whitespace of [s] is the space, and no two are adjacent;
    [prev_ws] tells that the character before is whitespace. *)
Fixpoint ws_normal (prev_ws : bool) (s : str) : Prop :=
  match s with
  | [] => True
  | c :: s' =>
      if isspace c
      then c = 32%N /\ prev_ws = false /\ ws_normal true s'
      else ws_normal false s'
  end.

(** [c] is a key of the table [tbl]. *)
Definition key_in (tbl : list (str * str)) (c : char) : bool :=
  existsb (fun e => Str.eqb (fst e) [c]) tbl.

Definition single_keys (tbl : list (str * str)) : Prop :=
  Forall (fun e => exists c, fst e = [c]) tbl.

(** The texts that [clean_address_text] leaves unchanged. *)
Definition clean_normal (aggressive : bool) (s : str) : Prop :=
  Forall (fun c => is_symbol c = false) s
  /\ (aggressive = true -> Forall (fun c => key_in replacements c = false) s)
  /\ ws_normal false s
  /\ strip s = s.

(** The four component names, in the order in which the analyzer
    reports them. *)
Definition component_names : list str :=
  [street_number_key; street_name_key; city_key; postal_code_key].

(** [a] is [b] with some elements left out, order kept. *)
Fixpoint subseq (a b : list str) : bool :=
  match a, b with
  | [], _ => true
  | _ :: _, [] => false
  | x :: a', y :: b' =>
      if Str.eqb x y then subseq a' b' else subseq a b'
  end.

(** The three relations that tie the fields of a completeness report
    together. *)
Definition report_consistent (r : CompletenessReport) : Prop :=
  (is_complete r = true <-> missing_components r = [])
  /\ subseq (missing_components r) component_names = true
  /\ (confidence r
      == (4 - inject_Z (Z.of_nat (List.length (missing_components r)))) / 4)%Q.


(** ** Providers and records of the examples *)

Definition provider_down : exn := mk_exn ProviderError (lit "quota exceeded").

(** A provider that is down: every call raises. *)
Definition failing_reverse (w : unit) (lat lng : value) (language : option str)
    (no_annotations : bool) : outcome value * unit :=
  (Raise provider_down, w).

Definition failing_geocode (w : unit) (query : value) (language : option str)
    : outcome value * unit :=
  (Raise provider_down, w).

(** A candidate with the given formatted text and a confidence of 3 out
    of 10. *)
Definition candidate_dict (formatted : str) : dict :=
  [ (K "formatted", VStr formatted);
    (K "components",
     VDict [(K "city", VStr (lit "Madrid")); (K "country_code", VStr (lit "es"))]);
    (K "geometry", VDict [(K "lat", VNum (404 # 10)); (K "lng", VNum (-37 # 10))]);
    (K "confidence", VNum 3) ].

(** A provider that answers every call with that one candidate. *)
Definition answering_reverse (formatted : str) (w : unit) (lat lng : value)
    (language : option str) (no_annotations : bool) : outcome value * unit :=
  (Ok (VList [VDict (candidate_dict formatted)]), w).

Definition answering_geocode (formatted : str) (w : unit) (query : value)
    (language : option str) : outcome value * unit :=
  (Ok (VList [VDict (candidate_dict formatted)]), w).


Definition fixed_clock (w : unit) : str * unit := (lit "2024-01-01T00:00:00", w).

Definition no_float (s : str) : option Q := None.

Definition madrid : value * value := (VNum (404 # 10), VNum (-37 # 10)).

Definition gran_via_record : dict := [(K "address", VStr (lit "Gran Via 25"))].
Definition calle_falsa_record : dict := [(K "address", VStr (lit "calle falsa"))].



(** A character that the conservative cleaning neither removes nor
    rewrites: no symbol of the class, no whitespace. *)
Definition kept_char (c : char) : bool := negb (is_symbol c) && negb (isspace c).



(** A provider that finds nothing, and one whose candidate lacks the
    formatted text. *)
Definition empty_reverse (w : unit) (lat lng : value) (language : option str)
    (no_annotations : bool) : outcome value * unit :=
  (Ok (VList []), w).

Definition malformed_reverse (w : unit) (lat lng : value)
    (language : option str) (no_annotations : bool) : outcome value * unit :=
  (Ok (VList [VDict [(K "confidence", VNum 9)]]), w).



(** A record whose latitude is no number. *)
Definition unreadable_record : dict :=
  [ (K "address", VStr (lit "Gran Via 25"));
    (K "lat", VStr (lit "n/a"));
    (K "lng", VNum (-37 # 10)) ].



(* ================================================================== *)
(** * Coordinate files: the column choice of [read_coordinates_from_csv] *)
(* ================================================================== *)

Definition possible_lat_names : list str :=
  [lit "lat"; lit "latitude"; lit "Lat"; lit "Latitude"; lit "LAT";
   lit "LATITUDE"].

Definition possible_lng_names : list str :=
  [lit "lng"; lit "longitude"; lit "Lng"; lit "Longitude"; lit "LNG";
   lit "LONGITUDE"; lit "lon"].

(** [col.strip().lower() in [name.lower() for name in names]]. *)
Definition names_column (names : list str) (col : str) : bool :=
  mem (lower (strip col)) (List.map lower names).

(** The loop [for col in df.columns]: the pair [lat_col], [lng_col]
    after the last column. *)
Definition identify_columns (columns : list str) : option str * option str :=
  fold_left
    (fun (acc : option str * option str) col =>
       if names_column possible_lat_names col then (Some col, snd acc)
       else if names_column possible_lng_names col then (fst acc, Some col)
       else acc)
    columns (None, None).

(** The two columns that [read_coordinates_from_csv] reads, from the
    header [df.columns] of the file. *)
Definition coordinate_columns (columns : list str) : outcome (str * str) :=
  match identify_columns columns with
  | (Some lat_col, Some lng_col) => Ok (lat_col, lng_col)
  | _ =>
      match columns with
      | c0 :: c1 :: _ => Ok (c0, c1)
      | _ =>
          Raise (mk_exn ValueError
                   (lit "Could not identify latitude and longitude columns"))
      end
  end.

(* ================================================================== *)
(** * Export: the flattening of [export_enhanced_addresses] *)
(* ================================================================== *)

Definition is_dict (v : value) : bool :=
  match v with VDict _ => true | _ => false end.

(** The dictionary [flat_addr] that the export builds for one record:
    the entries of a nested dictionary come up one level under the key
    [key_subkey]. *)
Definition flatten_record (addr : dict) : dict :=
  fold_left
    (fun flat_addr kv =>
       match snd kv with
       | VDict sub =>
           fold_left
             (fun flat skv =>
                dict_set (fst kv ++ lit "_" ++ fst skv) (snd skv) flat)
             sub flat_addr
       | v => dict_set (fst kv) v flat_addr
       end)
    addr [].

(** The entries of the flattened record, one after the other, before
    any of them overwrites another. *)
Definition flat_entries (addr : dict) : dict :=
  flat_map
    (fun kv =>
       match snd kv with
       | VDict sub =>
           List.map (fun skv => (fst kv ++ lit "_" ++ fst skv, snd skv)) sub
       | _ => [kv]
       end)
    addr.

(** A character of a field of a coordinate line: no whitespace, no
    comma. *)
Definition field_char (c : char) : bool := negb (isspace c) && negb (c =? 44)%N.



(** Providers of the batch script: one that is down, one that answers
    every call with the candidate of the examples. *)
Definition failing_reverse_params (w : unit) (lat lng : value) (params : dict)
    : outcome value * unit :=
  (Raise provider_down, w).

Definition answering_reverse_params (formatted : str) (w : unit)
    (lat lng : value) (params : dict) : outcome value * unit :=
  (Ok (VList [VDict (candidate_dict formatted)]), w).



Definition two_coordinates : list (Q * Q) :=
  [((404 # 10)%Q, (-37 # 10)%Q); (0%Q, 0%Q)].



(** A reader of numbers that knows the two texts of the examples. *)
Definition madrid_float (s : str) : option Q :=
  if Str.eqb s (lit "40.4") then Some (404 # 10)%Q
  else if Str.eqb s (lit "-3.7") then Some (-37 # 10)%Q
  else None.

Definition example_header : list str := [lit "id"; lit " Latitude"; lit "LON"].

Definition nested_record : dict :=
  [ (K "address", VStr (lit "Gran Via 25"));
    (K "components",
     VDict [(K "city", VStr (lit "Madrid")); (K "country_code", VStr (lit "es"))]) ].


(* ================================================================== *)
(** * The world: geocoding provider, clock, log of effects *)
(* ================================================================== *)

(** What the program does to the outside, in order. *)
Inductive event : Type :=
| EvReverse (lat lng : value) (language : option str) (no_annotations : bool)
| EvGeocode (query : value) (language : option str)
| EvSleep (delay : Q).

Definition is_reverse (e : event) : bool :=
  match e with EvReverse _ _ _ _ => true | _ => false end.

(** The lines that the two batch functions write with [print]: the
    progress line and the error line of [process_address_batch], and
    the progress line and the error line of
    [reverse_geocode_coordinates].  [i] is the index of the loop, which
    the line shows as [i+1]. *)
Inductive message : Type :=
| MsgRecord (i n : nat)
| MsgRecordError (i : nat) (e : exn)
| MsgCoordinate (i n : nat) (lat lng : Q)
| MsgCoordinateError (lat lng : Q) (e : exn).

(** A console that takes every line, and one that takes none. *)
Definition quiet_console (w : unit) (m : message) : outcome unit * unit :=
  (Ok tt, w).

Definition console_down : exn :=
  mk_exn ValueError (lit "I/O operation on closed file.").

Definition broken_console (w : unit) (m : message) : outcome unit * unit :=
  (Raise console_down, w).

Section Pipeline.

(** The state of everything outside the program. *)
Variable env : Type.

(** [self.geocoder.reverse_geocode(lat, lng, language=..., no_annotations=1)]
    and [self.geocoder.geocode(query, language=...)]: the provider
    answers with any value or raises, and may change with every call. *)
Variable reverse_geocode :
  env -> value -> value -> option str -> bool -> outcome value * env.
Variable geocode : env -> value -> option str -> outcome value * env.

(** [datetime.now().isoformat()]. *)
Variable now_iso : env -> str * env.

(** [float(s)] on text; [None] stands for [ValueError]. *)
Variable float_of_str : str -> option Q.

(** [print(line)]: the console takes the line or raises (a text that
    its encoding cannot write, a closed pipe), and may change with every
    line. *)
Variable print : env -> message -> outcome unit * env.

(** The machine state: the outside, the log, the dictionary that the
    running function mutates ([result], [enriched] or [addr_data]) and
    the list [processed_addresses] of the batch. *)
Record state : Type := mk_state {
  st_env : env;
  st_log : list event;
  st_local : dict;
  st_out : list value
}.

(** Computations that read and write the state and may raise; the state
    reached at the point of a raise is kept. *)
Definition M (A : Type) : Type := state -> outcome A * state.

Definition ret {A} (a : A) : M A := fun st => (Ok a, st).

Definition bind {A B} (m : M A) (f : A -> M B) : M B :=
  fun st =>
    match m st with
    | (Ok a, st') => f a st'
    | (Raise e, st') => (Raise e, st')
    end.

Notation "x <- m ;; k" := (bind m (fun x => k))
  (at level 61, m at next level, right associativity).
Notation "m ;;; k" := (bind m (fun _ => k))
  (at level 61, right associativity).

(** [try: m  except Exception as e: h e]. *)
Definition try_except {A} (m : M A) (h : exn -> M A) : M A :=
  fun st =>
    match m st with
    | (Ok a, st') => (Ok a, st')
    | (Raise e, st') => h e st'
    end.

(** A pure operation that may raise. *)
Definition lift {A} (o : outcome A) : M A := fun st => (o, st).

Definition get_local : M dict := fun st => (Ok (st_local st), st).

Definition put_local (d : dict) : M unit :=
  fun st => (Ok tt, mk_state (st_env st) (st_log st) d (st_out st)).

(** [local[k] = v] and [local.update(d)]. *)
Definition set_item (k : str) (v : value) : M unit :=
  fun st =>
    (Ok tt, mk_state (st_env st) (st_log st) (dict_set k v (st_local st))
                     (st_out st)).

Definition update_local (d : dict) : M unit :=
  fun st =>
    (Ok tt, mk_state (st_env st) (st_log st) (dict_update (st_local st) d)
                     (st_out st)).

(** [processed_addresses.append(addr_data)]. *)
Definition append_out : M unit :=
  fun st =>
    (Ok tt, mk_state (st_env st) (st_log st) (st_local st)
                     (st_out st ++ [VDict (st_local st)])).

(** A call of a method with its own local dictionary. *)
Definition call_frame {A} (body : M A) : M A :=
  fun st =>
    match body st with
    | (o, st') =>
        (o, mk_state (st_env st') (st_log st') (st_local st) (st_out st'))
    end.

Definition call_reverse (lat lng : value) (language : option str)
    (no_annotations : bool) : M value :=
  fun st =>
    match reverse_geocode (st_env st) lat lng language no_annotations with
    | (r, e') =>
        (r, mk_state e'
              (st_log st ++ [EvReverse lat lng language no_annotations])
              (st_local st) (st_out st))
    end.

Definition call_geocode (query : value) (language : option str) : M value :=
  fun st =>
    match geocode (st_env st) query language with
    | (r, e') =>
        (r, mk_state e' (st_log st ++ [EvGeocode query language])
              (st_local st) (st_out st))
    end.

Definition now : M str :=
  fun st =>
    match now_iso (st_env st) with
    | (t, e') => (Ok t, mk_state e' (st_log st) (st_local st) (st_out st))
    end.

Definition print_line (m : message) : M unit :=
  fun st =>
    match print (st_env st) m with
    | (r, e') => (r, mk_state e' (st_log st) (st_local st) (st_out st))
    end.

(** [time.sleep(delay)]: a negative delay is a [ValueError]; the delay
    is turned into nanoseconds, rounded up, and one that does not fit
    a signed 64-bit integer is an [OverflowError].  The source's delay
    is a float and is a rational here; for a delay within one rounding
    of the bound, which of the two errors the interpreter reports is
    indicative, as their texts are. *)
Definition sleep (delay : Q) : M unit :=
  fun st =>
    if Qle_bool 0 delay
    then
      if Qle_bool (delay * 1000000000) (inject_Z (2 ^ 63 - 1))
      then (Ok tt, mk_state (st_env st) (st_log st ++ [EvSleep delay])
                     (st_local st) (st_out st))
      else (Raise (mk_exn OverflowError
                     (lit "timestamp too large to convert to C _PyTime_t")),
            st)
    else (Raise (mk_exn ValueError (lit "sleep length must be non-negative")),
          st).

(** [float(v)]. *)
Definition py_float (v : value) : outcome value :=
  match v with
  | VNum q => Ok (VNum q)
  | VBool b => Ok (VNum (if b then 1 else 0)%Q)
  | VStr s =>
      match float_of_str s with
      | Some q => Ok (VNum q)
      | None => Raise (mk_exn ValueError (lit "could not convert string to float"))
      end
  | _ => Raise (type_error "float() argument must be a string or a real number")
  end.

(* ------------------------------------------------------------------ *)
(** ** GeocodeCompleter: [complete_address] *)
(* ------------------------------------------------------------------ *)

(** The dictionary [result] as the function first builds it. *)
Definition initial_result (partial_address : value) : dict :=
  [ (K "original_address", partial_address);
    (K "completed_address", partial_address);
    (K "method_used", VStr (K "none"));
    (K "confidence", VNum 0);
    (K "components", VDict []);
    (K "suggestions", VList []) ].

(** Strategy 2 and the suggestions: the code after the block
    [if coordinates:]. *)
Definition complete_forward (partial_address : value) (language : str)
    (clean_special_chars aggressive : bool) : M unit :=
  stripped <- lift (match partial_address with
                    | VStr p => Ok (strip p)
                    | _ => Raise (attribute_error "strip")
                    end) ;;
  (match stripped with
   | [] => ret tt
   | _ =>
       geocode_result <- call_geocode partial_address (Some language) ;;
       if truthy geocode_result then
         c <- lift (index0 geocode_result) ;;
         full_address <- lift (getitem c (K "formatted")) ;;
         c <- lift (index0 geocode_result) ;;
         components <- lift (get_method c (K "components") (VDict [])) ;;
         c <- lift (index0 geocode_result) ;;
         conf <- lift (get_method c (K "confidence") (VNum 5)) ;;
         confidence <- lift (div10 conf) ;;
         full_address <-
           (if clean_special_chars
            then lift (clean_value full_address aggressive)
            else ret full_address) ;;
         components <-
           (if clean_special_chars
            then lift (clean_components components aggressive)
            else ret components) ;;
         c <- lift (index0 geocode_result) ;;
         g <- lift (getitem c (K "geometry")) ;;
         lat <- lift (getitem g (K "lat")) ;;
         c <- lift (index0 geocode_result) ;;
         g <- lift (getitem c (K "geometry")) ;;
         lng <- lift (getitem g (K "lng")) ;;
         update_local
           [ (K "completed_address", full_address);
             (K "method_used", VStr (K "forward_geocoding"));
             (K "confidence", VNum (Qmin confidence (8 # 10)));
             (K "components", components);
             (K "coordinates", VDict [(K "lat", lat); (K "lng", lng)]) ]
       else ret tt
   end) ;;;
  suggestions <- lift (suggest_value partial_address) ;;
  set_item (K "suggestions") suggestions.

(** The body of the [try] of [complete_address]. *)
Definition complete_try (partial_address : value)
    (coordinates : option (value * value)) (language : str)
    (clean_special_chars aggressive : bool) : M unit :=
  match coordinates with
  | Some (lat, lng) =>
      reverse_result <- call_reverse lat lng (Some language) clean_special_chars ;;
      if truthy reverse_result then
        c <- lift (index0 reverse_result) ;;
        full_address <- lift (getitem c (K "formatted")) ;;
        c <- lift (index0 reverse_result) ;;
        components <- lift (get_method c (K "components") (VDict [])) ;;
        full_address <-
          (if clean_special_chars
           then lift (clean_value full_address aggressive)
           else ret full_address) ;;
        components <-
          (if clean_special_chars
           then lift (clean_components components aggressive)
           else ret components) ;;
        merged_address <- lift (merge_value partial_address full_address) ;;
        update_local
          [ (K "completed_address", merged_address);
            (K "method_used", VStr (K "reverse_geocoding"));
            (K "confidence", VNum (9 # 10));
            (K "components", components) ]
        (* return result *)
      else complete_forward partial_address language clean_special_chars
                            aggressive
  | None =>
      complete_forward partial_address language clean_special_chars aggressive
  end.

Definition complete_address (partial_address : value)
    (coordinates : option (value * value)) (language : str)
    (clean_special_chars aggressive : bool) : M value :=
  call_frame
    (put_local (initial_result partial_address) ;;;
     try_except
       (complete_try partial_address coordinates language clean_special_chars
                     aggressive)
       (fun e =>
          set_item (K "error") (VStr (exn_str e)) ;;;
          set_item (K "method_used") (VStr (K "error"))) ;;;
     result <- get_local ;;
     ret (VDict result)).

(* ------------------------------------------------------------------ *)
(** ** LocationEnricher: [enrich_location_data] *)
(* ------------------------------------------------------------------ *)

(** [{k: source.get(k, default) for ...}]: one block of the enrichment,
    read key by key from [source]. *)
Fixpoint get_fields (source : value) (fields : list (str * (str * value)))
    : outcome dict :=
  match fields with
  | [] => Ok []
  | (name, (key, default)) :: rest =>
      match get_method source key default with
      | Raise e => Raise e
      | Ok v =>
          match get_fields source rest with
          | Raise e => Raise e
          | Ok d => Ok ((name, v) :: d)
          end
      end
  end.

Definition same_key (default : value) (k : String.string) : str * (str * value) :=
  (K k, (K k, default)).

Definition timezone_fields : list (str * (str * value)) :=
  [ same_key (VStr []) "name"; same_key (VNum 0) "offset_sec";
    same_key (VStr []) "offset_string" ].

Definition administrative_fields : list (str * (str * value)) :=
  List.map (same_key (VStr []))
    [ "country"; "country_code"; "state"; "state_code"; "province"; "county";
      "city"; "town"; "village"; "suburb"; "neighbourhood" ]%string.

Definition geographic_annotation_fields : list (str * (str * value)) :=
  [ same_key (VStr []) "continent"; same_key (VDict []) "currency";
    (K "calling_code", (K "callingcode", VStr []));
    same_key (VStr []) "flag"; same_key (VStr []) "geohash";
    same_key (VDict []) "what3words" ].

Definition quality_fields : list (str * (str * value)) :=
  [ (K "mgrs", (K "MGRS", VStr []));
    (K "maidenhead", (K "Maidenhead", VStr []));
    (K "mercator", (K "Mercator", VDict []));
    (K "osm", (K "OSM", VDict []));
    (K "un_m49", (K "UN_M49", VDict [])) ].

(** The keys that a successful reverse lookup attaches. *)
Definition enrichment_keys : list str :=
  [K "timezone"; K "administrative_levels"; K "geographic_info";
   K "quality_info"].

(** The block [if reverse_result:] of the enrichment. *)
Definition enrich_from_candidate (reverse_result : value)
    (clean_special_chars aggressive : bool) : M unit :=
  c <- lift (index0 reverse_result) ;;
  components <- lift (get_method c (K "components") (VDict [])) ;;
  c <- lift (index0 reverse_result) ;;
  annotations <- lift (get_method c (K "annotations") (VDict [])) ;;
  components <-
    (if clean_special_chars
     then lift (clean_components components aggressive)
     else ret components) ;;
  timezone_info <- lift (get_method annotations (K "timezone") (VDict [])) ;;
  tz <- lift (get_fields timezone_info timezone_fields) ;;
  set_item (K "timezone") (VDict tz) ;;;
  adm <- lift (get_fields components administrative_fields) ;;
  set_item (K "administrative_levels") (VDict adm) ;;;
  postcode <- lift (get_method components (K "postcode") (VStr [])) ;;
  geo <- lift (get_fields annotations geographic_annotation_fields) ;;
  set_item (K "geographic_info") (VDict ((K "postcode", postcode) :: geo)) ;;;
  qual <- lift (get_fields annotations quality_fields) ;;
  set_item (K "quality_info") (VDict qual) ;;;
  has_dms <- lift (contains_key (K "DMS") annotations) ;;
  if (has_dms : bool) then
    dms <- lift (getitem annotations (K "DMS")) ;;
    mgrs <- lift (get_method annotations (K "MGRS") (VStr [])) ;;
    maidenhead <- lift (get_method annotations (K "Maidenhead") (VStr [])) ;;
    set_item (K "coordinate_systems")
      (VDict [(K "dms", dms); (K "mgrs", mgrs); (K "maidenhead", maidenhead)])
  else ret tt.

(** The body of the [try] of [enrich_location_data]. *)
Definition enrich_try (address_data : dict)
    (coordinates : option (value * value))
    (clean_special_chars aggressive : bool) : M unit :=
  let start := match coordinates with
               | Some c => c
               | None => (VNone, VNone)
               end in
  latlng <-
    (match coordinates with
     | Some _ => ret start
     | None =>
         if truthy (dict_get_default (K "address") VNone address_data) then
           query <- lift (getitem (VDict address_data) (K "address")) ;;
           geocode_result <- call_geocode query None ;;
           if truthy geocode_result then
             c <- lift (index0 geocode_result) ;;
             g <- lift (getitem c (K "geometry")) ;;
             lat <- lift (getitem g (K "lat")) ;;
             c <- lift (index0 geocode_result) ;;
             g <- lift (getitem c (K "geometry")) ;;
             lng <- lift (getitem g (K "lng")) ;;
             set_item (K "coordinates") (VDict [(K "lat", lat); (K "lng", lng)]) ;;;
             ret (lat, lng)
           else ret start
         else ret start
     end) ;;
  (if truthy (fst latlng) && truthy (snd latlng) then
     reverse_result <-
       call_reverse (fst latlng) (snd latlng) None clean_special_chars ;;
     if truthy reverse_result
     then enrich_from_candidate reverse_result clean_special_chars aggressive
     else ret tt
   else ret tt) ;;;
  stamp <- now ;;
  set_item (K "enrichment_timestamp") (VStr stamp) ;;;
  set_item (K "enrichment_version") (VStr (K "1.0")).

Definition enrich_location_data (address_data : dict)
    (coordinates : option (value * value))
    (clean_special_chars aggressive : bool) : M value :=
  call_frame
    (put_local address_data ;;;
     try_except
       (enrich_try address_data coordinates clean_special_chars aggressive)
       (fun e => set_item (K "enrichment_error") (VStr (exn_str e))) ;;;
     enriched <- get_local ;;
     ret (VDict enriched)).

(* ------------------------------------------------------------------ *)
(** ** BatchOrchestrator: [process_address_batch] *)
(* ------------------------------------------------------------------ *)

(** The source mutates the dictionaries of [addresses] in place and
    returns a list of the same objects; the model appends the value that
    the record has at the time of the [append]. *)

Definition as_dict (v : value) : dict :=
  match v with VDict d => d | _ => [] end.

(** Steps 1 to 7 of the body of the [try] for one record; [addr_data]
    is the local dictionary. *)
Definition process_steps (language : str)
    (clean_special_chars aggressive : bool) : M unit :=
  addr_data <- get_local ;;
  let address := dict_get_default (K "address") (VStr []) addr_data in
  coordinates <-
    (if dict_has (K "lat") addr_data && dict_has (K "lng") addr_data then
       lat <- lift (getitem (VDict addr_data) (K "lat")) ;;
       lat <- lift (py_float lat) ;;
       lng <- lift (getitem (VDict addr_data) (K "lng")) ;;
       lng <- lift (py_float lng) ;;
       ret (Some (lat, lng))
     else ret None) ;;
  completeness <- lift (detect_value address) ;;
  (if negb (is_complete completeness)
      || negb (Qle_bool (7 # 10) (confidence completeness))
   then
     completion_result <-
       complete_address address coordinates language clean_special_chars
                        aggressive ;;
     update_local (as_dict completion_result)
   else ret tt) ;;;
  addr_data <- get_local ;;
  (if truthy (dict_get_default (K "completed_address") VNone addr_data) then
     completed <- lift (getitem (VDict addr_data) (K "completed_address")) ;;
     normalized <- lift (normalize_value completed language) ;;
     set_item (K "normalized_address") normalized
   else ret tt) ;;;
  addr_data <- get_local ;;
  has_postcode <-
    lift (contains_key (K "postcode")
            (dict_get_default (K "components") (VDict []) addr_data)) ;;
  (if (has_postcode : bool) then
     components <- lift (getitem (VDict addr_data) (K "components")) ;;
     postcode <- lift (getitem components (K "postcode")) ;;
     components <- lift (getitem (VDict addr_data) (K "components")) ;;
     country_code <- lift (get_method components (K "country_code") VNone) ;;
     postal_validation <- lift (validate_postal_code postcode country_code) ;;
     set_item (K "postal_validation") (VDict postal_validation)
   else ret tt) ;;;
  addr_data <- get_local ;;
  final_coords <-
    (match coordinates with
     | Some c => ret (Some c)
     | None =>
         if truthy (dict_get_default (K "coordinates") VNone addr_data) then
           cs <- lift (getitem (VDict addr_data) (K "coordinates")) ;;
           lat <- lift (getitem cs (K "lat")) ;;
           cs <- lift (getitem (VDict addr_data) (K "coordinates")) ;;
           lng <- lift (getitem cs (K "lng")) ;;
           ret (Some (lat, lng))
         else ret None
     end) ;;
  enriched_data <-
    enrich_location_data addr_data final_coords clean_special_chars aggressive ;;
  update_local (as_dict enriched_data) ;;;
  addr_data <- get_local ;;
  stamp <- now ;;
  set_item (K "quality_metrics")
    (VDict [ (K "completeness_score", VNum (confidence completeness));
             (K "has_coordinates",
              VBool (match final_coords with Some _ => true | None => false end));
             (K "method_used",
              dict_get_default (K "method_used") (VStr (K "none")) addr_data);
             (K "processing_timestamp", VStr stamp) ]).

(** The body of the [try] for the record of index [i] out of [n]: the
    steps, the [append], and the pause before the next record. *)
Definition process_try (i n : nat) (delay : Q) (language : str)
    (clean_special_chars aggressive : bool) : M unit :=
  process_steps language clean_special_chars aggressive ;;;
  append_out ;;;
  if (S i <? n)%nat then sleep delay else ret tt.

(** One turn of the loop [for i, addr_data in enumerate(addresses)]:
    the progress line, which stands before the [try], then the [try]
    and its handler, which writes its line before it tags the record. *)
Definition process_record (i n : nat) (addr_data : dict) (delay : Q)
    (language : str) (clean_special_chars aggressive : bool) : M unit :=
  put_local addr_data ;;;
  print_line (MsgRecord i n) ;;;
  try_except
    (process_try i n delay language clean_special_chars aggressive)
    (fun e =>
       print_line (MsgRecordError i e) ;;;
       set_item (K "processing_error") (VStr (exn_str e)) ;;;
       append_out).

Fixpoint process_loop (i n : nat) (addresses : list dict) (delay : Q)
    (language : str) (clean_special_chars aggressive : bool) : M unit :=
  match addresses with
  | [] => ret tt
  | addr_data :: rest =>
      process_record i n addr_data delay language clean_special_chars
                     aggressive ;;;
      process_loop (S i) n rest delay language clean_special_chars aggressive
  end.

Definition get_out : M (list value) := fun st => (Ok (st_out st), st).

Definition clear_out : M unit :=
  fun st => (Ok tt, mk_state (st_env st) (st_log st) (st_local st) []).

Definition process_address_batch (addresses : list dict) (delay : Q)
    (language : str) (clean_special_chars aggressive : bool)
    : M (list value) :=
  clear_out ;;;
  process_loop 0 (List.length addresses) addresses delay language
               clean_special_chars aggressive ;;;
  get_out.

(* ------------------------------------------------------------------ *)
(** ** Notions used to state the properties of the effectful part *)
(* ------------------------------------------------------------------ *)

Definition method_of (r : dict) : option value := dict_get (K "method_used") r.
Definition suggestions_of (r : dict) : option value :=
  dict_get (K "suggestions") r.

(** The forward lookup on [partial_address] is issued and raises [e]. *)
Definition forward_raises (partial_address : value) (language : str)
    (w : env) (e : exn) : Prop :=
  exists p, partial_address = VStr p /\ strip p <> []
            /\ fst (geocode w partial_address (Some language)) = Raise e.

(** A provider call made by [complete_address] from the state [st]
    raises [e]: the reverse lookup when coordinates are given, or the
    forward lookup when it is reached. *)
Definition provider_raises (partial_address : value)
    (coordinates : option (value * value)) (language : str)
    (clean_special_chars : bool) (st : state) (e : exn) : Prop :=
  match coordinates with
  | Some (lat, lng) =>
      match reverse_geocode (st_env st) lat lng (Some language)
                            clean_special_chars with
      | (Raise e', _) => e' = e
      | (Ok v, w) =>
          truthy v = false /\ forward_raises partial_address language w e
      end
  | None => forward_raises partial_address language (st_env st) e
  end.

(** The record that [complete_address] returns after catching [e]. *)
Definition error_result (partial_address : value) (e : exn) : dict :=
  dict_set (K "method_used") (VStr (K "error"))
    (dict_set (K "error") (VStr (exn_str e)) (initial_result partial_address)).

(** A candidate of the provider as the interface describes it: a
    formatted text, and components that are a mapping when present. *)
Definition candidate_ok (c : dict) (formatted : str) (components : dict) : Prop :=
  dict_get (K "formatted") c = Some (VStr formatted)
  /\ dict_get_default (K "components") (VDict []) c = VDict components.

(** The components after the optional cleaning. *)
Definition cleaned_components (components : dict) (clean_special_chars
    aggressive : bool) : dict :=
  if clean_special_chars
  then List.map
         (fun kv =>
            match snd kv with
            | VStr s => (fst kv, VStr (clean_address_text s aggressive))
            | _ => kv
            end) components
  else components.

Definition cleaned_text (s : str) (clean_special_chars aggressive : bool) : str :=
  if clean_special_chars then clean_address_text s aggressive else s.

(** The state after one reverse lookup that leaves the outside in [w]. *)
Definition after_reverse (st : state) (w : env) (lat lng : value)
    (language : option str) (no_annotations : bool) : state :=
  mk_state w (st_log st ++ [EvReverse lat lng language no_annotations])
           (st_local st) (st_out st).

(** A number equal to zero: the coordinate of the equator or of the
    prime meridian. *)
Definition is_zero (v : value) : Prop := exists q, v = VNum q /\ (q == 0)%Q.

(** The coordinate pair that [enrich_location_data] resolves from the
    state [st]: the pair given, or else the geometry of the first
    candidate of a forward lookup on the address of the record. *)
Definition resolves_to (address_data : dict)
    (coordinates : option (value * value)) (st : state) (lat lng : value)
    : Prop :=
  match coordinates with
  | Some c => c = (lat, lng)
  | None =>
      exists query v w c g,
        dict_get (K "address") address_data = Some query
        /\ truthy query = true
        /\ geocode (st_env st) query None = (Ok v, w)
        /\ truthy v = true
        /\ index0 v = Ok c
        /\ getitem c (K "geometry") = Ok g
        /\ getitem g (K "lat") = Ok lat
        /\ getitem g (K "lng") = Ok lng
  end.


(** [m] keeps the relation [I] between the local dictionary and the
    list of processed records, whether it returns or raises. *)
Definition keeps {A} (I : dict -> list value -> Prop) (m : M A) : Prop :=
  forall st,
    I (st_local st) (st_out st) ->
    I (st_local (snd (m st))) (st_out (snd (m st))).

(** [m] leaves the list of processed records as it is. *)
Definition out_stable {A} (m : M A) : Prop :=
  forall o0 : list value, keeps (fun _ o => o = o0) m.

(** Every key of [a] is a key of [d]. *)
Definition keys_kept (a d : dict) : Prop :=
  forall k, dict_has k a = true -> dict_has k d = true.









(** When [m] returns, the local dictionary satisfies [Q]. *)
Definition returns_with {A} (Q : dict -> Prop) (m : M A) : Prop :=
  forall st,
    match m st with
    | (Ok _, st') => Q (st_local st')
    | (Raise _, _) => True
    end.



(** A candidate of the forward lookup as the interface describes it:
    the formatted text, the components, a geometry with both
    coordinates, and a confidence that is a number when present. *)
Definition forward_candidate_ok (c : dict) (formatted : str)
    (components : dict) (lat lng : value) (q : Q) : Prop :=
  candidate_ok c formatted components
  /\ (exists g,
        dict_get (K "geometry") c = Some (VDict g)
        /\ dict_get (K "lat") g = Some lat
        /\ dict_get (K "lng") g = Some lng)
  /\ dict_get_default (K "confidence") (VNum 5) c = VNum q.

(** The state after one forward lookup that leaves the outside in [w]. *)
Definition after_geocode (st : state) (w : env) (query : value)
    (language : option str) : state :=
  mk_state w (st_log st ++ [EvGeocode query language])
           (st_local st) (st_out st).



(** The keys that [enrich_location_data] writes. *)
Definition enrichment_written : list str :=
  [ K "coordinates"; K "timezone"; K "administrative_levels";
    K "geographic_info"; K "quality_info"; K "coordinate_systems";
    K "enrichment_timestamp"; K "enrichment_version"; K "enrichment_error" ].



(** The fields of one block of the enrichment, read from the mapping
    [source] with their defaults. *)
Definition fields_of (source : dict) (fields : list (str * (str * value)))
    : dict :=
  List.map (fun f => (fst f, dict_get_default (fst (snd f)) (snd (snd f)) source))
           fields.

(** A candidate of the reverse lookup whose components, annotations and
    timezone are mappings when present. *)
Definition enrichment_candidate_ok (c comps ann tz : dict) : Prop :=
  dict_get_default (K "components") (VDict []) c = VDict comps
  /\ dict_get_default (K "annotations") (VDict []) c = VDict ann
  /\ dict_get_default (K "timezone") (VDict []) ann = VDict tz.




(** The coordinates of the record [a] cannot be read as numbers:
    [float] raises [e] on the latitude, or else on the longitude. *)
Definition unreadable_coords (a : dict) (e : exn) : Prop :=
  exists lat lng,
    assoc (K "lat") a = Some lat
    /\ assoc (K "lng") a = Some lng
    /\ (py_float lat = Raise e
        \/ ((exists v, py_float lat = Ok v) /\ py_float lng = Raise e)).

(** The record that the batch returns for such a record. *)
Definition rejected (a : dict) (r : value) : Prop :=
  exists e,
    unreadable_coords a e
    /\ r = VDict (dict_set (K "processing_error") (VStr (exn_str e)) a).




(** The console takes every line. *)
Definition console_accepts : Prop := forall w m, fst (print w m) = Ok tt.

(** The outside has changed through lines written on the console and
    through nothing else. *)
Inductive console_only : env -> env -> Prop :=
| console_same (w : env) : console_only w w
| console_line (w w' : env) (m : message) :
    console_only w w' -> console_only w (snd (print w' m)).

(** The state in which steps 1 to 7 start for the record [a], of index
    [i] out of [n], in a turn of the loop that starts in [st]. *)
Definition steps_start (i n : nat) (a : dict) (st : state) : state :=
  mk_state (snd (print (st_env st) (MsgRecord i n))) (st_log st) a (st_out st).







(* ------------------------------------------------------------------ *)
(** ** Coordinate files: [read_coordinates_from_txt] *)
(* ------------------------------------------------------------------ *)

(** The body of the loop over the lines of the file: the coordinate
    read from one line, or nothing when the line is skipped.  A text
    that [float] rejects is a [ValueError], which skips the line. *)
Definition read_txt_line (line : str) : option (Q * Q) :=
  let line := strip line in
  if (match line with [] => true | _ => false end)
     || starts_with (lit "#") line
  then None
  else
    let parts :=
      if contains (lit ",") line then split_on 44 line else split line in
    if (2 <=? List.length parts)%nat then
      match float_of_str (strip (nth 0 parts [])) with
      | None => None
      | Some lat =>
          match float_of_str (strip (nth 1 parts [])) with
          | None => None
          | Some lng => Some (lat, lng)
          end
      end
    else None.

(** [read_coordinates_from_txt] on the lines of a file that opens. *)
Definition read_coordinates_from_txt (lines : list str) : list (Q * Q) :=
  flat_map (fun line =>
              match read_txt_line line with
              | Some c => [c]
              | None => []
              end) lines.

(* ------------------------------------------------------------------ *)
(** ** Coordinate batch: [reverse_geocode_coordinates] *)
(* ------------------------------------------------------------------ *)

(** [geocoder.reverse_geocode(lat, lng, **params)] of the batch script. *)
Variable reverse_geocode_params :
  env -> value -> value -> dict -> outcome value * env.

Definition call_reverse_params (lat lng : value) (params : dict) : M value :=
  fun st =>
    match reverse_geocode_params (st_env st) lat lng params with
    | (r, e') => (r, mk_state e' (st_log st) (st_local st) (st_out st))
    end.

(** The dictionary [params]. *)
Definition reverse_params (clean_special_chars : bool) (language : str)
    (country_code : option str) : dict :=
  (if clean_special_chars then [(K "no_annotations", VNum 1)] else [])
    ++ (if (match language with [] => false | _ => true end)
           && negb (Str.eqb language (lit "en"))
        then [(K "language", VStr language)] else [])
    ++ (match country_code with
        | Some (c :: cc) => [(K "countrycode", VStr (c :: cc))]
        | _ => []
        end).

(** One row of the results. *)
Definition coordinate_row (lat lng : Q)
    (address country state city postcode : value) : dict :=
  [ (K "latitude", VNum lat); (K "longitude", VNum lng);
    (K "address", address); (K "country", country); (K "state", state);
    (K "city", city); (K "postcode", postcode) ].

Definition blank_row (lat lng : Q) (address : str) : dict :=
  coordinate_row lat lng (VStr address) (VStr []) (VStr []) (VStr [])
                 (VStr []).

(** [results.append(row)]. *)
Definition append_result (row : dict) : M unit :=
  fun st =>
    (Ok tt, mk_state (st_env st) (st_log st) (st_local st)
                     (st_out st ++ [VDict row])).

(** The body of the [try] for the coordinate of index [i] out of [n]. *)
Definition geocode_coordinate_try (i n : nat) (lat lng : Q) (delay : Q)
    (clean_special_chars aggressive : bool) (language : str)
    (country_code : option str) : M unit :=
  print_line (MsgCoordinate i n lat lng) ;;;
  result <-
    call_reverse_params (VNum lat) (VNum lng)
      (reverse_params clean_special_chars language country_code) ;;
  (if truthy result then
     c <- lift (index0 result) ;;
     address <- lift (getitem c (K "formatted")) ;;
     address <-
       (if clean_special_chars
        then lift (clean_value address aggressive)
        else ret address) ;;
     c <- lift (index0 result) ;;
     components <- lift (get_method c (K "components") (VDict [])) ;;
     country <- lift (get_method components (K "country") (VStr [])) ;;
     state <- lift (get_method components (K "state") (VStr [])) ;;
     city <- lift (get_method components (K "city") (VStr [])) ;;
     postcode <- lift (get_method components (K "postcode") (VStr [])) ;;
     country <-
       (if clean_special_chars
        then lift (clean_value country aggressive)
        else ret country) ;;
     state <-
       (if clean_special_chars
        then lift (clean_value state aggressive)
        else ret state) ;;
     city <-
       (if clean_special_chars
        then lift (clean_value city aggressive)
        else ret city) ;;
     append_result (coordinate_row lat lng address country state city postcode)
   else append_result (blank_row lat lng (lit "No result found"))) ;;;
  if (i <? n - 1)%nat then sleep delay else ret tt.

(** One turn of the loop [for i, (lat, lng) in enumerate(coordinates)]. *)
Definition geocode_coordinate (i n : nat) (lat lng : Q) (delay : Q)
    (clean_special_chars aggressive : bool) (language : str)
    (country_code : option str) : M unit :=
  try_except
    (geocode_coordinate_try i n lat lng delay clean_special_chars aggressive
                            language country_code)
    (fun e =>
       print_line (MsgCoordinateError lat lng e) ;;;
       append_result (blank_row lat lng (lit "Error: " ++ exn_str e))).

Fixpoint geocode_coordinates_loop (i n : nat) (coordinates : list (Q * Q))
    (delay : Q) (clean_special_chars aggressive : bool) (language : str)
    (country_code : option str) : M unit :=
  match coordinates with
  | [] => ret tt
  | (lat, lng) :: rest =>
      geocode_coordinate i n lat lng delay clean_special_chars aggressive
                         language country_code ;;;
      geocode_coordinates_loop (S i) n rest delay clean_special_chars
                               aggressive language country_code
  end.

(** The list [results] is the list of the state; the log records the
    pauses. *)
Definition reverse_geocode_coordinates (coordinates : list (Q * Q))
    (delay : Q) (clean_special_chars aggressive : bool) (language : str)
    (country_code : option str) : M (list value) :=
  clear_out ;;;
  geocode_coordinates_loop 0 (List.length coordinates) coordinates delay
                           clean_special_chars aggressive language
                           country_code ;;;
  get_out.


(** The row of a coordinate whose lookup raised [e]. *)
Definition error_row (e : exn) (c : Q * Q) : value :=
  VDict (blank_row (fst c) (snd c) (lit "Error: " ++ exn_str e)).

(** The texts of a candidate of the batch script, each a string or
    absent. *)
Definition row_candidate_ok (c : dict) (formatted : str) (components : dict)
    (country state city : str) : Prop :=
  candidate_ok c formatted components
  /\ dict_get_default (K "country") (VStr []) components = VStr country
  /\ dict_get_default (K "state") (VStr []) components = VStr state
  /\ dict_get_default (K "city") (VStr []) components = VStr city.



(** A pause, and a call of the provider. *)
Definition is_pause (e : event) : bool :=
  match e with EvSleep _ => true | _ => false end.

Definition is_call (e : event) : bool := negb (is_pause e).

(** Whether it returns or raises, [m] adds to the log at most [calls]
    calls of the provider and at most [pauses] pauses, and removes
    nothing from it. *)
Definition logs_at_most {A} (calls pauses : nat) (m : M A) : Prop :=
  forall st,
  exists evs,
    st_log (snd (m st)) = st_log st ++ evs
    /\ (List.length (filter is_call evs) <= calls)%nat
    /\ (List.length (filter is_pause evs) <= pauses)%nat.


(* ================================================================== *)
(** * Properties *)
(* ================================================================== *)

Unset Implicit Arguments.

(** ** The matcher on the two substitutions of the cleaner *)

Lemma str_eqb_eq (a b : str) : Str.eqb a b = true <-> a = b.
Proof.
  revert b. induction a as [|x a IH]; intros [|y b]; simpl;
    try (split; [discriminate|congruence]); [tauto|].
  rewrite andb_true_iff, N.eqb_eq, IH. split.
  - intros [-> ->]. reflexivity.
  - intros E. inversion E. auto.
Qed.

Lemma str_eqb_refl (a : str) : Str.eqb a a = true.
Proof. apply str_eqb_eq. reflexivity. Qed.

Lemma str_eqb_neq (a b : str) : Str.eqb a b = false <-> a <> b.
Proof.
  rewrite <- str_eqb_eq. destruct (Str.eqb a b); split; congruence.
Qed.

Lemma sub_class_filter (p : char -> bool) (s : str) :
  forall prev, sub_from (Cls p) [] prev 0 s = filter (fun c => negb (p c)) s.
Proof.
  induction s as [|c s IH]; intros prev; simpl; [reflexivity|].
  unfold match_len. simpl. destruct (p c); simpl; rewrite IH; reflexivity.
Qed.

Lemma plus_run_span (p : char -> bool) (s : str) :
  forall n,
    plus_run p s n (fun _ _ m => Some m)
    = match span p s with
      | O => None
      | S j => Some (n + S j)%nat
      end.
Proof.
  induction s as [|c s IH]; intros n; simpl; [reflexivity|].
  destruct (p c); [|reflexivity].
  rewrite IH. destruct (span p s); f_equal; lia.
Qed.

Lemma match_len_plus (p : char -> bool) (prev : option char) (s : str) :
  match_len (Plus p) prev s
  = match span p s with O => None | S j => Some (S j) end.
Proof. unfold match_len. simpl. apply plus_run_span. Qed.

Lemma sub_spaces_collapse (s : str) :
  (forall prev, sub_from (Plus isspace) (lit " ") prev (span isspace s) s
                = collapse true s)
  /\ (forall prev, sub_from (Plus isspace) (lit " ") prev 0 s
                   = collapse false s).
Proof.
  induction s as [|c s [IHa IHb]]; [split; reflexivity|].
  split; intros prev.
  - simpl span. simpl collapse. destruct (isspace c) eqn:Hc.
    + simpl. apply IHa.
    + simpl. rewrite match_len_plus. simpl. rewrite Hc. rewrite IHb.
      reflexivity.
  - simpl. rewrite match_len_plus. simpl. destruct (isspace c) eqn:Hc.
    + rewrite IHa. reflexivity.
    + rewrite IHb. reflexivity.
Qed.

Lemma re_sub_spaces (s : str) :
  re_sub (Plus isspace) (lit " ") s = collapse false s.
Proof. apply (proj2 (sub_spaces_collapse s)). Qed.

Lemma re_sub_symbols (s : str) :
  re_sub (Cls is_symbol) [] s = filter (fun c => negb (is_symbol c)) s.
Proof. apply sub_class_filter. Qed.

Lemma replace_single (c : char) (r s : str) :
  replace [c] r s = flat_map (fun x => if (c =? x)%N then r else [x]) s.
Proof.
  unfold replace. induction s as [|x s IH]; simpl; [reflexivity|].
  rewrite andb_true_r. destruct (c =? x)%N; simpl; rewrite IH; reflexivity.
Qed.

(** ** Whitespace normal form *)

Lemma isspace_space : isspace 32 = true.
Proof. reflexivity. Qed.

Lemma collapse_fixed (s : str) :
  forall b, ws_normal b s -> collapse b s = s.
Proof.
  induction s as [|c s IH]; intros b H; simpl in *; [reflexivity|].
  destruct (isspace c).
  - destruct H as (Hc & Hb & Hs). subst b c. rewrite (IH true Hs). reflexivity.
  - rewrite (IH false H). reflexivity.
Qed.

Lemma collapse_normal (s : str) :
  forall b, ws_normal b (collapse b s).
Proof.
  induction s as [|c s IH]; intros b; simpl; [exact I|].
  destruct (isspace c) eqn:Hc.
  - destruct b.
    + apply IH.
    + change (ws_normal false (32%N :: collapse true s)) with
        (if isspace 32 then 32%N = 32%N /\ false = false
                             /\ ws_normal true (collapse true s)
         else ws_normal false (collapse true s)).
      rewrite isspace_space. repeat split. apply IH.
  - simpl. rewrite Hc. apply IH.
Qed.

Lemma ws_normal_lstrip (s : str) :
  forall b b', ws_normal b s -> ws_normal b' (lstrip s).
Proof.
  induction s as [|c s IH]; intros b b' H; simpl in *; [exact I|].
  destruct (isspace c) eqn:Hc.
  - destruct H as (_ & _ & Hs). apply (IH true b' Hs).
  - simpl. rewrite Hc. exact H.
Qed.

Lemma ws_normal_rstrip (s : str) :
  forall b, ws_normal b s -> ws_normal b (rstrip s).
Proof.
  induction s as [|c s IH]; intros b H; simpl in *; [exact I|].
  destruct (isspace c) eqn:Hc.
  - destruct H as (Hc32 & Hb & Hs). specialize (IH true Hs).
    destruct (rstrip s) as [|x r]; [exact I|].
    simpl. rewrite Hc. repeat split; assumption.
  - specialize (IH false H).
    destruct (rstrip s) as [|x r]; simpl; rewrite Hc; [exact I|exact IH].
Qed.

Lemma lstrip_idem (s : str) : lstrip (lstrip s) = lstrip s.
Proof.
  induction s as [|c s IH]; simpl; [reflexivity|].
  destruct (isspace c) eqn:Hc; [exact IH|]. simpl. rewrite Hc. reflexivity.
Qed.

Lemma rstrip_idem (s : str) : rstrip (rstrip s) = rstrip s.
Proof.
  induction s as [|c s IH]; simpl; [reflexivity|].
  destruct (rstrip s) as [|x r] eqn:Hr.
  - destruct (isspace c) eqn:Hc; simpl; [reflexivity|]. rewrite Hc. reflexivity.
  - change (rstrip (c :: x :: r)) with
      (match rstrip (x :: r) with
       | [] => if isspace c then [] else [c]
       | y :: r' => c :: y :: r'
       end).
    rewrite IH. reflexivity.
Qed.

Lemma lstrip_rstrip (s : str) : lstrip s = s -> lstrip (rstrip s) = rstrip s.
Proof.
  destruct s as [|c s]; simpl; [reflexivity|].
  destruct (isspace c) eqn:Hc.
  - intros H. exfalso.
    assert (Hlen : (List.length (lstrip s) <= List.length s)%nat).
    { clear. induction s as [|x s IH]; simpl; [lia|].
      destruct (isspace x); simpl; lia. }
    rewrite H in Hlen. simpl in Hlen. lia.
  - intros _. destruct (rstrip s); simpl; rewrite Hc; reflexivity.
Qed.

Lemma strip_idem (s : str) : strip (strip s) = strip s.
Proof.
  unfold strip. rewrite (lstrip_rstrip (lstrip s) (lstrip_idem s)).
  apply rstrip_idem.
Qed.

(** ** Predicates kept by every step of the cleaner *)

Lemma Forall_lstrip (P : char -> Prop) (s : str) :
  Forall P s -> Forall P (lstrip s).
Proof.
  induction 1 as [|c s Hc Hs IH]; simpl; [constructor|].
  destruct (isspace c); [exact IH|constructor; assumption].
Qed.

Lemma Forall_rstrip (P : char -> Prop) (s : str) :
  Forall P s -> Forall P (rstrip s).
Proof.
  induction 1 as [|c s Hc Hs IH]; simpl; [constructor|].
  destruct (rstrip s).
  - destruct (isspace c); constructor; [assumption|constructor].
  - constructor; assumption.
Qed.

Lemma Forall_strip (P : char -> Prop) (s : str) :
  Forall P s -> Forall P (strip s).
Proof. intros H. apply Forall_rstrip, Forall_lstrip, H. Qed.

Lemma Forall_collapse (P : char -> Prop) (s : str) :
  P 32%N -> Forall P s -> forall b, Forall P (collapse b s).
Proof.
  intros H32. induction 1 as [|c s Hc Hs IH]; intros b; simpl; [constructor|].
  destruct (isspace c).
  - destruct b; [apply IH|constructor; [exact H32|apply IH]].
  - constructor; [exact Hc|apply IH].
Qed.

Lemma Forall_replace_single (P : char -> Prop) (c : char) (r s : str) :
  Forall P r -> Forall P s -> Forall P (replace [c] r s).
Proof.
  intros Hr Hs. rewrite replace_single. apply Forall_flat_map.
  eapply Forall_impl; [|exact Hs]. intros x Hx. simpl.
  destruct (c =? x)%N; [exact Hr|constructor; [exact Hx|constructor]].
Qed.

Lemma Forall_fold_accents (P : char -> Prop) (tbl : list (str * str)) :
  single_keys tbl ->
  Forall (fun e => Forall P (snd e)) tbl ->
  forall s, Forall P s -> Forall P (fold_accents tbl s).
Proof.
  unfold fold_accents. induction tbl as [|e tbl IH]; intros Hk Ho s Hs; simpl.
  - exact Hs.
  - destruct e as [k r]. inversion Hk as [|? ? [c Hc] Hk']; subst.
    inversion Ho as [|? ? Hr Ho']; subst. simpl in Hc, Hr. subst k.
    apply IH; try assumption.
    apply Forall_replace_single; assumption.
Qed.

(** ** The accent table *)

Lemma key_in_app (a b : list (str * str)) (c : char) :
  key_in (a ++ b) c = key_in a c || key_in b c.
Proof. unfold key_in. apply existsb_app. Qed.

Lemma replace_absent (c : char) (r s : str) :
  Forall (fun x => x <> c) s -> replace [c] r s = s.
Proof.
  rewrite replace_single. induction 1 as [|x s Hx Hs IH]; simpl; [reflexivity|].
  destruct (N.eqb_spec c x); [congruence|]. simpl. rewrite IH. reflexivity.
Qed.

Lemma fold_accents_fixed (tbl : list (str * str)) :
  single_keys tbl ->
  forall s, Forall (fun x => key_in tbl x = false) s -> fold_accents tbl s = s.
Proof.
  unfold fold_accents. induction tbl as [|e tbl IH]; intros Hk s Hs; simpl.
  - reflexivity.
  - destruct e as [k r]. inversion Hk as [|? ? [c Hc] Hk']; subst.
    simpl in Hc. subst k. simpl fst. simpl snd.
    rewrite replace_absent.
    + apply IH; [assumption|]. eapply Forall_impl; [|exact Hs].
      intros x Hx. unfold key_in in *. cbn [existsb fst] in Hx.
      apply orb_false_iff in Hx. apply Hx.
    + eapply Forall_impl; [|exact Hs]. intros x Hx Heq. subst x.
      unfold key_in in Hx. cbn [existsb fst] in Hx.
      rewrite str_eqb_refl in Hx. discriminate.
Qed.

Lemma fold_accents_removes (todo : list (str * str)) :
  forall done s,
    single_keys todo ->
    Forall (fun e => Forall (fun x => key_in (done ++ todo) x = false) (snd e))
           todo ->
    Forall (fun x => key_in done x = false) s ->
    Forall (fun x => key_in (done ++ todo) x = false) (fold_accents todo s).
Proof.
  unfold fold_accents.
  induction todo as [|e todo IH]; intros done s Hk Ho Hs; simpl.
  - rewrite app_nil_r. exact Hs.
  - destruct e as [k r]. inversion Hk as [|? ? [c Hc] Hk']; subst.
    inversion Ho as [|? ? Hr Ho']; subst. simpl in Hc, Hr. subst k.
    assert (E : forall (l : list (str * str)) x t,
               l ++ x :: t = (l ++ [x]) ++ t)
      by (intros; rewrite <- app_assoc; reflexivity).
    rewrite E in *. clear E.
    apply IH; try assumption. simpl fst. simpl snd.
    rewrite replace_single. apply Forall_flat_map.
    eapply Forall_impl; [|exact Hs]. intros x Hx. simpl.
    destruct (N.eqb_spec c x) as [Heq|Hne].
    + eapply Forall_impl; [|exact Hr]. intros y Hy. simpl in Hy.
      rewrite key_in_app in Hy. apply orb_false_iff in Hy. apply Hy.
    + constructor; [|constructor]. rewrite key_in_app, Hx.
      unfold key_in. cbn [existsb fst orb]. rewrite orb_false_r.
      apply str_eqb_neq. congruence.
Qed.

Lemma replacements_single_keys : single_keys replacements.
Proof.
  unfold single_keys, replacements.
  repeat (constructor; [eexists; reflexivity|]). constructor.
Qed.

Lemma replacements_outputs :
  Forall (fun e => Forall (fun x => key_in replacements x = false) (snd e))
         replacements
  /\ Forall (fun e => Forall (fun x => is_symbol x = false) (snd e))
            replacements.
Proof.
  split; unfold replacements;
    repeat (constructor; [repeat (constructor; [reflexivity|]); constructor|]);
    constructor.
Qed.

(** ** Idempotence of the cleaner *)

Lemma clean_is_normal (x : str) (a : bool) : clean_normal a (clean_address_text x a).
Proof.
  destruct x as [|c x].
  - simpl. repeat split; constructor.
  - unfold clean_address_text.
    set (y := re_sub (Cls is_symbol) [] (c :: x)).
    assert (Hy : Forall (fun c => is_symbol c = false) y).
    { unfold y. rewrite re_sub_symbols. apply Forall_forall. intros z Hz.
      apply filter_In in Hz. destruct Hz as [_ Hz].
      apply negb_true_iff in Hz. exact Hz. }
    clearbody y. destruct replacements_outputs as [Hkeys Hsyms].
    repeat split.
    + apply Forall_strip. rewrite re_sub_spaces.
      apply Forall_collapse; [reflexivity|].
      destruct a; [|exact Hy].
      apply Forall_fold_accents;
        [apply replacements_single_keys|exact Hsyms|exact Hy].
    + intros Ha. subst a. apply Forall_strip. rewrite re_sub_spaces.
      apply Forall_collapse; [reflexivity|].
      apply (fold_accents_removes replacements [] y);
        [apply replacements_single_keys|exact Hkeys|].
      apply Forall_forall. intros; reflexivity.
    + rewrite re_sub_spaces. unfold strip.
      apply ws_normal_rstrip. apply ws_normal_lstrip with (b := false).
      apply collapse_normal.
    + apply strip_idem.
Qed.

Lemma clean_fixes_normal (y : str) (a : bool) :
  clean_normal a y -> clean_address_text y a = y.
Proof.
  intros (Hsym & Hkey & Hws & Hstrip).
  destruct y as [|c y]; [reflexivity|].
  unfold clean_address_text.
  assert (H1 : re_sub (Cls is_symbol) [] (c :: y) = c :: y).
  { rewrite re_sub_symbols. apply forallb_filter_id.
    apply forallb_forall. intros z Hz.
    rewrite Forall_forall in Hsym. rewrite (Hsym z Hz). reflexivity. }
  rewrite H1.
  assert (H2 : (if a then fold_accents replacements (c :: y) else c :: y)
               = c :: y).
  { destruct a; [|reflexivity].
    apply fold_accents_fixed; [apply replacements_single_keys|].
    apply Hkey. reflexivity. }
  rewrite H2. rewrite re_sub_spaces. rewrite (collapse_fixed _ _ Hws).
  exact Hstrip.
Qed.

(** C7. [clean_address_text] is idempotent: cleaning a cleaned text with
    the same [aggressive] flag gives the cleaned text again, for every
    text and both values of the flag. *)
Theorem clean_address_text_idempotent (x : str) (a : bool) :
  clean_address_text (clean_address_text x a) a = clean_address_text x a.
Proof. apply clean_fixes_normal, clean_is_normal. Qed.

(** ** Digits, words and the merge of addresses *)

Lemma search_plus_none (p : char -> bool) (s : str) :
  forall prev i, existsb p s = false -> search_from (Plus p) prev i s = None.
Proof.
  induction s as [|c s IH]; intros prev i H; simpl in *.
  - reflexivity.
  - apply orb_false_iff in H. destruct H as [Hc Hs].
    rewrite match_len_plus. simpl. rewrite Hc. apply IH, Hs.
Qed.

Lemma search_plus_some (p : char -> bool) (s : str) :
  forall prev i, existsb p s = true ->
                 exists j n, search_from (Plus p) prev i s = Some (j, n).
Proof.
  induction s as [|c s IH]; intros prev i H; simpl in *.
  - discriminate.
  - rewrite match_len_plus. simpl. destruct (p c) eqn:Hc.
    + eauto.
    + simpl in H. apply IH, H.
Qed.

Lemma re_found_plus (p : char -> bool) (s : str) :
  re_found (Plus p) s = existsb p s.
Proof.
  unfold re_found, re_search. destruct (existsb p s) eqn:H.
  - destruct (search_plus_some p s None 0 H) as (j & n & E). rewrite E.
    reflexivity.
  - rewrite (search_plus_none p s None 0 H). reflexivity.
Qed.

Lemma re_group_found (r : regex) (s d : str) :
  re_group r s = Some d -> re_found r s = true.
Proof.
  unfold re_group, re_found. destruct (re_search r s) as [[i n]|];
    [reflexivity|discriminate].
Qed.

Lemma in_range_spec (lo hi c : N) :
  in_range lo hi c = true <-> (lo <= c /\ c <= hi)%N.
Proof.
  unfold in_range. rewrite andb_true_iff, !N.leb_le. reflexivity.
Qed.

(** Settles every comparison of the goal that linear arithmetic
    decides. *)
Ltac decide_cmp :=
  repeat match goal with
         | |- context [N.leb ?a ?b] =>
             first [ replace (N.leb a b) with true
                       by (symmetry; apply N.leb_le; lia)
                   | replace (N.leb a b) with false
                       by (symmetry; apply N.leb_gt; lia) ]
         | |- context [N.eqb ?a ?b] =>
             first [ replace (N.eqb a b) with false
                       by (symmetry; apply N.eqb_neq; lia)
                   | replace (N.eqb a b) with true
                       by (symmetry; apply N.eqb_eq; lia) ]
         end.

Lemma decimal_not_space (c : char) : isdecimal c = true -> isspace c = false.
Proof.
  unfold isdecimal. rewrite in_range_spec. intros [H1 H2].
  unfold isspace, in_range. decide_cmp. reflexivity.
Qed.

Lemma decimal_not_upper (c : char) : isdecimal c = true -> is_upper c = false.
Proof.
  unfold isdecimal. rewrite in_range_spec. intros [H1 H2].
  unfold is_upper, in_range. decide_cmp. reflexivity.
Qed.

Lemma lower_char_decimal (c : char) : isdecimal c = true -> lower_char c = c.
Proof.
  intros H. unfold lower_char. rewrite (decimal_not_upper c H). reflexivity.
Qed.

Lemma decimal_lower_char (c : char) :
  isdecimal (lower_char c) = true -> isdecimal c = true.
Proof.
  unfold lower_char. destruct (is_upper c) eqn:Hu; [|tauto].
  unfold isdecimal. rewrite in_range_spec. intros [H1 H2].
  exfalso. revert Hu. unfold is_upper, in_range. decide_cmp. discriminate.
Qed.

Lemma In_lstrip (c : char) (s : str) :
  In c s -> isspace c = false -> In c (lstrip s).
Proof.
  induction s as [|x s IH]; intros Hin Hc; simpl in *; [contradiction|].
  destruct (isspace x) eqn:Hx.
  - destruct Hin as [->|Hin]; [congruence|]. apply IH; assumption.
  - exact Hin.
Qed.

Lemma In_rstrip (c : char) (s : str) :
  In c s -> isspace c = false -> In c (rstrip s).
Proof.
  induction s as [|x s IH]; intros Hin Hc; simpl in *; [contradiction|].
  destruct Hin as [->|Hin].
  - destruct (rstrip s); [rewrite Hc|]; left; reflexivity.
  - specialize (IH Hin Hc). destruct (rstrip s); [contradiction|].
    right. exact IH.
Qed.

Lemma strip_nonempty (c : char) (s : str) :
  In c s -> isspace c = false -> strip s <> [].
Proof.
  intros Hin Hc E. pose proof (In_rstrip c _ (In_lstrip c s Hin Hc) Hc) as H.
  unfold strip in E. rewrite E in H. contradiction.
Qed.

Lemma split_from_covers (c : char) (s : str) :
  forall cur, In c cur \/ In c s -> isspace c = false ->
              exists w, In w (split_from cur s) /\ In c w.
Proof.
  induction s as [|x s IH]; intros cur Hin Hc; simpl.
  - destruct Hin as [Hin|[]]. destruct cur as [|y cur]; [contradiction|].
    exists (rev (y :: cur)). split; [left; reflexivity|].
    apply -> in_rev. exact Hin.
  - destruct (isspace x) eqn:Hx.
    + assert (Hs : In c cur \/ In c s).
      { destruct Hin as [Hin|[->|Hin]]; [left; exact Hin|congruence|right; exact Hin]. }
      destruct cur as [|y cur].
      * apply IH; [|exact Hc]. destruct Hs as [[]|Hs]. right. exact Hs.
      * destruct Hs as [Hs|Hs].
        -- exists (rev (y :: cur)). split; [left; reflexivity|].
           apply -> in_rev. exact Hs.
        -- destruct (IH [] (or_intror Hs) Hc) as (w & Hw & Hcw).
           exists w. split; [right; exact Hw|exact Hcw].
    + apply IH; [|exact Hc]. simpl.
      destruct Hin as [Hin|[->|Hin]]; auto.
Qed.

Lemma split_from_chars (c : char) (w : str) (s : str) :
  forall cur, In w (split_from cur s) -> In c w -> In c cur \/ In c s.
Proof.
  induction s as [|x s IH]; intros cur Hw Hc; simpl in *.
  - destruct cur as [|y cur]; [contradiction|].
    destruct Hw as [<-|[]]. left. apply in_rev. exact Hc.
  - destruct (isspace x).
    + destruct cur as [|y cur].
      * destruct (IH [] Hw Hc) as [[]|H]. right. right. exact H.
      * destruct Hw as [<-|Hw].
        -- left. apply in_rev. exact Hc.
        -- destruct (IH [] Hw Hc) as [[]|H]. right. right. exact H.
    + destruct (IH (x :: cur) Hw Hc) as [[->|H]|H]; auto.
Qed.

Lemma mem_In (w : str) (l : list str) : mem w l = true <-> In w l.
Proof.
  unfold mem. rewrite existsb_exists. split.
  - intros (x & Hx & E). apply str_eqb_eq in E. subst. exact Hx.
  - intros H. exists w. split; [exact H|apply str_eqb_refl].
Qed.

(** A digit of the partial address that the full address lacks makes a
    word of the partial address that the full address lacks. *)
Lemma digit_makes_unique_word (partial_address full_address : str) :
  existsb isdecimal partial_address = true ->
  existsb isdecimal full_address = false ->
  words_minus (split (lower partial_address)) (split (lower full_address))
  <> [].
Proof.
  intros Hp Hf. apply existsb_exists in Hp. destruct Hp as (c & Hin & Hc).
  assert (Hl : In c (lower partial_address)).
  { unfold lower. rewrite <- (lower_char_decimal c Hc). apply in_map, Hin. }
  destruct (split_from_covers c (lower partial_address) [] (or_intror Hl)
              (decimal_not_space c Hc)) as (w & Hw & Hcw).
  assert (Hnot : mem w (split (lower full_address)) = false).
  { destruct (mem w (split (lower full_address))) eqn:E; [|reflexivity].
    apply mem_In in E.
    destruct (split_from_chars c w (lower full_address) [] E Hcw) as [[]|H].
    unfold lower in H. apply in_map_iff in H. destruct H as (x & Hx & Hxin).
    assert (Hd : isdecimal x = true).
    { apply decimal_lower_char. rewrite Hx. exact Hc. }
    assert (existsb isdecimal full_address = true)
      by (apply existsb_exists; eauto).
    congruence. }
  intros E. unfold words_minus in E.
  assert (Hfilt : In w (filter (fun w => negb (mem w (split (lower full_address))))
                               (split (lower partial_address)))).
  { apply filter_In. split; [exact Hw|]. rewrite Hnot. reflexivity. }
  rewrite E in Hfilt. contradiction.
Qed.

(** What [_merge_address_data] computes: the first run of digits of the
    partial address is put in front of the full address exactly when
    the full address holds no digit at all. *)
Lemma merge_address_data_digits (partial_address full_address : str) :
  _merge_address_data partial_address full_address
  = match re_group digits_re partial_address with
    | Some street_number =>
        if re_found digits_re full_address then full_address
        else street_number ++ lit " " ++ full_address
    | None => full_address
    end.
Proof.
  unfold _merge_address_data.
  destruct (re_group digits_re partial_address) as [d|] eqn:Hg.
  - destruct (re_found digits_re full_address) eqn:Hf.
    + simpl. destruct (strip partial_address); [reflexivity|].
      destruct (words_minus _ _); reflexivity.
    + pose proof (re_group_found _ _ _ Hg) as Hp.
      unfold digits_re in Hp, Hf. rewrite re_found_plus in Hp, Hf.
      pose proof (digit_makes_unique_word _ _ Hp Hf) as Hw.
      apply existsb_exists in Hp. destruct Hp as (c & Hin & Hc).
      pose proof (strip_nonempty c _ Hin (decimal_not_space c Hc)) as Hs.
      destruct (strip partial_address); [congruence|].
      destruct (words_minus _ _); [congruence|]. reflexivity.
  - destruct (strip partial_address); [reflexivity|].
    destruct (words_minus _ _); reflexivity.
Qed.

(** ** Normalizer, analyzer and postal validator on the examples *)

(** C5. On [c/ gran via 25] with target language [es] the normalizer
    does not give [Calle Gran Via 25]: the pattern built for [c/] ends
    in a word boundary, which cannot hold between the slash and the
    space, so the abbreviation stays and only the capitals change. *)
Theorem normalize_c_slash_gran_via :
  normalize_address_format (lit "c/ gran via 25") (lit "es")
  = lit "C/ Gran Via 25"
  /\ normalize_address_format (lit "c/ gran via 25") (lit "es")
     <> lit "Calle Gran Via 25"
  /\ match_len (abbrev_pattern (lit "c/")) None (lit "c/ gran via 25") = None.
Proof.
  split; [vm_compute; reflexivity|].
  split; [vm_compute; discriminate|vm_compute; reflexivity].
Qed.

(** C6, as stated, fails on the empty address: its report lists the
    single name [address], which is none of the four components, and its
    confidence is 0 and not 3/4. *)
Lemma detect_empty_address_inconsistent :
  ~ report_consistent (detect_incomplete_address []).
Proof.
  intros (_ & H & _). vm_compute in H. discriminate.
Qed.

(** C6, amended. For every address that is not empty the report is
    complete exactly when nothing is missing, the missing components are
    taken from street_number, street_name, city, postal_code in that
    order, and the confidence is (4 - number missing) / 4.  For the
    empty address the report is not complete, its missing components
    are the single name [address], and its confidence is 0. *)
Theorem detect_incomplete_address_consistent (address : str) :
  (address <> [] -> report_consistent (detect_incomplete_address address))
  /\ (address = [] ->
      is_complete (detect_incomplete_address address) = false
      /\ missing_components (detect_incomplete_address address)
         = [lit "address"]
      /\ (confidence (detect_incomplete_address address) == 0)%Q).
Proof.
  split; [|intros ->; repeat split; reflexivity].
  intros Hne. destruct address as [|c s]; [congruence|].
  unfold detect_incomplete_address, report_consistent.
  destruct (re_found digits_re (c :: s)),
           (re_found street_name_re (lower (c :: s))),
           (1 <? List.length (split_on 44 (c :: s)))%nat,
           (re_found postal_shape_re (c :: s));
    cbn [is_complete missing_components confidence app List.length Nat.eqb];
    (split; [split; [intros H; first [reflexivity|discriminate]
                    |intros H; first [reflexivity|discriminate]]|]);
    (split; [vm_compute; reflexivity|vm_compute; reflexivity]).
Qed.

Lemma detect_incomplete_address_consistent_witness :
  report_consistent (detect_incomplete_address (lit "Barcelona")).
Proof.
  apply (proj1 (detect_incomplete_address_consistent (lit "Barcelona"))).
  vm_compute. discriminate.
Defined.

(** C9. [28013] is valid for ES and [123] is not, [K1A 0A9] is valid for
    CA; each result names the country given and the pattern of that
    country as the one used, with the code trimmed and in capitals. *)
Theorem validate_postal_code_examples :
  validate_postal_code (VStr (lit "28013")) (VStr (lit "ES"))
  = Ok [ (K "is_valid", VBool true);
         (K "country_code", VStr (lit "ES"));
         (K "pattern_used", VStr (lit "^\d{5}$"));
         (K "cleaned_postal_code", VStr (lit "28013")) ]
  /\ validate_postal_code (VStr (lit "123")) (VStr (lit "ES"))
     = Ok [ (K "is_valid", VBool false);
            (K "country_code", VStr (lit "ES"));
            (K "pattern_used", VStr (lit "^\d{5}$"));
            (K "cleaned_postal_code", VStr (lit "123")) ]
  /\ validate_postal_code (VStr (lit "K1A 0A9")) (VStr (lit "CA"))
     = Ok [ (K "is_valid", VBool true);
            (K "country_code", VStr (lit "CA"));
            (K "pattern_used", VStr (lit "^[A-Z]\d[A-Z]\s?\d[A-Z]\d$"));
            (K "cleaned_postal_code", VStr (lit "K1A 0A9")) ].
Proof. repeat split; vm_compute; reflexivity. Qed.

(** With a known country the verdict is the match of that country's
    pattern alone, whatever the other patterns say. *)
Lemma validate_postal_code_known_country (pc cc text : str) (r : regex) :
  pc <> [] -> cc <> [] ->
  assoc (upper cc) postal_patterns = Some (text, r) ->
  validate_postal_code (VStr pc) (VStr cc)
  = Ok [ (K "is_valid", VBool (re_match r (upper (strip pc))));
         (K "country_code", VStr (upper cc));
         (K "pattern_used", VStr text);
         (K "cleaned_postal_code", VStr (upper (strip pc))) ].
Proof.
  intros Hpc Hcc H. unfold validate_postal_code.
  destruct pc as [|x pc]; [congruence|]. destruct cc as [|y cc]; [congruence|].
  cbn [truthy negb]. rewrite H. reflexivity.
Qed.

(** ** Symbolic execution of the effectful functions *)

Arguments suggest_address_corrections : simpl never.
Arguments clean_address_text : simpl never.
Arguments normalize_address_format : simpl never.
Arguments _merge_address_data : simpl never.
Arguments detect_incomplete_address : simpl never.
Arguments validate_postal_code : simpl never.
Arguments strip : simpl never.
Arguments merge_value : simpl never.
Arguments clean_value : simpl never.
Arguments suggest_value : simpl never.
Arguments normalize_value : simpl never.
Arguments detect_value : simpl never.
Arguments complete_address : simpl never.
Arguments enrich_location_data : simpl never.

(** The scrutinee on which the evaluation of [t] is stuck. *)
Ltac head_scrut t :=
  lazymatch t with
  | match ?x with _ => _ end => head_scrut x
  | (match ?x with _ => _ end) _ => head_scrut x
  | _ => t
  end.

(** One case analysis on the scrutinee that blocks the goal. *)
Ltac mstep :=
  match goal with
  | |- context [match ?x with _ => _ end] =>
      let h := head_scrut x in destruct h eqn:?
  end.

Ltac unfold_monad :=
  unfold call_frame, try_except, bind, lift, ret, put_local, get_local,
    set_item, update_local, call_reverse, call_geocode, now in *.

Lemma suggest_value_str (p : str) :
  suggest_value (VStr p) = Ok (str_list (suggest_address_corrections p 3)).
Proof. destruct p; reflexivity. Qed.

Lemma clean_value_str (s : str) (aggressive : bool) :
  clean_value (VStr s) aggressive = Ok (VStr (clean_address_text s aggressive)).
Proof. destruct s; reflexivity. Qed.

Lemma merge_value_str (p f : str) :
  merge_value (VStr p) (VStr f) = Ok (VStr (_merge_address_data p f)).
Proof.
  unfold merge_value, _merge_address_data. destruct (Str.strip p); reflexivity.
Qed.

(** ** GeocodeCompleter *)

(** [complete_address] returns a record from every state, whatever its
    arguments and whatever the provider does, and gives the caller its
    local dictionary back. *)
Lemma complete_address_returns (partial_address : value)
    (coordinates : option (value * value)) (language : str)
    (clean_special_chars aggressive : bool) (st : state) :
  exists r st',
    complete_address partial_address coordinates language clean_special_chars
                     aggressive st = (Ok (VDict r), st')
    /\ st_local st' = st_local st.
Proof.
  unfold complete_address. unfold_monad.
  destruct (complete_try _ _ _ _ _ _) as [[[]|e] st1]; simpl;
    eexists; eexists; repeat split.
Qed.

Lemma complete_address_reverse_raises (partial_address lat lng : value)
    (language : str) (clean_special_chars aggressive : bool) (st : state)
    (e : exn) (w : env) :
  reverse_geocode (st_env st) lat lng (Some language) clean_special_chars
  = (Raise e, w) ->
  complete_address partial_address (Some (lat, lng)) language
                   clean_special_chars aggressive st
  = (Ok (VDict (error_result partial_address e)),
     after_reverse st w lat lng (Some language) clean_special_chars).
Proof.
  intros H. unfold complete_address, complete_try. unfold_monad. simpl.
  rewrite H. reflexivity.
Qed.

Lemma complete_forward_raises (p : str) (language : str)
    (clean_special_chars aggressive : bool) (st : state) (e : exn) :
  strip p <> [] ->
  fst (geocode (st_env st) (VStr p) (Some language)) = Raise e ->
  exists st',
    complete_forward (VStr p) language clean_special_chars aggressive st
    = (Raise e, st')
    /\ st_local st' = st_local st.
Proof.
  intros Hp H. unfold complete_forward. unfold_monad.
  destruct (strip p); [congruence|].
  destruct (geocode _ _ _) as [o w]. simpl in H. subst o. simpl. eauto.
Qed.

(** C1. [complete_address] returns a result record from every state and
    for every behaviour of the provider; when a provider call raises,
    the record carries the message of the exception in [error] and has
    [method_used = error]. *)
Theorem complete_address_never_raises (p : str)
    (coordinates : option (value * value)) (language : str)
    (clean_special_chars aggressive : bool) (st : state) :
  exists r st',
    complete_address (VStr p) coordinates language clean_special_chars
                     aggressive st = (Ok (VDict r), st')
    /\ forall e,
         provider_raises (VStr p) coordinates language clean_special_chars st e ->
         dict_get (K "error") r = Some (VStr (exn_str e))
         /\ method_of r = Some (VStr (K "error")).
Proof.
  destruct coordinates as [[lat lng]|]; unfold provider_raises.
  - destruct (reverse_geocode (st_env st) lat lng (Some language)
                              clean_special_chars) as [[v|e0] w] eqn:Hrev.
    + destruct (truthy v) eqn:Hv.
      * destruct (complete_address_returns (VStr p) (Some (lat, lng)) language
                    clean_special_chars aggressive st) as (r & st' & E & _).
        exists r, st'. split; [exact E|]. intros e [H _]. discriminate.
      * unfold complete_address, complete_try. unfold_monad. simpl.
        rewrite Hrev, Hv.
        match goal with
        | |- context [complete_forward ?a ?b ?c ?d ?s] =>
            destruct (complete_forward a b c d s) as [[[]|e1] st1] eqn:Hf
        end; simpl; eexists; eexists; (split; [reflexivity|]);
          intros e (_ & q & Hq & Hne & Hraise); inversion Hq; subst q;
          match type of Hf with
          | complete_forward _ _ _ _ ?s = _ =>
              destruct (complete_forward_raises p language clean_special_chars
                          aggressive s e Hne Hraise) as (st2 & E2 & Hloc)
          end; rewrite E2 in Hf; inversion Hf; subst.
        rewrite Hloc. split; reflexivity.
    + rewrite (complete_address_reverse_raises _ _ _ _ _ _ _ _ _ Hrev).
      eexists; eexists; split; [reflexivity|]. intros e ->.
      split; reflexivity.
  - unfold complete_address, complete_try. unfold_monad. simpl.
    match goal with
    | |- context [complete_forward ?a ?b ?c ?d ?s] =>
        destruct (complete_forward a b c d s) as [[[]|e1] st1] eqn:Hf
    end; simpl; eexists; eexists; (split; [reflexivity|]);
      intros e (q & Hq & Hne & Hraise); inversion Hq; subst q;
      match type of Hf with
      | complete_forward _ _ _ _ ?s = _ =>
          destruct (complete_forward_raises p language clean_special_chars
                      aggressive s e Hne Hraise) as (st2 & E2 & Hloc)
      end; rewrite E2 in Hf; inversion Hf; subst.
    rewrite Hloc. split; reflexivity.
Qed.

(** The record and the state that the coordinate-anchored strategy
    leaves when the reverse lookup gives a candidate. *)
Lemma complete_address_reverse_success (p : str) (lat lng : value)
    (language : str) (clean_special_chars aggressive : bool) (st : state)
    (c : dict) (rest : list value) (w : env) (formatted : str)
    (components : dict) :
  reverse_geocode (st_env st) lat lng (Some language) clean_special_chars
  = (Ok (VList (VDict c :: rest)), w) ->
  candidate_ok c formatted components ->
  complete_address (VStr p) (Some (lat, lng)) language clean_special_chars
                   aggressive st
  = (Ok (VDict
           [ (K "original_address", VStr p);
             (K "completed_address",
              VStr (_merge_address_data p
                      (cleaned_text formatted clean_special_chars aggressive)));
             (K "method_used", VStr (K "reverse_geocoding"));
             (K "confidence", VNum (9 # 10));
             (K "components",
              VDict (cleaned_components components clean_special_chars
                                        aggressive));
             (K "suggestions", VList []) ]),
     after_reverse st w lat lng (Some language) clean_special_chars).
Proof.
  intros Hrev [Hf Hc]. unfold complete_address, complete_try. unfold_monad.
  simpl. rewrite Hrev. simpl. unfold dict_get in Hf. rewrite Hf, Hc.
  unfold cleaned_text, cleaned_components.
  destruct clean_special_chars; simpl.
  - rewrite clean_value_str. simpl. rewrite merge_value_str. reflexivity.
  - rewrite merge_value_str. reflexivity.
Qed.

(** C8. With coordinates given and a reverse lookup that returns a
    non-empty list of candidates, the result has
    [method_used = reverse_geocoding] and [confidence = 0.9] whatever
    the candidate says about confidence, and the only provider call is
    the reverse lookup: the forward lookup is not attempted. *)
Theorem complete_address_reverse_geocoding (p : str) (lat lng : value)
    (language : str) (clean_special_chars aggressive : bool) (st : state)
    (c : dict) (rest : list value) (w : env) (formatted : str)
    (components : dict) :
  reverse_geocode (st_env st) lat lng (Some language) clean_special_chars
  = (Ok (VList (VDict c :: rest)), w) ->
  candidate_ok c formatted components ->
  exists r st',
    complete_address (VStr p) (Some (lat, lng)) language clean_special_chars
                     aggressive st = (Ok (VDict r), st')
    /\ method_of r = Some (VStr (K "reverse_geocoding"))
    /\ dict_get (K "confidence") r = Some (VNum (9 # 10))
    /\ st_log st'
       = st_log st ++ [EvReverse lat lng (Some language) clean_special_chars]
    /\ st_env st' = w.
Proof.
  intros Hrev Hc.
  rewrite (complete_address_reverse_success p lat lng language
             clean_special_chars aggressive st c rest w formatted components
             Hrev Hc).
  eexists; eexists. split; [reflexivity|]. repeat split.
Qed.

(** C4, amended. In the coordinate-anchored strategy the completed
    address is the first run of digits of the partial address, a space
    and the formatted address when the partial address holds a digit and
    the formatted address (cleaned when cleaning is asked for) holds no
    digit at all; in every other case it is the formatted address. *)
Theorem complete_address_merges_street_number (p : str) (lat lng : value)
    (language : str) (clean_special_chars aggressive : bool) (st : state)
    (c : dict) (rest : list value) (w : env) (formatted : str)
    (components : dict) :
  reverse_geocode (st_env st) lat lng (Some language) clean_special_chars
  = (Ok (VList (VDict c :: rest)), w) ->
  candidate_ok c formatted components ->
  exists r st',
    complete_address (VStr p) (Some (lat, lng)) language clean_special_chars
                     aggressive st = (Ok (VDict r), st')
    /\ dict_get (K "completed_address") r
       = Some (VStr
           (let full_address :=
              cleaned_text formatted clean_special_chars aggressive in
            match re_group digits_re p with
            | Some street_number =>
                if re_found digits_re full_address then full_address
                else street_number ++ lit " " ++ full_address
            | None => full_address
            end)).
Proof.
  intros Hrev Hc.
  rewrite (complete_address_reverse_success p lat lng language
             clean_special_chars aggressive st c rest w formatted components
             Hrev Hc).
  eexists; eexists. split; [reflexivity|].
  cbv zeta. rewrite <- merge_address_data_digits. reflexivity.
Qed.

(** C2, amended. The result holds the suggestions for the partial
    address when the function reaches the end of its [try] block, which
    is when [method_used] is [none] or [forward_geocoding]; when a
    provider call fails ([method_used = error]) the suggestions are the
    empty list of the initial record. *)
Theorem complete_address_suggestions (p : str)
    (coordinates : option (value * value)) (language : str)
    (clean_special_chars aggressive : bool) (st : state) :
  exists r st',
    complete_address (VStr p) coordinates language clean_special_chars
                     aggressive st = (Ok (VDict r), st')
    /\ ((method_of r = Some (VStr (K "none"))
         \/ method_of r = Some (VStr (K "forward_geocoding"))) ->
        suggestions_of r = Some (str_list (suggest_address_corrections p 3)))
    /\ (method_of r = Some (VStr (K "error")) ->
        suggestions_of r = Some (VList [])).
Proof.
  unfold complete_address, complete_try, complete_forward. unfold_monad.
  simpl.
  repeat (first [progress rewrite suggest_value_str | mstep]; simpl;
          try solve [eexists; eexists; split; [reflexivity|];
                     split; [intros [H|H]|intros H];
                     first [discriminate H | reflexivity]]).
Qed.

(** In the coordinate-anchored strategy that finds a candidate the
    function returns before the suggestion step: the suggestions stay
    empty. *)
Lemma complete_address_reverse_no_suggestions (p : str) (lat lng : value)
    (language : str) (clean_special_chars aggressive : bool) (st : state)
    (c : dict) (rest : list value) (w : env) (formatted : str)
    (components : dict) :
  reverse_geocode (st_env st) lat lng (Some language) clean_special_chars
  = (Ok (VList (VDict c :: rest)), w) ->
  candidate_ok c formatted components ->
  exists r st',
    complete_address (VStr p) (Some (lat, lng)) language clean_special_chars
                     aggressive st = (Ok (VDict r), st')
    /\ suggestions_of r = Some (VList []).
Proof.
  intros Hrev Hc.
  rewrite (complete_address_reverse_success p lat lng language
             clean_special_chars aggressive st c rest w formatted components
             Hrev Hc).
  eexists; eexists. split; reflexivity.
Qed.

(** ** Dictionaries *)

Lemma assoc_dict_set (k k' : str) (v : value) (d : dict) :
  assoc k (dict_set k' v d) = if Str.eqb k k' then Some v else assoc k d.
Proof.
  induction d as [|[k0 v0] d IH]; simpl.
  - reflexivity.
  - destruct (Str.eqb k' k0) eqn:E0; simpl.
    + apply str_eqb_eq in E0. subst k0.
      destruct (Str.eqb k k'); reflexivity.
    + rewrite IH. destruct (Str.eqb k k0) eqn:E1; [|reflexivity].
      apply str_eqb_eq in E1. subst k0.
      destruct (Str.eqb k k') eqn:E2; [|reflexivity].
      apply str_eqb_eq in E2. subst k'. rewrite str_eqb_refl in E0.
      discriminate.
Qed.

Lemma dict_has_set (k k' : str) (v : value) (d : dict) :
  dict_has k (dict_set k' v d) = Str.eqb k k' || dict_has k d.
Proof.
  unfold dict_has. rewrite assoc_dict_set. destruct (Str.eqb k k'); reflexivity.
Qed.

Lemma dict_has_update (k : str) (r d : dict) :
  dict_has k (dict_update d r) = dict_has k d || dict_has k r.
Proof.
  unfold dict_update. revert d. induction r as [|[k0 v0] r IH]; intros d; simpl.
  - rewrite orb_false_r. reflexivity.
  - rewrite IH, dict_has_set. unfold dict_has at 4. simpl.
    destruct (Str.eqb k k0); simpl.
    + rewrite !orb_true_r. reflexivity.
    + reflexivity.
Qed.

(** ** LocationEnricher *)

Lemma truthy_zero (v : value) : is_zero v -> truthy v = false.
Proof.
  intros (q & -> & Hq). simpl. apply Qeq_bool_iff in Hq. rewrite Hq.
  reflexivity.
Qed.

(** C10. When the coordinate pair that [enrich_location_data] resolves,
    given or found by the forward lookup, has a latitude or a longitude
    equal to zero, no reverse lookup is issued and none of [timezone],
    [administrative_levels], [geographic_info], [quality_info] is
    attached: the record keeps what it had under these keys. *)
Theorem enrich_location_data_zero_coordinate (address_data : dict)
    (coordinates : option (value * value))
    (clean_special_chars aggressive : bool) (st : state) (lat lng : value) :
  resolves_to address_data coordinates st lat lng ->
  is_zero lat \/ is_zero lng ->
  exists r st',
    enrich_location_data address_data coordinates clean_special_chars
                         aggressive st = (Ok (VDict r), st')
    /\ filter is_reverse (st_log st') = filter is_reverse (st_log st)
    /\ forall k, In k enrichment_keys ->
                 dict_get k r = dict_get k address_data.
Proof.
  intros Hres Hzero.
  assert (Hskip : truthy lat && truthy lng = false).
  { destruct Hzero as [H|H]; rewrite (truthy_zero _ H);
      [reflexivity|apply andb_false_r]. }
  unfold enrich_location_data, enrich_try. unfold_monad.
  destruct coordinates as [c|]; simpl in Hres.
  - subst c. simpl. rewrite Hskip. simpl.
    destruct (now_iso (st_env st)) as [t w]. simpl.
    eexists; eexists. split; [reflexivity|]. split; [reflexivity|].
    intros k Hk. unfold dict_get. rewrite !assoc_dict_set.
    simpl in Hk.
    repeat (destruct Hk as [<-|Hk]; [reflexivity|]). contradiction.
  - destruct Hres as (query & v & w & c & g & Hq & Htq & Hgeo & Hv & Hc & Hg
                      & Hlat & Hlng).
    unfold dict_get in Hq. unfold dict_get_default. simpl. rewrite Hq, Htq.
    simpl. rewrite Hgeo. simpl. rewrite Hv, Hc. simpl. rewrite Hg. simpl.
    rewrite Hlat, Hlng. simpl. rewrite Hskip. simpl.
    destruct (now_iso w) as [t w']. simpl.
    eexists; eexists. split; [reflexivity|]. split.
    + cbn [st_log]. rewrite filter_app. simpl. apply app_nil_r.
    + intros k Hk. unfold dict_get. rewrite !assoc_dict_set.
      simpl in Hk.
      repeat (destruct Hk as [<-|Hk]; [reflexivity|]). contradiction.
Qed.

(** ** What every computation keeps *)

Section Keeps.

Variable I : dict -> list value -> Prop.

Lemma keeps_ret {A} (a : A) : keeps I (ret a).
Proof. intros st H. exact H. Qed.

Lemma keeps_lift {A} (o : outcome A) : keeps I (lift o).
Proof. intros st H. exact H. Qed.

Lemma keeps_get_local : keeps I get_local.
Proof. intros st H. exact H. Qed.

Lemma keeps_bind {A B} (m : M A) (f : A -> M B) :
  keeps I m -> (forall a, keeps I (f a)) -> keeps I (bind m f).
Proof.
  intros Hm Hf st H. unfold bind. specialize (Hm st H).
  destruct (m st) as [[a|e] st1]; simpl in *; [apply Hf, Hm|exact Hm].
Qed.

Lemma keeps_try {A} (m : M A) (h : exn -> M A) :
  keeps I m -> (forall e, keeps I (h e)) -> keeps I (try_except m h).
Proof.
  intros Hm Hh st H. unfold try_except. specialize (Hm st H).
  destruct (m st) as [[a|e] st1]; simpl in *; [exact Hm|apply Hh, Hm].
Qed.

Lemma keeps_call_reverse (lat lng : value) (language : option str)
    (no_annotations : bool) :
  keeps I (call_reverse lat lng language no_annotations).
Proof.
  intros st H. unfold call_reverse.
  destruct (reverse_geocode _ _ _ _ _); exact H.
Qed.

Lemma keeps_call_geocode (query : value) (language : option str) :
  keeps I (call_geocode query language).
Proof.
  intros st H. unfold call_geocode. destruct (geocode _ _ _); exact H.
Qed.

Lemma keeps_now : keeps I now.
Proof. intros st H. unfold now. destruct (now_iso _); exact H. Qed.

Lemma keeps_set_item (k : str) (v : value) :
  (forall d o, I d o -> I (dict_set k v d) o) -> keeps I (set_item k v).
Proof. intros Hk st H. apply Hk, H. Qed.

Lemma keeps_update_local (r : dict) :
  (forall d o, I d o -> I (dict_update d r) o) -> keeps I (update_local r).
Proof. intros Hk st H. apply Hk, H. Qed.

Lemma keeps_call_frame {A} (body : M A) :
  out_stable body -> keeps I (call_frame body).
Proof.
  intros Hb st H. unfold call_frame.
  pose proof (Hb (st_out st) st eq_refl) as Ho.
  destruct (body st) as [o st1]. simpl in *. rewrite Ho. exact H.
Qed.

End Keeps.

Lemma keeps_put_local_out (o0 : list value) (d : dict) :
  keeps (fun _ o => o = o0) (put_local d).
Proof. intros st H. exact H. Qed.

(** Syntax-directed proof that a computation keeps a relation; the
    side conditions on the writes are left to [tac]. *)
Ltac keeps_with tac :=
  repeat first
    [ apply keeps_ret
    | apply keeps_lift
    | apply keeps_get_local
    | apply keeps_call_reverse
    | apply keeps_call_geocode
    | apply keeps_now
    | apply keeps_put_local_out
    | apply keeps_bind; [|intros ?]
    | apply keeps_try; [|intros ?]
    | apply keeps_set_item; tac
    | apply keeps_update_local; tac
    | match goal with
      | |- keeps _ (match ?x with _ => _ end) => destruct x
      end ].

Lemma complete_address_out_stable (partial_address : value)
    (coordinates : option (value * value)) (language : str)
    (clean_special_chars aggressive : bool) :
  out_stable (put_local (initial_result partial_address) ;;;
              try_except
                (complete_try partial_address coordinates language
                              clean_special_chars aggressive)
                (fun e =>
                   set_item (K "error") (VStr (exn_str e)) ;;;
                   set_item (K "method_used") (VStr (K "error"))) ;;;
              result <- get_local ;;
              ret (VDict result)).
Proof.
  intros o0. unfold complete_try, complete_forward.
  keeps_with ltac:(intros; assumption).
Qed.

Lemma enrich_location_data_out_stable (address_data : dict)
    (coordinates : option (value * value))
    (clean_special_chars aggressive : bool) :
  out_stable (put_local address_data ;;;
              try_except
                (enrich_try address_data coordinates clean_special_chars
                            aggressive)
                (fun e => set_item (K "enrichment_error") (VStr (exn_str e))) ;;;
              enriched <- get_local ;;
              ret (VDict enriched)).
Proof.
  intros o0. unfold enrich_try, enrich_from_candidate.
  keeps_with ltac:(intros; assumption).
Qed.

(** Steps 1 to 7 only add keys to the record and do not touch the list
    of processed records. *)
Lemma process_steps_keeps (a : dict) (o0 : list value) (language : str)
    (clean_special_chars aggressive : bool) :
  keeps (fun d o => o = o0 /\ keys_kept a d)
        (process_steps language clean_special_chars aggressive).
Proof.
  assert (Hset : forall k v d o,
             o = o0 /\ keys_kept a d -> o = o0 /\ keys_kept a (dict_set k v d)).
  { intros k v d o [Ho Hk]. split; [exact Ho|]. intros k' H.
    rewrite dict_has_set, (Hk k' H). apply orb_true_r. }
  assert (Hupd : forall r d o,
             o = o0 /\ keys_kept a d -> o = o0 /\ keys_kept a (dict_update d r)).
  { intros r d o [Ho Hk]. split; [exact Ho|]. intros k' H.
    rewrite dict_has_update, (Hk k' H). reflexivity. }
  unfold process_steps, complete_address, enrich_location_data.
  keeps_with ltac:(first [apply Hset | apply Hupd]);
    apply keeps_call_frame;
    first [apply complete_address_out_stable
          |apply enrich_location_data_out_stable].
Qed.

(** ** Well-formed dictionaries *)








(** ** A record whose provider calls raise *)


Section RaisingRecord.

Variables (p : str) (cs : option (value * value)) (e : exn).
Hypothesis Hp : strip p <> [].
Hypothesis Hgeo : forall w language, fst (geocode w (VStr p) language) = Raise e.
Hypothesis Hrev :
  forall w lat lng language no_annotations,
    cs = Some (lat, lng) ->
    fst (reverse_geocode w lat lng language no_annotations) = Raise e.



End RaisingRecord.










(** ** BatchOrchestrator *)

Lemma returns_with_bind {A B} (Q : dict -> Prop) (m : M A) (f : A -> M B) :
  (forall a, returns_with Q (f a)) -> returns_with Q (bind m f).
Proof.
  intros Hf st. unfold bind. destruct (m st) as [[a|e] st1]; [apply Hf|exact I].
Qed.


(* ================================================================== *)
(** * Further properties of the pure components *)
(* ================================================================== *)

(** ** TextCleaner *)

(** X1. Whatever the text and the flag, the cleaned text holds no
    character of the symbol class, holds no key of the accent table
    when the cleaning is aggressive, has the single space as its only
    whitespace, never twice in a row, and has no whitespace at either
    end. *)
Theorem clean_address_text_output (x : str) (a : bool) :
  let y := clean_address_text x a in
  Forall (fun c => is_symbol c = false) y
  /\ (a = true -> Forall (fun c => key_in replacements c = false) y)
  /\ ws_normal false y
  /\ strip y = y.
Proof. exact (clean_is_normal x a). Qed.

Lemma filter_kept_lstrip (s : str) :
  filter kept_char (lstrip s) = filter kept_char s.
Proof.
  induction s as [|c s IH]; simpl; [reflexivity|].
  destruct (isspace c) eqn:Hc; [|reflexivity].
  unfold kept_char at 2. rewrite Hc, andb_false_r. exact IH.
Qed.

Lemma filter_kept_rstrip (s : str) :
  filter kept_char (rstrip s) = filter kept_char s.
Proof.
  induction s as [|c s IH]; simpl; [reflexivity|].
  destruct (rstrip s) as [|x r] eqn:Hr.
  - simpl in IH. rewrite <- IH.
    destruct (isspace c) eqn:Hc; simpl.
    + unfold kept_char. rewrite Hc, andb_false_r. reflexivity.
    + destruct (kept_char c); reflexivity.
  - cbn [filter]. rewrite <- IH. reflexivity.
Qed.

Lemma filter_kept_collapse (s : str) :
  forall b, filter kept_char (collapse b s) = filter kept_char s.
Proof.
  induction s as [|c s IH]; intros b; simpl; [reflexivity|].
  destruct (isspace c) eqn:Hc.
  - assert (Hk : kept_char c = false)
      by (unfold kept_char; rewrite Hc; apply andb_false_r).
    rewrite Hk. destruct b; [apply IH|].
    cbn [filter]. change (kept_char 32) with false. apply IH.
  - cbn [filter]. rewrite IH. reflexivity.
Qed.

Lemma filter_kept_symbols (s : str) :
  filter kept_char (filter (fun c => negb (is_symbol c)) s)
  = filter kept_char s.
Proof.
  induction s as [|c s IH]; simpl; [reflexivity|].
  unfold kept_char at 2. destruct (is_symbol c) eqn:Hc; simpl.
  - exact IH.
  - unfold kept_char at 1. rewrite Hc. simpl. rewrite IH. reflexivity.
Qed.

(** X2. The conservative cleaning removes symbols and whitespace and
    nothing else: the characters that are neither, accented letters
    included, come out as they went in, in the same order. *)
Theorem clean_address_text_conservative_keeps (x : str) :
  filter kept_char (clean_address_text x false) = filter kept_char x.
Proof.
  destruct x as [|c x]; [reflexivity|].
  unfold clean_address_text, strip.
  rewrite filter_kept_rstrip, filter_kept_lstrip, re_sub_spaces,
    filter_kept_collapse, re_sub_symbols, filter_kept_symbols.
  reflexivity.
Qed.


(** ** CompletenessAnalyzer *)

Lemma split_on_from_length (sep : char) (s : str) :
  forall cur,
    List.length (split_on_from sep cur s)
    = S (List.length (filter (fun c => (c =? sep)%N) s)).
Proof.
  induction s as [|c s IH]; intros cur; simpl; [reflexivity|].
  destruct (c =? sep)%N; simpl; rewrite IH; reflexivity.
Qed.

Lemma has_city_comma (address : str) :
  (1 <? List.length (split_on 44 address))%nat = true -> In 44%N address.
Proof.
  unfold split_on. rewrite split_on_from_length. intros H.
  destruct (filter (fun c => (c =? 44)%N) address) as [|c l] eqn:E;
    [discriminate|].
  assert (Hin : In c (filter (fun c => (c =? 44)%N) address))
    by (rewrite E; left; reflexivity).
  apply filter_In in Hin. destruct Hin as [Hin Hc].
  apply N.eqb_eq in Hc. subst c. exact Hin.
Qed.

Lemma search_from_suffix (r : regex) (s : str) :
  forall prev i j n,
    search_from r prev i s = Some (j, n) ->
    exists prev' t, match_len r prev' t = Some n /\ incl t s.
Proof.
  induction s as [|c s IH]; intros prev i j n H; simpl in H.
  - destruct (match_len r prev []) eqn:E; [|discriminate].
    inversion H; subst. exists prev, []. split; [exact E|apply incl_refl].
  - destruct (match_len r prev (c :: s)) eqn:E.
    + inversion H; subst. exists prev, (c :: s). split; [exact E|apply incl_refl].
    + destruct (IH _ _ _ _ H) as (prev' & t & Hm & Hincl).
      exists prev', t. split; [exact Hm|]. apply incl_tl. exact Hincl.
Qed.

(** Every match of the postal-code pattern starts with a digit or with
    a capital followed by a digit. *)
Lemma postal_shape_has_digit (prev : option char) (s : str) (n : nat) :
  match_len postal_shape_re prev s = Some n ->
  exists c, In c s /\ isdecimal c = true.
Proof.
  unfold match_len, postal_shape_re. cbn [run Rep].
  destruct s as [|c1 s].
  - destruct (xorb (is_word_opt prev) (is_word_opt (hd_error [])));
      discriminate.
  - destruct (isdecimal c1) eqn:E1.
    + intros _. exists c1. split; [left; reflexivity|exact E1].
    + destruct (xorb (is_word_opt prev) (is_word_opt (hd_error (c1 :: s))));
        [|discriminate].
      destruct (is_AZ c1); [|discriminate].
      destruct s as [|c2 s]; [discriminate|].
      destruct (isdecimal c2) eqn:E2; [|discriminate].
      intros _. exists c2. split; [right; left; reflexivity|exact E2].
Qed.

(** X3. A postal code counts as a street number: whenever the analyzer
    finds the postal-code shape in an address it also finds a street
    number, since the shape holds a digit.  A report never lists
    [street_number] as missing while it has found a postal code. *)
Theorem detect_postal_code_implies_street_number (address : str)
    (f : components_found_t) :
  components_found (detect_incomplete_address address) = Some f ->
  found_postal_code f = true ->
  found_street_number f = true.
Proof.
  destruct address as [|c s]; [discriminate|].
  unfold detect_incomplete_address. cbn [components_found].
  intros H. inversion H; subst f. cbn [found_postal_code found_street_number].
  unfold re_found at 1. unfold re_search.
  destruct (search_from postal_shape_re None 0 (c :: s)) as [[j n]|] eqn:E;
    [|discriminate].
  intros _.
  destruct (search_from_suffix _ _ _ _ _ _ E) as (prev' & t & Hm & Hincl).
  destruct (postal_shape_has_digit _ _ _ Hm) as (d & Hd & Hdig).
  unfold digits_re. rewrite re_found_plus. apply existsb_exists.
  exists d. split; [apply Hincl, Hd|exact Hdig].
Qed.

Lemma detect_postal_code_implies_street_number_witness :
  found_street_number
    {| found_street_number := true; found_street_name := false;
       found_city := false; found_postal_code := true |} = true.
Proof.
  apply (detect_postal_code_implies_street_number (lit "28013")).
  - vm_compute. reflexivity.
  - reflexivity.
Defined.

(** X4. An address is reported complete only if it holds a digit and a
    comma: without a comma the city is missing, without a digit the
    street number is, whatever else the address says. *)
Theorem detect_complete_needs_digit_and_comma (address : str) :
  is_complete (detect_incomplete_address address) = true ->
  (exists c, In c address /\ isdecimal c = true) /\ In 44%N address.
Proof.
  destruct address as [|c s]; [discriminate|].
  unfold detect_incomplete_address. cbn [is_complete].
  destruct (re_found digits_re (c :: s)) eqn:Hd; [|discriminate].
  destruct (re_found street_name_re (lower (c :: s))); [|discriminate].
  destruct (1 <? List.length (split_on 44 (c :: s)))%nat eqn:Hc;
    [|destruct (re_found postal_shape_re (c :: s)); discriminate].
  intros _. split.
  - unfold digits_re in Hd. rewrite re_found_plus in Hd.
    apply existsb_exists in Hd. exact Hd.
  - apply has_city_comma, Hc.
Qed.

Lemma detect_complete_needs_digit_and_comma_witness :
  (exists c, In c (lit "123 Main Street, Madrid, 28013") /\ isdecimal c = true)
  /\ In 44%N (lit "123 Main Street, Madrid, 28013").
Proof.
  apply detect_complete_needs_digit_and_comma. vm_compute. reflexivity.
Defined.


(** ** PostalValidator *)

Lemma first_pattern_match_first (tbl pre post : list (str * (str * regex)))
    (country text code : str) (r : regex) :
  tbl = pre ++ (country, (text, r)) :: post ->
  re_match r code = true ->
  Forall (fun e => re_match (snd (snd e)) code = false) pre ->
  first_pattern_match tbl code = Some (country, text).
Proof.
  intros -> Hm Hpre. induction Hpre as [|[c [t r0]] pre Hc Hpre IH]; simpl.
  - rewrite Hm. reflexivity.
  - simpl in Hc. rewrite Hc. exact IH.
Qed.

Lemma first_pattern_match_none (tbl : list (str * (str * regex))) (code : str) :
  Forall (fun e => re_match (snd (snd e)) code = false) tbl ->
  first_pattern_match tbl code = None.
Proof.
  induction 1 as [|[c [t r0]] tbl Hc Htbl IH]; simpl; [reflexivity|].
  simpl in Hc. rewrite Hc. exact IH.
Qed.

(** X5. Without a country, or with a country that the table does not
    know, the code is tried against the patterns in the order of the
    table and the first country whose pattern matches is returned as the
    guess; when no pattern matches the result is invalid with the reason
    [no_pattern_match]. *)
Theorem validate_postal_code_first_match (pc : str) (cc : value) :
  pc <> [] ->
  cc = VNone
  \/ (exists c, cc = VStr c /\ assoc (upper c) postal_patterns = None) ->
  let code := upper (strip pc) in
  (forall pre post country text r,
      postal_patterns = pre ++ (country, (text, r)) :: post ->
      re_match r code = true ->
      Forall (fun e => re_match (snd (snd e)) code = false) pre ->
      validate_postal_code (VStr pc) cc
      = Ok [ (K "is_valid", VBool true);
             (K "possible_country", VStr country);
             (K "pattern_matched", VStr text);
             (K "cleaned_postal_code", VStr code) ])
  /\ (Forall (fun e => re_match (snd (snd e)) code = false) postal_patterns ->
      validate_postal_code (VStr pc) cc
      = Ok [ (K "is_valid", VBool false);
             (K "reason", VStr (K "no_pattern_match"));
             (K "cleaned_postal_code", VStr code) ]).
Proof.
  intros Hpc Hcc code.
  assert (Hscan :
            validate_postal_code (VStr pc) cc
            = match first_pattern_match postal_patterns code with
              | Some (country, text) =>
                  Ok [ (K "is_valid", VBool true);
                       (K "possible_country", VStr country);
                       (K "pattern_matched", VStr text);
                       (K "cleaned_postal_code", VStr code) ]
              | None =>
                  Ok [ (K "is_valid", VBool false);
                       (K "reason", VStr (K "no_pattern_match"));
                       (K "cleaned_postal_code", VStr code) ]
              end).
  { unfold validate_postal_code. destruct pc as [|x pc]; [congruence|].
    cbn [truthy negb]. fold code.
    destruct Hcc as [->|(c & -> & Hnone)].
    - reflexivity.
    - destruct c as [|y c]; cbn [truthy]; [reflexivity|].
      rewrite Hnone. reflexivity. }
  split.
  - intros pre post country text r Htbl Hm Hpre.
    rewrite Hscan,
      (first_pattern_match_first _ _ _ _ _ _ _ Htbl Hm Hpre).
    reflexivity.
  - intros Hnone. rewrite Hscan, (first_pattern_match_none _ _ Hnone).
    reflexivity.
Qed.

(** ** Merge of the partial and the full address *)

Lemma search_plus_span (p : char -> bool) (s : str) :
  forall prev i j n,
    search_from (Plus p) prev i s = Some (j, n) ->
    exists k, j = (i + k)%nat /\ n = span p (skipn k s) /\ n <> 0%nat.
Proof.
  induction s as [|c s IH]; intros prev i j n H; cbn [search_from] in H;
    rewrite match_len_plus in H; simpl in H.
  - discriminate.
  - destruct (p c) eqn:Hc.
    + inversion H; subst. exists 0%nat. simpl. rewrite Hc.
      repeat split; [lia|discriminate].
    + destruct (IH _ _ _ _ H) as (k & -> & -> & Hn).
      exists (S k). simpl. repeat split; [lia|exact Hn].
Qed.

Lemma firstn_span (p : char -> bool) (s : str) :
  forallb p (firstn (span p s) s) = true.
Proof.
  induction s as [|c s IH]; simpl; [reflexivity|].
  destruct (p c) eqn:Hc; simpl; [rewrite Hc; exact IH|reflexivity].
Qed.

Lemma re_group_digits (s d : str) :
  re_group digits_re s = Some d -> d <> [] /\ forallb isdecimal d = true.
Proof.
  unfold re_group, re_search, digits_re.
  destruct (search_from (Plus isdecimal) None 0 s) as [[j n]|] eqn:E;
    [|discriminate].
  intros H. inversion H; subst d.
  destruct (search_plus_span _ _ _ _ _ _ E) as (k & -> & -> & Hn).
  simpl. split.
  - intros Hnil. apply Hn.
    destruct (skipn k s) as [|c t]; [reflexivity|].
    simpl in *. destruct (isdecimal c); [discriminate|reflexivity].
  - apply firstn_span.
Qed.

(** X6. The merge never alters the address of the provider: the result
    is the full address, possibly preceded by a run of digits taken from
    the partial address and one space, and by nothing else. *)
Theorem merge_address_data_keeps_full (partial_address full_address : str) :
  exists prefix,
    _merge_address_data partial_address full_address = prefix ++ full_address
    /\ (prefix = []
        \/ exists d, d <> [] /\ forallb isdecimal d = true
                     /\ prefix = d ++ lit " ").
Proof.
  rewrite merge_address_data_digits.
  destruct (re_group digits_re partial_address) as [d|] eqn:E.
  - destruct (re_found digits_re full_address).
    + exists []. split; [reflexivity|left; reflexivity].
    + exists (d ++ lit " "). split; [rewrite <- app_assoc; reflexivity|].
      right. exists d. destruct (re_group_digits _ _ E) as [Hne Hd].
      repeat split; assumption.
  - exists []. split; [reflexivity|left; reflexivity].
Qed.


(** ** AddressNormalizer *)

(** X7. Whatever the address and the language, the normalised address
    has the single space as its only whitespace, never twice in a row,
    and no whitespace at either end. *)
Theorem normalize_address_format_whitespace (address language : str) :
  ws_normal false (normalize_address_format address language)
  /\ strip (normalize_address_format address language)
     = normalize_address_format address language.
Proof.
  unfold normalize_address_format.
  destruct address as [|c address]; [split; [exact I|reflexivity]|].
  rewrite re_sub_spaces. split.
  - unfold strip. apply ws_normal_rstrip.
    apply ws_normal_lstrip with (b := false). apply collapse_normal.
  - apply strip_idem.
Qed.

(** * Further properties of the completion *)

Lemma Qmin_le_r (a b : Q) : (Qmin a b <= b)%Q.
Proof.
  unfold Qmin. destruct (Qle_bool a b) eqn:E.
  - apply Qle_bool_iff. exact E.
  - apply Qle_refl.
Qed.

(** X8. Without coordinates, a partial address that is not blank goes
    to the forward lookup; when the lookup gives a candidate the result
    has [method_used = forward_geocoding], the formatted address of the
    candidate (never merged with the partial address), its coordinates,
    the suggestions for the partial address, and a confidence that is a
    tenth of the confidence of the candidate and at most 0.8. *)
Theorem complete_address_forward_geocoding (p : str) (language : str)
    (clean_special_chars aggressive : bool) (st : state) (c : dict)
    (rest : list value) (w : env) (formatted : str) (components : dict)
    (lat lng : value) (q : Q) :
  strip p <> [] ->
  geocode (st_env st) (VStr p) (Some language)
  = (Ok (VList (VDict c :: rest)), w) ->
  forward_candidate_ok c formatted components lat lng q ->
  complete_address (VStr p) None language clean_special_chars aggressive st
  = (Ok (VDict
           [ (K "original_address", VStr p);
             (K "completed_address",
              VStr (cleaned_text formatted clean_special_chars aggressive));
             (K "method_used", VStr (K "forward_geocoding"));
             (K "confidence", VNum (Qmin (q / 10) (8 # 10)));
             (K "components",
              VDict (cleaned_components components clean_special_chars
                                        aggressive));
             (K "suggestions", str_list (suggest_address_corrections p 3));
             (K "coordinates", VDict [(K "lat", lat); (K "lng", lng)]) ]),
     after_geocode st w (VStr p) (Some language))
  /\ (Qmin (q / 10) (8 # 10) <= 8 # 10)%Q.
Proof.
  intros Hp Hgeo ((Hf & Hc) & (g & Hg & Hlat & Hlng) & Hq).
  split; [|apply Qmin_le_r].
  unfold complete_address, complete_try, complete_forward. unfold_monad.
  simpl. destruct (strip p) eqn:Es; [congruence|]. simpl.
  rewrite Hgeo. simpl. unfold dict_get in *. rewrite Hf, Hc, Hq. simpl.
  rewrite Hg. simpl. rewrite Hlat, Hlng.
  unfold cleaned_text, cleaned_components, after_geocode.
  destruct clean_special_chars; simpl.
  - rewrite clean_value_str. simpl. rewrite suggest_value_str. reflexivity.
  - rewrite suggest_value_str. reflexivity.
Qed.

(** X9. When the reverse lookup finds nothing, the completion goes on
    exactly as a completion without coordinates would from the state
    that the reverse lookup leaves. *)
Theorem complete_address_falls_back (partial_address lat lng v : value)
    (language : str) (clean_special_chars aggressive : bool) (st : state)
    (w : env) :
  reverse_geocode (st_env st) lat lng (Some language) clean_special_chars
  = (Ok v, w) ->
  truthy v = false ->
  complete_address partial_address (Some (lat, lng)) language
                   clean_special_chars aggressive st
  = complete_address partial_address None language clean_special_chars
                     aggressive
                     (after_reverse st w lat lng (Some language)
                                    clean_special_chars).
Proof.
  intros Hrev Hv. unfold complete_address, complete_try. unfold_monad.
  simpl. rewrite Hrev, Hv. reflexivity.
Qed.

(** X10. A blank partial address without coordinates reaches no
    provider: the state is left as it was, and the result is the
    initial record, [method_used = none] and confidence 0, with the
    suggestions for the partial address. *)
Theorem complete_address_blank (p : str) (language : str)
    (clean_special_chars aggressive : bool) (st : state) :
  strip p = [] ->
  complete_address (VStr p) None language clean_special_chars aggressive st
  = (Ok (VDict
           [ (K "original_address", VStr p);
             (K "completed_address", VStr p);
             (K "method_used", VStr (K "none"));
             (K "confidence", VNum 0);
             (K "components", VDict []);
             (K "suggestions", str_list (suggest_address_corrections p 3)) ]),
     st).
Proof.
  intros Hp. unfold complete_address, complete_try, complete_forward.
  unfold_monad. simpl. rewrite Hp. simpl. rewrite suggest_value_str.
  destruct st. reflexivity.
Qed.

(** X11. A candidate of the reverse lookup that has no formatted text
    ends the completion with the error record of the missing key: the
    partial address is kept as the completed address and the forward
    lookup is not tried. *)
Theorem complete_address_malformed_candidate (p : str) (lat lng : value)
    (language : str) (clean_special_chars aggressive : bool) (st : state)
    (c : dict) (rest : list value) (w : env) :
  reverse_geocode (st_env st) lat lng (Some language) clean_special_chars
  = (Ok (VList (VDict c :: rest)), w) ->
  dict_get (K "formatted") c = None ->
  complete_address (VStr p) (Some (lat, lng)) language clean_special_chars
                   aggressive st
  = (Ok (VDict (error_result (VStr p) (key_error (K "formatted")))),
     after_reverse st w lat lng (Some language) clean_special_chars).
Proof.
  intros Hrev Hf. unfold complete_address, complete_try. unfold_monad.
  simpl. rewrite Hrev. simpl. unfold dict_get in Hf. rewrite Hf.
  reflexivity.
Qed.


(** * Further properties of the enrichment *)

(** X12. [enrich_location_data] returns a record from every state,
    whatever the record, the coordinates and the provider.  The record
    keeps every key of the input, holds the value of the input under
    every key that the enrichment does not write, and is either marked
    with [enrichment_error] or stamped with [enrichment_timestamp] and
    [enrichment_version]. *)
Theorem enrich_location_data_returns (address_data : dict)
    (coordinates : option (value * value))
    (clean_special_chars aggressive : bool) (st : state) :
  exists d st',
    enrich_location_data address_data coordinates clean_special_chars
                         aggressive st = (Ok (VDict d), st')
    /\ st_local st' = st_local st
    /\ st_out st' = st_out st
    /\ keys_kept address_data d
    /\ (forall k, mem k enrichment_written = false ->
                  dict_get k d = dict_get k address_data)
    /\ (dict_has (K "enrichment_error") d = true
        \/ (dict_has (K "enrichment_timestamp") d = true
            /\ dict_has (K "enrichment_version") d = true)).
Proof.
  set (I := fun (l : dict) (o : list value) =>
              o = st_out st
              /\ keys_kept address_data l
              /\ forall k, mem k enrichment_written = false ->
                           assoc k l = assoc k address_data).
  assert (Hset : forall k' v, mem k' enrichment_written = true ->
                   forall d o, I d o -> I (dict_set k' v d) o).
  { intros k' v Hin d o (Ho & Hkk & Hv). split; [exact Ho|]. split.
    - intros k H. rewrite dict_has_set, (Hkk k H). apply orb_true_r.
    - intros k Hm. rewrite assoc_dict_set.
      destruct (Str.eqb k k') eqn:E; [|apply Hv, Hm].
      apply str_eqb_eq in E. subst k'. congruence. }
  assert (Hk : keeps I (enrich_try address_data coordinates
                                   clean_special_chars aggressive)).
  { unfold enrich_try, enrich_from_candidate.
    keeps_with ltac:(apply Hset; reflexivity). }
  assert (Hr : returns_with
                 (fun d => dict_has (K "enrichment_timestamp") d = true
                           /\ dict_has (K "enrichment_version") d = true)
                 (enrich_try address_data coordinates clean_special_chars
                             aggressive)).
  { unfold enrich_try. do 3 (apply returns_with_bind; intros ?).
    intros s. unfold bind, set_item. cbn [st_local].
    rewrite !dict_has_set, str_eqb_refl. split; reflexivity. }
  unfold enrich_location_data, call_frame, bind, put_local, try_except,
    get_local, ret.
  set (st0 := mk_state (st_env st) (st_log st) address_data (st_out st)).
  assert (H0 : I (st_local st0) (st_out st0)).
  { split; [reflexivity|]. split; [intros k H; exact H|reflexivity]. }
  specialize (Hk st0 H0). specialize (Hr st0).
  destruct (enrich_try address_data coordinates clean_special_chars aggressive
                       st0) as [[[]|e] st1]; simpl in Hk, Hr.
  - destruct Hk as (Ho & Hkk & Hv). simpl.
    eexists; eexists. split; [reflexivity|]. simpl.
    repeat split; try assumption. right. exact Hr.
  - apply (Hset (K "enrichment_error") (VStr (exn_str e)) eq_refl) in Hk.
    destruct Hk as (Ho & Hkk & Hv). unfold set_item. simpl.
    eexists; eexists. split; [reflexivity|]. simpl.
    repeat split; try assumption. left.
    rewrite dict_has_set, str_eqb_refl. reflexivity.
Qed.


(** X13. When the reverse lookup of the enrichment gives a candidate
    whose components, annotations and timezone are mappings, the record
    is stamped without [enrichment_error] being written, and the four
    blocks hold every field of their fixed lists, each read from the
    candidate or set to its default; [coordinate_systems] is written
    only when the annotations have the key [DMS]. *)
Theorem enrich_location_data_success (address_data : dict) (lat lng : value)
    (clean_special_chars aggressive : bool) (st : state) (c : dict)
    (rest : list value) (w : env) (comps ann tz : dict) :
  truthy lat = true ->
  truthy lng = true ->
  reverse_geocode (st_env st) lat lng None clean_special_chars
  = (Ok (VList (VDict c :: rest)), w) ->
  enrichment_candidate_ok c comps ann tz ->
  let comps' := cleaned_components comps clean_special_chars aggressive in
  exists d st',
    enrich_location_data address_data (Some (lat, lng)) clean_special_chars
                         aggressive st = (Ok (VDict d), st')
    /\ dict_get (K "timezone") d = Some (VDict (fields_of tz timezone_fields))
    /\ dict_get (K "administrative_levels") d
       = Some (VDict (fields_of comps' administrative_fields))
    /\ dict_get (K "geographic_info") d
       = Some (VDict ((K "postcode",
                       dict_get_default (K "postcode") (VStr []) comps')
                      :: fields_of ann geographic_annotation_fields))
    /\ dict_get (K "quality_info") d = Some (VDict (fields_of ann quality_fields))
    /\ dict_get (K "coordinate_systems") d
       = match dict_get (K "DMS") ann with
         | Some dms =>
             Some (VDict [ (K "dms", dms);
                           (K "mgrs", dict_get_default (K "MGRS") (VStr []) ann);
                           (K "maidenhead",
                            dict_get_default (K "Maidenhead") (VStr []) ann) ])
         | None => dict_get (K "coordinate_systems") address_data
         end
    /\ dict_has (K "enrichment_timestamp") d = true
    /\ dict_get (K "enrichment_error") d
       = dict_get (K "enrichment_error") address_data.
Proof.
  intros Hlat Hlng Hrev (Hc & Ha & Htz) comps'.
  unfold enrich_location_data, enrich_try, enrich_from_candidate.
  unfold_monad. simpl. rewrite Hlat, Hlng. simpl. rewrite Hrev. simpl.
  rewrite Hc, Ha.
  assert (Hcl : (if clean_special_chars
                 then lift (clean_components (VDict comps) aggressive)
                 else ret (VDict comps))
                = ret (VDict comps')).
  { unfold comps', cleaned_components. destruct clean_special_chars;
      reflexivity. }
  unfold lift, ret in Hcl.
  match goal with
  | |- context [(if clean_special_chars then ?a else ?b) ?s] =>
      change ((if clean_special_chars then a else b) s)
        with ((if clean_special_chars
               then (fun st0 : state =>
                       (clean_components (VDict comps) aggressive, st0))
               else (fun st0 : state => (Ok (VDict comps), st0))) s)
  end.
  rewrite Hcl. simpl. rewrite Htz. simpl.
  unfold dict_has, dict_get.
  destruct (assoc (K "DMS") ann) as [dms|] eqn:Hdms; simpl;
    destruct (now_iso w) as [t w']; simpl;
    (eexists; eexists; split; [reflexivity|]);
    rewrite !assoc_dict_set; simpl; repeat split; reflexivity.
Qed.


(** * Further properties of the batch *)

Lemma process_steps_unreadable (a : dict) (e : exn) (language : str)
    (clean_special_chars aggressive : bool) (st : state) :
  st_local st = a ->
  unreadable_coords a e ->
  process_steps language clean_special_chars aggressive st = (Raise e, st).
Proof.
  intros Hst (lat & lng & Hla & Hlo & H). unfold process_steps.
  unfold bind at 1. unfold get_local at 1. rewrite Hst.
  unfold dict_has. rewrite Hla, Hlo. cbn [andb].
  unfold bind at 1. unfold bind at 1. unfold bind at 1.
  unfold lift at 1. unfold getitem at 1. rewrite Hla.
  unfold bind at 1. unfold lift at 1.
  destruct H as [H|[[v Hv] H]].
  - rewrite H. reflexivity.
  - rewrite Hv. unfold lift at 1. unfold getitem at 1. rewrite Hlo.
    unfold bind at 1. unfold lift at 1. rewrite H. reflexivity.
Qed.

Lemma console_only_trans (w1 w2 w3 : env) :
  console_only w1 w2 -> console_only w2 w3 -> console_only w1 w3.
Proof.
  intros H12 H23. induction H23 as [|w2 w3 m H23 IH]; [exact H12|].
  apply console_line, IH, H12.
Qed.

Lemma print_line_accepts (m : message) (st : state) :
  console_accepts ->
  print_line m st
  = (Ok tt,
     mk_state (snd (print (st_env st) m)) (st_log st) (st_local st) (st_out st)).
Proof.
  intros Hc. unfold print_line. specialize (Hc (st_env st) m).
  destruct (print (st_env st) m) as [o w]. simpl in *. subst o. reflexivity.
Qed.

Lemma process_record_unreadable (i n : nat) (a : dict) (e : exn) (delay : Q)
    (language : str) (clean_special_chars aggressive : bool) (st : state) :
  console_accepts ->
  unreadable_coords a e ->
  process_record i n a delay language clean_special_chars aggressive st
  = (Ok tt,
     let r := dict_set (K "processing_error") (VStr (exn_str e)) a in
     mk_state (snd (print (snd (print (st_env st) (MsgRecord i n)))
                          (MsgRecordError i e)))
              (st_log st) r (st_out st ++ [VDict r])).
Proof.
  intros Hc H. unfold process_record, process_try.
  unfold bind at 1. unfold put_local at 1. unfold bind at 1.
  rewrite (print_line_accepts _ _ Hc). cbn [st_env st_log st_local st_out].
  unfold try_except. unfold bind at 1.
  rewrite (process_steps_unreadable a e language clean_special_chars
             aggressive
             (mk_state (snd (print (st_env st) (MsgRecord i n))) (st_log st) a
                       (st_out st)) eq_refl H).
  unfold bind at 1. rewrite (print_line_accepts _ _ Hc). reflexivity.
Qed.

Lemma process_loop_unreadable (n : nat) (delay : Q) (language : str)
    (clean_special_chars aggressive : bool) (addresses : list dict) :
  console_accepts ->
  Forall (fun a => exists e, unreadable_coords a e) addresses ->
  forall i st,
  exists rs st',
    process_loop i n addresses delay language clean_special_chars aggressive st
    = (Ok tt, st')
    /\ st_out st' = st_out st ++ rs
    /\ Forall2 rejected addresses rs
    /\ st_log st' = st_log st
    /\ console_only (st_env st) (st_env st').
Proof.
  intros Hc. induction 1 as [|a rest [e Ha] Hrest IH]; intros i st; simpl.
  - exists [], st. unfold ret. rewrite app_nil_r. repeat split.
    + constructor.
    + constructor.
  - unfold bind.
    rewrite (process_record_unreadable i n a e delay language
               clean_special_chars aggressive st Hc Ha).
    cbv zeta.
    match goal with
    | |- context [process_loop _ _ _ _ _ _ _ ?s] =>
        destruct (IH (S i) s) as (rs & st2 & E2 & Ho2 & Hrs & Hl & Hw)
    end.
    rewrite E2. eexists (_ :: rs), st2. split; [reflexivity|].
    split; [|split; [|split]].
    + rewrite Ho2. simpl. rewrite <- app_assoc. reflexivity.
    + constructor; [|exact Hrs]. exists e. split; [exact Ha|reflexivity].
    + rewrite Hl. reflexivity.
    + simpl in Hw. eapply console_only_trans; [|exact Hw].
      apply console_line, console_line, console_same.
Qed.

(** X14. Records whose [lat] or [lng] cannot be read as a number are
    rejected before anything else happens: on a console that takes
    every line, each comes back with [processing_error] as its only new
    key, and the batch issues no provider call, reads no clock and makes
    no pause, whatever the pause asked for: the log is as it was and the
    outside has changed through the lines written and nothing else. *)
Theorem process_address_batch_unreadable_coordinates (addresses : list dict)
    (delay : Q) (language : str) (clean_special_chars aggressive : bool)
    (st : state) :
  console_accepts ->
  Forall (fun a => exists e, unreadable_coords a e) addresses ->
  exists out st',
    process_address_batch addresses delay language clean_special_chars
                          aggressive st = (Ok out, st')
    /\ Forall2 rejected addresses out
    /\ st_log st' = st_log st
    /\ console_only (st_env st) (st_env st').
Proof.
  intros Hc Hall. unfold process_address_batch, bind, clear_out, get_out.
  destruct (process_loop_unreadable (List.length addresses) delay language
              clean_special_chars aggressive addresses Hc Hall 0%nat
              (mk_state (st_env st) (st_log st) (st_local st) []))
    as (rs & st1 & E & Ho & Hrs & Hl & Hw).
  rewrite E. simpl in Ho. exists (st_out st1), st1.
  split; [reflexivity|]. rewrite Ho. repeat split; assumption.
Qed.


(** ** What the pipeline leaves untouched *)

























(** * The coordinate batch *)





Lemma geocode_coordinate_down (i n : nat) (lat lng : Q) (delay : Q)
    (clean_special_chars aggressive : bool) (language : str)
    (country_code : option str) (e : exn) (st : state) :
  console_accepts ->
  (forall w lat lng params,
      fst (reverse_geocode_params w lat lng params) = Raise e) ->
  exists w,
    geocode_coordinate i n lat lng delay clean_special_chars aggressive
                       language country_code st
    = (Ok tt,
       mk_state w (st_log st) (st_local st)
                (st_out st ++ [error_row e (lat, lng)])).
Proof.
  intros Hc Hdown.
  unfold geocode_coordinate, geocode_coordinate_try, try_except.
  unfold bind at 1. rewrite (print_line_accepts _ _ Hc).
  unfold bind at 1. unfold call_reverse_params.
  cbn [st_env st_log st_local st_out].
  pose proof (Hdown (snd (print (st_env st) (MsgCoordinate i n lat lng)))
                (VNum lat) (VNum lng)
                (reverse_params clean_special_chars language country_code))
    as H.
  destruct (reverse_geocode_params _ _ _ _) as [o w]. simpl in H. subst o.
  unfold bind. rewrite (print_line_accepts _ _ Hc). unfold append_result.
  eexists. reflexivity.
Qed.

Lemma geocode_coordinates_loop_down (n : nat) (delay : Q)
    (clean_special_chars aggressive : bool) (language : str)
    (country_code : option str) (e : exn) (coordinates : list (Q * Q)) :
  console_accepts ->
  (forall w lat lng params,
      fst (reverse_geocode_params w lat lng params) = Raise e) ->
  forall i st,
  exists st',
    geocode_coordinates_loop i n coordinates delay clean_special_chars
                             aggressive language country_code st
    = (Ok tt, st')
    /\ st_out st' = st_out st ++ List.map (error_row e) coordinates
    /\ st_log st' = st_log st.
Proof.
  intros Hc Hdown. induction coordinates as [|[lat lng] rest IH]; intros i st;
    simpl.
  - exists st. unfold ret. rewrite app_nil_r. repeat split.
  - unfold bind.
    destruct (geocode_coordinate_down i n lat lng delay clean_special_chars
                aggressive language country_code e st Hc Hdown) as (w & E1).
    rewrite E1.
    match goal with
    | |- context [geocode_coordinates_loop _ _ _ _ _ _ _ _ ?s] =>
        destruct (IH (S i) s) as (st2 & E2 & Ho2 & Hl2)
    end.
    rewrite E2. exists st2. split; [reflexivity|]. split.
    + rewrite Ho2. simpl. rewrite <- app_assoc. reflexivity.
    + rewrite Hl2. reflexivity.
Qed.

(** X17. When every lookup raises, on a console that takes every line,
    the result is one error row for each coordinate, with the message
    of the exception after [Error: ] as the address and empty texts
    elsewhere, and no pause is made between the lookups, whatever the
    pause asked for. *)
Theorem reverse_geocode_coordinates_provider_down
    (coordinates : list (Q * Q)) (delay : Q)
    (clean_special_chars aggressive : bool) (language : str)
    (country_code : option str) (e : exn) (st : state) :
  console_accepts ->
  (forall w lat lng params,
      fst (reverse_geocode_params w lat lng params) = Raise e) ->
  exists st',
    reverse_geocode_coordinates coordinates delay clean_special_chars
                                aggressive language country_code st
    = (Ok (List.map (error_row e) coordinates), st')
    /\ st_log st' = st_log st.
Proof.
  intros Hc Hdown.
  unfold reverse_geocode_coordinates, bind, clear_out, get_out.
  destruct (geocode_coordinates_loop_down (List.length coordinates) delay
              clean_special_chars aggressive language country_code e
              coordinates Hc Hdown 0%nat
              (mk_state (st_env st) (st_log st) (st_local st) []))
    as (st1 & E & Ho & Hl).
  rewrite E. simpl in Ho, Hl. exists st1. rewrite Ho. split; [reflexivity|].
  exact Hl.
Qed.

(** X18. A lookup that finds a well-formed candidate, after a progress
    line that the console takes, gives the row of its texts: with
    cleaning, the address, the country, the state and the city are
    cleaned, and the postcode is passed on as the provider gave it; a
    single coordinate is followed by no pause. *)
Theorem reverse_geocode_coordinates_found (lat lng : Q) (delay : Q)
    (clean_special_chars aggressive : bool) (language : str)
    (country_code : option str) (st : state) (c : dict) (rest : list value)
    (w0 w : env) (formatted : str) (components : dict)
    (country state city : str) :
  print (st_env st) (MsgCoordinate 0 1 lat lng) = (Ok tt, w0) ->
  reverse_geocode_params w0 (VNum lat) (VNum lng)
    (reverse_params clean_special_chars language country_code)
  = (Ok (VList (VDict c :: rest)), w) ->
  row_candidate_ok c formatted components country state city ->
  let clean := fun s => cleaned_text s clean_special_chars aggressive in
  exists st',
    reverse_geocode_coordinates [(lat, lng)] delay clean_special_chars
                                aggressive language country_code st
    = (Ok [VDict (coordinate_row lat lng (VStr (clean formatted))
                    (VStr (clean country)) (VStr (clean state))
                    (VStr (clean city))
                    (dict_get_default (K "postcode") (VStr []) components))],
       st')
    /\ st_log st' = st_log st
    /\ st_env st' = w.
Proof.
  intros Hprint Hrev ((Hf & Hc) & Hcountry & Hstate & Hcity) clean.
  unfold reverse_geocode_coordinates, geocode_coordinates_loop,
    geocode_coordinate, geocode_coordinate_try.
  unfold try_except, bind, lift, ret, append_result, call_reverse_params,
    print_line, clear_out, get_out.
  cbn [st_env st_log st_local st_out List.length Nat.sub Nat.ltb Nat.leb].
  rewrite Hprint. cbn [st_env st_log st_local st_out].
  rewrite Hrev. cbn [truthy index0 getitem get_method].
  unfold dict_get in Hf. rewrite Hf, Hc.
  unfold clean, cleaned_text. destruct clean_special_chars.
  - rewrite !clean_value_str. cbn [get_method].
    rewrite Hcountry, Hstate, Hcity, !clean_value_str.
    eexists. split; [reflexivity|]. split; reflexivity.
  - cbn [get_method]. rewrite Hcountry, Hstate, Hcity.
    eexists. split; [reflexivity|]. split; reflexivity.
Qed.

Lemma geocode_coordinate_total (i n : nat) (lat lng : Q) (delay : Q)
    (clean_special_chars aggressive : bool) (language : str)
    (country_code : option str) (st : state) :
  console_accepts ->
  exists m rs st',
    geocode_coordinate i n lat lng delay clean_special_chars aggressive
                       language country_code st
    = (Ok tt, st')
    /\ st_out st' = st_out st ++ rs
    /\ (1 <= List.length rs)%nat
    /\ (List.length rs <= if (i <? n - 1)%nat then 2 else 1)%nat
    /\ st_log st' = st_log st ++ repeat (EvSleep delay) m
    /\ (m <= if (i <? n - 1)%nat then 1 else 0)%nat.
Proof.
  intros Hc.
  unfold geocode_coordinate, geocode_coordinate_try, try_except.
  unfold bind at 1. rewrite (print_line_accepts _ _ Hc).
  unfold bind, lift, ret, append_result, call_reverse_params, sleep, blank_row.
  cbn [st_env st_log st_local st_out].
  destruct (reverse_geocode_params _ _ _ _) as [[v|e] w];
    destruct (i <? n - 1)%nat; destruct (Qle_bool 0 delay);
    destruct (Qle_bool (delay * 1000000000) (inject_Z (2 ^ 63 - 1)));
    destruct clean_special_chars; cbn [st_out st_log fst snd];
    repeat (first [rewrite (print_line_accepts _ _ Hc) | mstep];
            cbn [st_out st_log fst snd]);
    first
      [ solve [ exists 0%nat; eexists; eexists; (split; [reflexivity|]);
                cbn [st_out st_log repeat];
                split; [first [reflexivity|rewrite <- app_assoc; reflexivity]|];
                split; [simpl; lia|]; split; [simpl; lia|];
                split; [rewrite app_nil_r; reflexivity|simpl; lia] ]
      | solve [ exists 1%nat; eexists; eexists; (split; [reflexivity|]);
                cbn [st_out st_log repeat];
                split; [first [reflexivity|rewrite <- app_assoc; reflexivity]|];
                split; [simpl; lia|]; split; [simpl; lia|];
                split; [reflexivity|simpl; lia] ] ].
Qed.

Lemma geocode_coordinates_loop_total (n : nat) (delay : Q)
    (clean_special_chars aggressive : bool) (language : str)
    (country_code : option str) (coordinates : list (Q * Q)) :
  console_accepts ->
  forall i st,
    (i + List.length coordinates = n)%nat ->
    exists m rs st',
      geocode_coordinates_loop i n coordinates delay clean_special_chars
                               aggressive language country_code st
      = (Ok tt, st')
      /\ st_out st' = st_out st ++ rs
      /\ (List.length coordinates <= List.length rs)%nat
      /\ (List.length rs <= 2 * List.length coordinates - 1)%nat
      /\ st_log st' = st_log st ++ repeat (EvSleep delay) m
      /\ (m <= List.length coordinates - 1)%nat.
Proof.
  intros Hc. induction coordinates as [|[lat lng] rest IH]; intros i st Hn;
    simpl.
  - exists 0%nat, [], st. unfold ret. simpl. rewrite !app_nil_r.
    repeat split; lia.
  - unfold bind.
    destruct (geocode_coordinate_total i n lat lng delay clean_special_chars
                aggressive language country_code st Hc)
      as (m1 & rs1 & st1 & E1 & Ho1 & Hlo & Hhi & Hl1 & Hm1).
    rewrite E1. simpl in Hn.
    destruct (IH (S i) st1)
      as (m2 & rs2 & st2 & E2 & Ho2 & Hlo2 & Hhi2 & Hl2 & Hm2); [lia|].
    rewrite E2. exists (m1 + m2)%nat, (rs1 ++ rs2), st2.
    split; [reflexivity|]. split; [|split; [|split; [|split]]].
    + rewrite Ho2, Ho1, <- app_assoc. reflexivity.
    + rewrite length_app. lia.
    + rewrite length_app. destruct (Nat.ltb_spec i (n - 1)); lia.
    + rewrite Hl2, Hl1, <- app_assoc, repeat_app. reflexivity.
    + destruct (Nat.ltb_spec i (n - 1)); lia.
Qed.

(** X19. On a console that takes every line,
    [reverse_geocode_coordinates] returns from every state, for every
    provider and every pause, and never loses a coordinate: the result
    has at least one row for each coordinate, and at most twice as many
    rows less one (a row is doubled only when the pause that follows it
    is rejected).  It pauses at most once between two coordinates and
    never after the last. *)
Theorem reverse_geocode_coordinates_total (coordinates : list (Q * Q))
    (delay : Q) (clean_special_chars aggressive : bool) (language : str)
    (country_code : option str) (st : state) :
  console_accepts ->
  exists m out st',
    reverse_geocode_coordinates coordinates delay clean_special_chars
                                aggressive language country_code st
    = (Ok out, st')
    /\ (List.length coordinates <= List.length out)%nat
    /\ (List.length out <= 2 * List.length coordinates - 1)%nat
    /\ st_log st' = st_log st ++ repeat (EvSleep delay) m
    /\ (m <= List.length coordinates - 1)%nat.
Proof.
  intros Hc.
  unfold reverse_geocode_coordinates, bind, clear_out, get_out.
  destruct (geocode_coordinates_loop_total (List.length coordinates) delay
              clean_special_chars aggressive language country_code coordinates
              Hc 0%nat (mk_state (st_env st) (st_log st) (st_local st) [])
              eq_refl)
    as (m & rs & st1 & E & Ho & Hlo & Hhi & Hl & Hm).
  rewrite E. simpl in Ho, Hl. exists m, (st_out st1), st1.
  split; [reflexivity|]. rewrite Ho. repeat split; assumption.
Qed.


(** * Coordinate files *)

Lemma identify_columns_from (columns all : list str) :
  forall acc : option str * option str,
    incl columns all ->
    (forall a, fst acc = Some a ->
               In a all /\ names_column possible_lat_names a = true) ->
    (forall b, snd acc = Some b ->
               In b all /\ names_column possible_lat_names b = false) ->
    let r :=
      fold_left
        (fun (acc : option str * option str) col =>
           if names_column possible_lat_names col then (Some col, snd acc)
           else if names_column possible_lng_names col then (fst acc, Some col)
           else acc)
        columns acc in
    (forall a, fst r = Some a ->
               In a all /\ names_column possible_lat_names a = true)
    /\ (forall b, snd r = Some b ->
                  In b all /\ names_column possible_lat_names b = false).
Proof.
  induction columns as [|col columns IH]; intros acc Hincl Ha Hb; simpl.
  - split; assumption.
  - assert (Hcol : In col all) by (apply Hincl; left; reflexivity).
    assert (Hrest : incl columns all)
      by (intros x Hx; apply Hincl; right; exact Hx).
    destruct (names_column possible_lat_names col) eqn:Hlat.
    + apply IH; [exact Hrest| |exact Hb].
      intros a E. simpl in E. inversion E; subst. split; assumption.
    + destruct (names_column possible_lng_names col) eqn:Hlng.
      * apply IH; [exact Hrest|exact Ha|].
        intros b E. simpl in E. inversion E; subst. split; assumption.
      * apply IH; assumption.
Qed.

(** X20. The two columns that [read_coordinates_from_csv] reads are
    columns of the header, and they are two different columns when the
    header has no name twice; the choice fails only for a header of
    fewer than two columns. *)
Theorem coordinate_columns_of_header (columns : list str) :
  (forall lat_col lng_col,
      coordinate_columns columns = Ok (lat_col, lng_col) ->
      In lat_col columns /\ In lng_col columns
      /\ (NoDup columns -> lat_col <> lng_col))
  /\ ((2 <= List.length columns)%nat ->
      exists lat_col lng_col,
        coordinate_columns columns = Ok (lat_col, lng_col)).
Proof.
  pose proof (identify_columns_from columns columns (None, None)
                (incl_refl columns)) as H.
  simpl in H. destruct H as [Ha Hb]; try (intros ? E; discriminate E).
  fold (identify_columns columns) in Ha, Hb.
  unfold coordinate_columns.
  assert (Hfb : forall lat_col lng_col,
             match columns with
             | c0 :: c1 :: _ => Ok (c0, c1)
             | _ => Raise (mk_exn ValueError
                      (lit "Could not identify latitude and longitude columns"))
             end = Ok (lat_col, lng_col) ->
             In lat_col columns /\ In lng_col columns
             /\ (NoDup columns -> lat_col <> lng_col)).
  { intros a b E. destruct columns as [|c0 [|c1 rest]]; try discriminate E.
    inversion E; subst. split; [left; reflexivity|].
    split; [right; left; reflexivity|].
    intros Hnd. inversion Hnd as [|? ? Hnot _]; subst.
    intros ->. apply Hnot. left. reflexivity. }
  split.
  - intros a b E.
    destruct (identify_columns columns) as [[a'|] [b'|]]; try (apply Hfb, E).
    inversion E; subst.
    destruct (Ha a eq_refl) as [Hina Hlat].
    destruct (Hb b eq_refl) as [Hinb Hnot].
    split; [exact Hina|]. split; [exact Hinb|]. intros _ ->. congruence.
  - intros Hlen.
    destruct (identify_columns columns) as [[a'|] [b'|]];
      try (destruct columns as [|c0 [|c1 rest]]; simpl in Hlen; try lia);
      eexists; eexists; reflexivity.
Qed.

Lemma rstrip_last (s : str) (c : char) :
  isspace c = false -> rstrip (s ++ [c]) = s ++ [c].
Proof.
  intros Hc. induction s as [|x s IH]; simpl.
  - rewrite Hc. reflexivity.
  - rewrite IH. destruct (s ++ [c]) eqn:E; [|reflexivity].
    destruct s; discriminate E.
Qed.

Lemma field_char_spec (c : char) :
  field_char c = true -> isspace c = false /\ (c =? 44)%N = false.
Proof.
  unfold field_char. rewrite andb_true_iff, !negb_true_iff. tauto.
Qed.

Lemma strip_field (a : str) : forallb field_char a = true -> strip a = a.
Proof.
  intros Hall. destruct a as [|c a]; [reflexivity|].
  assert (Hc : isspace c = false).
  { simpl in Hall. apply andb_true_iff in Hall. destruct Hall as [Hc _].
    apply field_char_spec in Hc. tauto. }
  unfold strip. simpl. rewrite Hc.
  destruct (exists_last (l := c :: a)) as (s & x & E); [discriminate|].
  rewrite E. apply rstrip_last.
  rewrite E, forallb_app in Hall. apply andb_true_iff in Hall.
  destruct Hall as [_ Hx]. simpl in Hx. rewrite andb_true_r in Hx.
  apply field_char_spec in Hx. tauto.
Qed.

Lemma contains_char (c : char) (s : str) :
  contains [c] s = existsb (N.eqb c) s.
Proof.
  induction s as [|x s IH]; simpl; [reflexivity|].
  rewrite IH. destruct (c =? x)%N; reflexivity.
Qed.

Lemma field_no_comma (a : str) :
  forallb field_char a = true -> @existsb char (N.eqb 44) a = false.
Proof.
  induction a as [|c a IH]; cbn [forallb existsb]; [reflexivity|].
  intros H. apply andb_true_iff in H. destruct H as [Hc Ha].
  apply field_char_spec in Hc. destruct Hc as [_ Hc].
  rewrite N.eqb_sym, Hc. apply IH, Ha.
Qed.

Lemma split_on_from_field (sep : char) (a : str) :
  existsb (N.eqb sep) a = false ->
  forall cur rest,
    split_on_from sep cur (a ++ rest) = split_on_from sep (rev a ++ cur) rest.
Proof.
  induction a as [|c a IH]; intros H cur rest; simpl; [reflexivity|].
  simpl in H. apply orb_false_iff in H. destruct H as [Hc Ha].
  rewrite N.eqb_sym, Hc, (IH Ha), <- app_assoc. reflexivity.
Qed.

Lemma split_from_field (a : str) :
  existsb isspace a = false ->
  forall cur rest, split_from cur (a ++ rest) = split_from (rev a ++ cur) rest.
Proof.
  induction a as [|c a IH]; intros H cur rest; simpl; [reflexivity|].
  simpl in H. apply orb_false_iff in H. destruct H as [Hc Ha].
  rewrite Hc, (IH Ha), <- app_assoc. reflexivity.
Qed.

Lemma field_no_space (a : str) :
  forallb field_char a = true -> existsb isspace a = false.
Proof.
  induction a as [|c a IH]; simpl; [reflexivity|].
  intros H. apply andb_true_iff in H. destruct H as [Hc Ha].
  apply field_char_spec in Hc. destruct Hc as [Hc _].
  rewrite Hc. apply IH, Ha.
Qed.

Lemma split_on_two_fields (a b : str) (sep : char) :
  forallb field_char a = true -> forallb field_char b = true ->
  sep = 44%N ->
  split_on 44 (a ++ sep :: b) = [a; b].
Proof.
  intros Ha Hb ->. unfold split_on.
  rewrite (split_on_from_field 44 a (field_no_comma a Ha)). simpl.
  rewrite app_nil_r, rev_involutive.
  rewrite <- (app_nil_r b) at 1.
  rewrite (split_on_from_field 44 b (field_no_comma b Hb)). simpl.
  rewrite app_nil_r, rev_involutive. reflexivity.
Qed.

Lemma split_two_fields (a b : str) (sep : char) :
  a <> [] -> b <> [] ->
  forallb field_char a = true -> forallb field_char b = true ->
  isspace sep = true ->
  split (a ++ sep :: b) = [a; b].
Proof.
  intros Hane Hbne Ha Hb Hsep. unfold split.
  rewrite (split_from_field a (field_no_space a Ha)). simpl.
  rewrite Hsep, app_nil_r.
  destruct (rev a) eqn:Era.
  { apply (f_equal (@rev char)) in Era. rewrite rev_involutive in Era.
    simpl in Era. contradiction. }
  rewrite <- Era, rev_involutive.
  rewrite <- (app_nil_r b) at 1.
  rewrite (split_from_field b (field_no_space b Hb)). simpl.
  rewrite app_nil_r.
  destruct (rev b) eqn:Erb.
  { apply (f_equal (@rev char)) in Erb. rewrite rev_involutive in Erb.
    simpl in Erb. contradiction. }
  rewrite <- Erb, rev_involutive. reflexivity.
Qed.

Lemma strip_two_fields (a b : str) (sep : char) :
  a <> [] -> b <> [] ->
  forallb field_char a = true -> forallb field_char b = true ->
  strip (a ++ sep :: b) = a ++ sep :: b.
Proof.
  intros Hane Hbne Ha Hb.
  destruct a as [|c a]; [contradiction|].
  assert (Hc : isspace c = false).
  { simpl in Ha. apply andb_true_iff in Ha. destruct Ha as [Hc _].
    apply field_char_spec in Hc. tauto. }
  destruct (exists_last Hbne) as (b0 & x & ->).
  assert (Hx : isspace x = false).
  { rewrite forallb_app in Hb. apply andb_true_iff in Hb.
    destruct Hb as [_ Hx]. simpl in Hx. rewrite andb_true_r in Hx.
    apply field_char_spec in Hx. tauto. }
  unfold strip. simpl. rewrite Hc.
  change (c :: a ++ sep :: b0 ++ [x]) with ((c :: a) ++ (sep :: b0) ++ [x]).
  rewrite app_assoc. apply rstrip_last, Hx.
Qed.

(** X21. A line of the coordinate file made of two fields without
    whitespace or comma, separated by one comma or by one whitespace
    character, is read the same way in both forms: as the pair that
    [float] reads from the two fields, and as nothing when [float]
    rejects one of them. *)
Theorem read_txt_line_two_fields (a b : str) (sep : char) :
  a <> [] -> b <> [] ->
  forallb field_char a = true -> forallb field_char b = true ->
  starts_with (lit "#") a = false ->
  sep = 44%N \/ isspace sep = true ->
  read_txt_line (a ++ sep :: b)
  = match float_of_str a with
    | None => None
    | Some lat =>
        match float_of_str b with
        | None => None
        | Some lng => Some (lat, lng)
        end
    end.
Proof.
  intros Hane Hbne Ha Hb Hhash Hsep. unfold read_txt_line.
  rewrite (strip_two_fields a b sep Hane Hbne Ha Hb).
  assert (Hhead : starts_with (lit "#") (a ++ sep :: b) = false).
  { destruct a as [|c a]; [contradiction|].
    change (lit "#") with [35%N] in *. cbn [starts_with app] in *.
    exact Hhash. }
  rewrite Hhead.
  assert (Hne : (match a ++ sep :: b with [] => true | _ => false end) = false)
    by (destruct a; reflexivity).
  rewrite Hne. cbn [orb].
  change (lit ",") with [44%N]. rewrite contains_char, existsb_app.
  rewrite (field_no_comma a Ha). cbn [orb existsb].
  rewrite (field_no_comma b Hb), orb_false_r.
  destruct Hsep as [Hsep|Hsep].
  - rewrite (split_on_two_fields a b sep Ha Hb Hsep). subst sep.
    rewrite N.eqb_refl. cbn [List.length Nat.leb nth].
    rewrite (strip_field a Ha), (strip_field b Hb). reflexivity.
  - assert (H44 : (44 =? sep)%N = false).
    { destruct (44 =? sep)%N eqn:E; [|reflexivity].
      apply N.eqb_eq in E. subst sep. discriminate Hsep. }
    rewrite H44, (split_two_fields a b sep Hane Hbne Ha Hb Hsep).
    cbn [List.length Nat.leb nth].
    rewrite (strip_field a Ha), (strip_field b Hb). reflexivity.
Qed.

(** * Export *)

Lemma dict_set_fresh (k : str) (v : value) (d : dict) :
  ~ In k (List.map fst d) -> dict_set k v d = d ++ [(k, v)].
Proof.
  induction d as [|[k0 v0] d IH]; simpl; intros H; [reflexivity|].
  destruct (Str.eqb k k0) eqn:E.
  - apply str_eqb_eq in E. subst k0. exfalso. apply H. left. reflexivity.
  - rewrite IH; [reflexivity|]. intros Hin. apply H. right. exact Hin.
Qed.

Lemma fold_dict_set_fresh (l : dict) :
  forall acc,
    NoDup (List.map fst (acc ++ l)) ->
    fold_left (fun flat kv => dict_set (fst kv) (snd kv) flat) l acc = acc ++ l.
Proof.
  induction l as [|[k v] l IH]; intros acc H; simpl.
  - rewrite app_nil_r. reflexivity.
  - assert (E : acc ++ (k, v) :: l = (acc ++ [(k, v)]) ++ l)
      by (rewrite <- app_assoc; reflexivity).
    rewrite dict_set_fresh.
    + rewrite IH; [symmetry; exact E|]. rewrite <- E. exact H.
    + rewrite map_app in H. simpl in H.
      apply NoDup_remove_2 in H. intros Hin. apply H.
      apply in_or_app. left. exact Hin.
Qed.

Lemma fold_left_renamed (f : str -> str) (sub : dict) :
  forall acc,
    fold_left (fun flat skv => dict_set (f (fst skv)) (snd skv) flat) sub acc
    = fold_left (fun flat kv => dict_set (fst kv) (snd kv) flat)
        (List.map (fun skv => (f (fst skv), snd skv)) sub) acc.
Proof.
  induction sub as [|[k v] sub IH]; intros acc; simpl; [reflexivity|].
  apply IH.
Qed.

Lemma flat_entries_cons (k : str) (v : value) (addr : dict) :
  flat_entries ((k, v) :: addr)
  = match v with
    | VDict sub => List.map (fun skv => (k ++ lit "_" ++ fst skv, snd skv)) sub
    | _ => [(k, v)]
    end ++ flat_entries addr.
Proof. reflexivity. Qed.

Lemma flatten_from (addr : dict) :
  forall acc,
    NoDup (List.map fst (acc ++ flat_entries addr)) ->
    fold_left
      (fun flat_addr kv =>
         match snd kv with
         | VDict sub =>
             fold_left
               (fun flat skv =>
                  dict_set (fst kv ++ lit "_" ++ fst skv) (snd skv) flat)
               sub flat_addr
         | v => dict_set (fst kv) v flat_addr
         end)
      addr acc
    = acc ++ flat_entries addr.
Proof.
  induction addr as [|[k v] addr IH]; intros acc H.
  - simpl. rewrite app_nil_r. reflexivity.
  - rewrite flat_entries_cons in H |- *. rewrite app_assoc in H.
    assert (Hhead := H). rewrite map_app in Hhead.
    apply NoDup_app_remove_r in Hhead.
    cbn [fold_left fst snd].
    destruct v;
      try (rewrite dict_set_fresh;
           [rewrite IH; [rewrite <- app_assoc; reflexivity|exact H]
           |rewrite map_app in Hhead; cbn [List.map fst] in Hhead;
            apply NoDup_remove_2 in Hhead; rewrite app_nil_r in Hhead;
            exact Hhead]).
    match goal with
    | |- fold_left _ _ ?inner = _ =>
        assert (Einner :
                  inner
                  = acc ++ List.map
                             (fun skv => (k ++ lit "_" ++ fst skv, snd skv)) d)
          by exact (eq_trans
                      (fold_left_renamed (fun s => k ++ lit "_" ++ s) d acc)
                      (fold_dict_set_fresh _ acc Hhead));
        rewrite Einner
    end.
    rewrite IH; [rewrite <- app_assoc; reflexivity|exact H].
Qed.

(** X22. When the keys that the flattening produces are all different,
    the flattened record is the list of the entries of the record in
    their order, each nested dictionary replaced by its own entries
    under the keys [key_subkey]: one level is flattened, nothing is
    lost, and a record without nested dictionaries is exported as it
    is. *)
Theorem flatten_record_entries (addr : dict) :
  NoDup (List.map fst (flat_entries addr)) ->
  flatten_record addr = flat_entries addr
  /\ (forallb (fun kv => negb (is_dict (snd kv))) addr = true ->
      flatten_record addr = addr).
Proof.
  intros H. unfold flatten_record.
  rewrite (flatten_from addr [] H). split; [reflexivity|].
  simpl. clear H. induction addr as [|[k v] addr IH]; simpl; [reflexivity|].
  intros Hv. apply andb_true_iff in Hv. destruct Hv as [Hv Hrest].
  rewrite (IH Hrest). destruct v; try reflexivity. discriminate Hv.
Qed.


(** * The budget of provider calls and pauses *)

Lemma logs_weaken {A} (c p c' p' : nat) (m : M A) :
  (c <= c')%nat -> (p <= p')%nat ->
  logs_at_most c p m -> logs_at_most c' p' m.
Proof.
  intros Hc Hp H st. destruct (H st) as (evs & E & H1 & H2).
  exists evs. repeat split; [exact E|lia|lia].
Qed.

Lemma logs_silent {A} (m : M A) :
  (forall st, st_log (snd (m st)) = st_log st) -> logs_at_most 0 0 m.
Proof.
  intros H st. exists []. rewrite app_nil_r. repeat split; [apply H|simpl; lia..].
Qed.

Lemma logs_ret {A} (a : A) : logs_at_most 0 0 (ret a).
Proof. apply logs_silent. reflexivity. Qed.

Lemma logs_lift {A} (o : outcome A) : logs_at_most 0 0 (lift o).
Proof. apply logs_silent. reflexivity. Qed.

Lemma logs_get_local : logs_at_most 0 0 get_local.
Proof. apply logs_silent. reflexivity. Qed.

Lemma logs_put_local (d : dict) : logs_at_most 0 0 (put_local d).
Proof. apply logs_silent. reflexivity. Qed.

Lemma logs_set_item (k : str) (v : value) : logs_at_most 0 0 (set_item k v).
Proof. apply logs_silent. reflexivity. Qed.

Lemma logs_update_local (d : dict) : logs_at_most 0 0 (update_local d).
Proof. apply logs_silent. reflexivity. Qed.

Lemma logs_append_out : logs_at_most 0 0 append_out.
Proof. apply logs_silent. reflexivity. Qed.

Lemma logs_now : logs_at_most 0 0 now.
Proof.
  apply logs_silent. intros st. unfold now. destruct (now_iso _). reflexivity.
Qed.

Lemma logs_print_line (m : message) : logs_at_most 0 0 (print_line m).
Proof.
  apply logs_silent. intros st. unfold print_line. destruct (print _ _).
  reflexivity.
Qed.

Lemma logs_call_reverse (lat lng : value) (language : option str)
    (no_annotations : bool) :
  logs_at_most 1 0 (call_reverse lat lng language no_annotations).
Proof.
  intros st. unfold call_reverse. destruct (reverse_geocode _ _ _ _ _).
  eexists. split; [reflexivity|]. simpl. split; lia.
Qed.

Lemma logs_call_geocode (query : value) (language : option str) :
  logs_at_most 1 0 (call_geocode query language).
Proof.
  intros st. unfold call_geocode. destruct (geocode _ _ _).
  eexists. split; [reflexivity|]. simpl. split; lia.
Qed.

Lemma logs_sleep (delay : Q) : logs_at_most 0 1 (sleep delay).
Proof.
  intros st. unfold sleep. destruct (Qle_bool 0 delay);
    [destruct (Qle_bool (delay * 1000000000) (inject_Z (2 ^ 63 - 1)))|].
  - eexists. split; [reflexivity|]. simpl. split; lia.
  - exists []. rewrite app_nil_r. simpl. repeat split; lia.
  - exists []. rewrite app_nil_r. simpl. repeat split; lia.
Qed.

Lemma logs_bind {A B} (c1 p1 c2 p2 : nat) (m : M A) (f : A -> M B) :
  logs_at_most c1 p1 m -> (forall a, logs_at_most c2 p2 (f a)) ->
  logs_at_most (c1 + c2) (p1 + p2) (bind m f).
Proof.
  intros Hm Hf st. unfold bind. destruct (Hm st) as (e1 & E1 & Hc1 & Hp1).
  destruct (m st) as [[a|e] st1]; simpl in E1.
  - destruct (Hf a st1) as (e2 & E2 & Hc2 & Hp2).
    exists (e1 ++ e2). rewrite E2, E1, <- app_assoc, !filter_app, !length_app.
    repeat split; lia.
  - exists e1. simpl. repeat split; [exact E1|lia|lia].
Qed.

Lemma logs_try {A} (c1 p1 c2 p2 : nat) (m : M A) (h : exn -> M A) :
  logs_at_most c1 p1 m -> (forall e, logs_at_most c2 p2 (h e)) ->
  logs_at_most (c1 + c2) (p1 + p2) (try_except m h).
Proof.
  intros Hm Hh st. unfold try_except.
  destruct (Hm st) as (e1 & E1 & Hc1 & Hp1).
  destruct (m st) as [[a|e] st1]; simpl in E1.
  - exists e1. simpl. repeat split; [exact E1|lia|lia].
  - destruct (Hh e st1) as (e2 & E2 & Hc2 & Hp2).
    exists (e1 ++ e2). rewrite E2, E1, <- app_assoc, !filter_app, !length_app.
    repeat split; lia.
Qed.

Lemma logs_bind_ret {A B} (c p : nat) (a : A) (f : A -> M B) :
  logs_at_most c p (f a) -> logs_at_most c p (bind (ret a) f).
Proof. intros H st. exact (H st). Qed.

Lemma logs_call_frame {A} (c p : nat) (body : M A) :
  logs_at_most c p body -> logs_at_most c p (call_frame body).
Proof.
  intros H st. unfold call_frame. destruct (H st) as (evs & E & Hc & Hp).
  destruct (body st) as [o st1]. exists evs. simpl in *. repeat split; assumption.
Qed.

(** Syntax-directed proof that a computation reaches neither the
    provider nor the clock of the pauses. *)
Ltac silent :=
  repeat first
    [ apply logs_ret
    | apply logs_lift
    | apply logs_get_local
    | apply logs_put_local
    | apply logs_set_item
    | apply logs_update_local
    | apply logs_append_out
    | apply logs_now
    | apply logs_print_line
    | apply (logs_bind 0 0 0 0); [|intros ?]
    | apply (logs_try 0 0 0 0); [|intros ?]
    | match goal with
      | |- logs_at_most _ _ (match ?x with _ => _ end) => destruct x
      end ].

(** A silent step in front of a computation with the budget [c], [p]. *)
Ltac after_silent c p :=
  apply (logs_bind 0 0 c p); [solve [silent]|intros ?].

Ltac within_budget :=
  apply (logs_weaken 0 0); [lia|lia|solve [silent]].

Lemma complete_forward_logs (partial_address : value) (language : str)
    (clean_special_chars aggressive : bool) :
  logs_at_most 1 0 (complete_forward partial_address language
                                     clean_special_chars aggressive).
Proof.
  unfold complete_forward. after_silent 1%nat 0%nat.
  apply (logs_bind 1 0 0 0); [|intros ?; silent].
  match goal with
  | |- logs_at_most _ _ (match ?x with _ => _ end) => destruct x
  end; [within_budget|].
  apply (logs_bind 1 0 0 0); [apply logs_call_geocode|intros ?; silent].
Qed.

Lemma complete_address_logs (partial_address : value)
    (coordinates : option (value * value)) (language : str)
    (clean_special_chars aggressive : bool) :
  logs_at_most (match coordinates with Some _ => 2 | None => 1 end) 0
    (complete_address partial_address coordinates language clean_special_chars
                      aggressive).
Proof.
  unfold complete_address. apply logs_call_frame.
  destruct coordinates as [[lat lng]|].
  - after_silent 2%nat 0%nat.
    apply (logs_bind 2 0 0 0); [|intros ?; silent].
    apply (logs_try 2 0 0 0); [|intros ?; silent].
    unfold complete_try.
    apply (logs_bind 1 0 1 0); [apply logs_call_reverse|intros r].
    destruct (truthy r); [within_budget|apply complete_forward_logs].
  - after_silent 1%nat 0%nat.
    apply (logs_bind 1 0 0 0); [|intros ?; silent].
    apply (logs_try 1 0 0 0); [|intros ?; silent].
    unfold complete_try. apply complete_forward_logs.
Qed.

Lemma enrich_location_data_logs (address_data : dict)
    (coordinates : option (value * value))
    (clean_special_chars aggressive : bool) :
  logs_at_most (match coordinates with Some _ => 1 | None => 2 end) 0
    (enrich_location_data address_data coordinates clean_special_chars
                          aggressive).
Proof.
  assert (Hrev : forall latlng : value * value,
             logs_at_most 1 0
               ((if truthy (fst latlng) && truthy (snd latlng) then
                   reverse_result <-
                     call_reverse (fst latlng) (snd latlng) None
                                  clean_special_chars ;;
                   if truthy reverse_result
                   then enrich_from_candidate reverse_result
                                              clean_special_chars aggressive
                   else ret tt
                 else ret tt) ;;;
                stamp <- now ;;
                set_item (K "enrichment_timestamp") (VStr stamp) ;;;
                set_item (K "enrichment_version") (VStr (K "1.0")))).
  { intros latlng. apply (logs_bind 1 0 0 0); [|intros ?; silent].
    destruct (truthy (fst latlng) && truthy (snd latlng)); [|within_budget].
    apply (logs_bind 1 0 0 0); [apply logs_call_reverse|intros r].
    unfold enrich_from_candidate. silent. }
  unfold enrich_location_data. apply logs_call_frame.
  destruct coordinates as [c|].
  - after_silent 1%nat 0%nat.
    apply (logs_bind 1 0 0 0); [|intros ?; silent].
    apply (logs_try 1 0 0 0); [|intros ?; silent].
    unfold enrich_try. apply logs_bind_ret. apply Hrev.
  - after_silent 2%nat 0%nat.
    apply (logs_bind 2 0 0 0); [|intros ?; silent].
    apply (logs_try 2 0 0 0); [|intros ?; silent].
    unfold enrich_try. apply (logs_bind 1 0 1 0); [|intros latlng; apply Hrev].
    match goal with
    | |- logs_at_most _ _ (if ?x then _ else _) => destruct x
    end; [|within_budget].
    after_silent 1%nat 0%nat.
    apply (logs_bind 1 0 0 0); [apply logs_call_geocode|intros ?; silent].
Qed.

Lemma process_steps_logs (language : str)
    (clean_special_chars aggressive : bool) :
  logs_at_most 3 0 (process_steps language clean_special_chars aggressive).
Proof.
  unfold process_steps. after_silent 3%nat 0%nat. cbv zeta.
  apply (logs_bind 0 0 3 0); [solve [silent]|intros coordinates].
  after_silent 3%nat 0%nat.
  destruct coordinates as [c|].
  - apply (logs_bind 2 0 1 0).
    + match goal with
      | |- logs_at_most _ _ (if ?x then _ else _) => destruct x
      end; [|within_budget].
      apply (logs_bind 2 0 0 0); [|intros ?; silent].
      apply (complete_address_logs _ (Some c)).
    + intros _. do 6 after_silent 1%nat 0%nat.
      apply logs_bind_ret.
      apply (logs_bind 1 0 0 0); [|intros ?; silent].
      apply (enrich_location_data_logs _ (Some c)).
  - apply (logs_bind 1 0 2 0).
    + match goal with
      | |- logs_at_most _ _ (if ?x then _ else _) => destruct x
      end; [|within_budget].
      apply (logs_bind 1 0 0 0); [|intros ?; silent].
      apply (complete_address_logs _ None).
    + intros _. do 7 after_silent 2%nat 0%nat.
      apply (logs_bind 2 0 0 0); [|intros ?; silent].
      match goal with
      | |- logs_at_most _ _ (enrich_location_data _ ?fc _ _) =>
          apply (logs_weaken (match fc with Some _ => 1 | None => 2 end) 0);
          [destruct fc; lia|lia|apply enrich_location_data_logs]
      end.
Qed.

Lemma process_record_logs (i n : nat) (a : dict) (delay : Q) (language : str)
    (clean_special_chars aggressive : bool) :
  logs_at_most 3 (if (S i <? n)%nat then 1 else 0)
    (process_record i n a delay language clean_special_chars aggressive).
Proof.
  unfold process_record, process_try.
  destruct (S i <? n)%nat.
  - after_silent 3%nat 1%nat. after_silent 3%nat 1%nat.
    apply (logs_try 3 1 0 0); [|intros ?; silent].
    apply (logs_bind 3 0 0 1); [apply process_steps_logs|intros ?].
    apply (logs_bind 0 0 0 1); [silent|intros ?; apply logs_sleep].
  - after_silent 3%nat 0%nat. after_silent 3%nat 0%nat.
    apply (logs_try 3 0 0 0); [|intros ?; silent].
    apply (logs_bind 3 0 0 0); [apply process_steps_logs|intros ?; silent].
Qed.

Lemma process_loop_logs (n : nat) (delay : Q) (language : str)
    (clean_special_chars aggressive : bool) (addresses : list dict) :
  forall i,
    (i + List.length addresses = n)%nat ->
    logs_at_most (3 * List.length addresses) (List.length addresses - 1)
      (process_loop i n addresses delay language clean_special_chars
                    aggressive).
Proof.
  induction addresses as [|a rest IH]; intros i Hn; simpl.
  - apply logs_ret.
  - simpl in Hn.
    apply (logs_weaken (3 + 3 * List.length rest)
             ((if (S i <? n)%nat then 1 else 0) + (List.length rest - 1)));
      [lia|destruct (Nat.ltb_spec (S i) n); lia|].
    apply logs_bind; [apply process_record_logs|intros _].
    apply IH. lia.
Qed.

(** X23. Whatever the records, the provider and the pause,
    [process_address_batch] issues at most three provider calls for each
    record, and makes at most one pause between two records and none
    after the last; it removes nothing from the log. *)
Theorem process_address_batch_budget (addresses : list dict) (delay : Q)
    (language : str) (clean_special_chars aggressive : bool) :
  logs_at_most (3 * List.length addresses) (List.length addresses - 1)
    (process_address_batch addresses delay language clean_special_chars
                           aggressive).
Proof.
  unfold process_address_batch.
  apply (logs_weaken (0 + (3 * List.length addresses + 0))
           (0 + (List.length addresses - 1 + 0))); [lia|lia|].
  apply logs_bind; [apply logs_silent; reflexivity|intros _].
  apply logs_bind; [apply process_loop_logs; reflexivity|intros _].
  apply logs_silent. reflexivity.
Qed.


(** * Further relations between the modes of the pure components *)

Lemma filter_fixed (p : char -> bool) (s : str) :
  forallb p s = true -> filter p s = s.
Proof.
  induction s as [|c s IH]; simpl; [reflexivity|].
  intros H. apply andb_true_iff in H. destruct H as [Hc Hs].
  rewrite Hc, (IH Hs). reflexivity.
Qed.

Lemma filter_replace_single (p : char -> bool) (c : char) (r s : str) :
  p c = true -> forallb p r = true ->
  filter p (replace [c] r s) = replace [c] r (filter p s).
Proof.
  intros Hc Hr. rewrite !replace_single.
  induction s as [|x s IH]; simpl; [reflexivity|].
  destruct (c =? x)%N eqn:E.
  - apply N.eqb_eq in E. subst x. rewrite Hc. simpl. rewrite N.eqb_refl.
    rewrite filter_app, (filter_fixed p r Hr), IH. reflexivity.
  - simpl. destruct (p x); simpl; [rewrite E|]; rewrite IH; reflexivity.
Qed.

Lemma filter_fold_accents (p : char -> bool) (tbl : list (str * str)) :
  single_keys tbl ->
  Forall (fun e => forallb p (fst e) = true /\ forallb p (snd e) = true) tbl ->
  forall s, filter p (fold_accents tbl s) = fold_accents tbl (filter p s).
Proof.
  unfold fold_accents. induction tbl as [|e tbl IH]; intros Hk Hp s; simpl.
  - reflexivity.
  - destruct e as [k r]. inversion Hk as [|? ? [c Hc] Hk']; subst.
    inversion Hp as [|? ? [Hkey Hout] Hp']; subst.
    simpl in Hc, Hkey, Hout. subst k. simpl in Hkey.
    rewrite andb_true_r in Hkey.
    rewrite (IH Hk' Hp'). cbn [fst snd].
    rewrite (filter_replace_single p c r s Hkey Hout). reflexivity.
Qed.

Lemma replacements_no_symbol :
  Forall (fun e => forallb (fun c => negb (is_symbol c)) (fst e) = true
                   /\ forallb (fun c => negb (is_symbol c)) (snd e) = true)
         replacements.
Proof.
  unfold replacements. repeat (constructor; [split; reflexivity|]). constructor.
Qed.

Lemma clean_address_text_conservative (y : str) :
  clean_address_text y false
  = strip (re_sub (Plus isspace) (lit " ") (re_sub (Cls is_symbol) [] y)).
Proof. destruct y; reflexivity. Qed.

(** X24. Aggressive cleaning is conservative cleaning of the text
    whose accented letters have been replaced: removing the symbols
    before or after the replacement of the accents gives the same
    text. *)
Theorem clean_address_text_aggressive_factors (x : str) :
  clean_address_text x true
  = clean_address_text (fold_accents replacements x) false.
Proof.
  rewrite clean_address_text_conservative.
  destruct x as [|c x]; [reflexivity|].
  unfold clean_address_text. rewrite !re_sub_symbols.
  rewrite (filter_fold_accents _ replacements replacements_single_keys
             replacements_no_symbol).
  reflexivity.
Qed.

Lemma first_pattern_match_some (tbl : list (str * (str * regex)))
    (k text code : str) (r : regex) :
  assoc k tbl = Some (text, r) ->
  re_match r code = true ->
  exists country text', first_pattern_match tbl code = Some (country, text').
Proof.
  induction tbl as [|[k0 [t0 r0]] tbl IH]; simpl; [discriminate|].
  intros Ha Hm. destruct (re_match r0 code) eqn:E0; [eauto|].
  destruct (Str.eqb k k0).
  - inversion Ha; subst. congruence.
  - apply IH; assumption.
Qed.

(** X25. A postal code that is valid for the country given is also
    recognised when no country is given, though the country then
    guessed may be another one: validity with a country never exceeds
    what the scan of the table accepts. *)
Theorem validate_postal_code_country_implies_guess (pc : str) (cc : value)
    (d : dict) :
  validate_postal_code (VStr pc) cc = Ok d ->
  dict_get (K "is_valid") d = Some (VBool true) ->
  exists country text,
    validate_postal_code (VStr pc) VNone
    = Ok [ (K "is_valid", VBool true);
           (K "possible_country", VStr country);
           (K "pattern_matched", VStr text);
           (K "cleaned_postal_code", VStr (upper (strip pc))) ].
Proof.
  unfold validate_postal_code. destruct pc as [|x pc]; cbn [truthy negb].
  { intros E. inversion E; subst. discriminate. }
  set (code := upper (strip (x :: pc))).
  assert (Hscan :
            forall d0,
              match first_pattern_match postal_patterns code with
              | Some (country, text) =>
                  Ok [ (K "is_valid", VBool true);
                       (K "possible_country", VStr country);
                       (K "pattern_matched", VStr text);
                       (K "cleaned_postal_code", VStr code) ]
              | None =>
                  Ok [ (K "is_valid", VBool false);
                       (K "reason", VStr (K "no_pattern_match"));
                       (K "cleaned_postal_code", VStr code) ]
              end = Ok d0 ->
              dict_get (K "is_valid") d0 = Some (VBool true) ->
              exists country text,
                first_pattern_match postal_patterns code = Some (country, text)).
  { intros d0 E Hv.
    destruct (first_pattern_match postal_patterns code) as [[country text]|];
      [eauto|]. inversion E; subst. discriminate Hv. }
  intros E Hv.
  assert (Hfound : exists country text,
             first_pattern_match postal_patterns code = Some (country, text)).
  { destruct (truthy cc); [|exact (Hscan d E Hv)].
    destruct cc as [| | |c| |]; try discriminate E.
    destruct (assoc (upper c) postal_patterns) as [[text r]|] eqn:Ha;
      [|exact (Hscan d E Hv)].
    inversion E; subst. cbn in Hv. inversion Hv as [Hm].
    exact (first_pattern_match_some _ _ _ _ _ Ha Hm). }
  destruct Hfound as (country & text & Hf). rewrite Hf. eauto.
Qed.

(** * Further properties of the batch, for every pause *)

Lemma process_record_total (i n : nat) (a : dict) (delay : Q)
    (language : str) (clean_special_chars aggressive : bool) (st : state) :
  console_accepts ->
  exists rs st',
    process_record i n a delay language clean_special_chars aggressive st
    = (Ok tt, st')
    /\ st_out st' = st_out st ++ rs
    /\ (1 <= List.length rs)%nat
    /\ (List.length rs <= if (S i <? n)%nat then 2 else 1)%nat.
Proof.
  intros Hc. unfold process_record, process_try.
  unfold bind at 1. unfold put_local at 1. unfold bind at 1.
  rewrite (print_line_accepts _ _ Hc). cbn [st_env st_log st_local st_out].
  fold (steps_start i n a st). set (st0 := steps_start i n a st).
  pose proof (process_steps_keeps a (st_out st) language clean_special_chars
                aggressive st0 (conj eq_refl (fun k H => H))) as HI.
  unfold try_except. unfold bind at 1.
  destruct (process_steps language clean_special_chars aggressive st0)
    as [[[]|e] st1] eqn:E; simpl in HI; destruct HI as [Ho _].
  - unfold bind at 1. unfold append_out at 1.
    cbn [st_env st_log st_local st_out].
    destruct (S i <? n)%nat.
    + unfold sleep. cbn [st_env st_log st_local st_out].
      destruct (Qle_bool 0 delay);
        [destruct (Qle_bool (delay * 1000000000) (inject_Z (2 ^ 63 - 1)))|];
        try (unfold bind at 1; rewrite (print_line_accepts _ _ Hc);
             unfold bind, set_item, append_out);
        cbn [st_env st_log st_local st_out];
        (eexists; eexists; split; [reflexivity|]); cbn [st_out]; rewrite Ho;
        (split; [first [reflexivity|rewrite <- app_assoc; reflexivity]|]);
        simpl; lia.
    + unfold ret. eexists; eexists; split; [reflexivity|]. cbn [st_out].
      rewrite Ho. split; [reflexivity|]. simpl; lia.
  - unfold bind at 1. rewrite (print_line_accepts _ _ Hc).
    unfold bind, set_item, append_out. cbn [st_env st_log st_local st_out].
    eexists; eexists; split; [reflexivity|]. cbn [st_out]. rewrite Ho.
    split; [reflexivity|]. destruct (S i <? n)%nat; simpl; lia.
Qed.

Lemma process_loop_total (n : nat) (delay : Q) (language : str)
    (clean_special_chars aggressive : bool) (addresses : list dict) :
  console_accepts ->
  forall i st,
    (i + List.length addresses = n)%nat ->
    exists rs st',
      process_loop i n addresses delay language clean_special_chars aggressive
                   st
      = (Ok tt, st')
      /\ st_out st' = st_out st ++ rs
      /\ (List.length addresses <= List.length rs)%nat
      /\ (List.length rs <= 2 * List.length addresses - 1)%nat.
Proof.
  intros Hc. induction addresses as [|a rest IH]; intros i st Hn; simpl.
  - exists [], st. unfold ret. rewrite app_nil_r. repeat split; simpl; lia.
  - unfold bind.
    destruct (process_record_total i n a delay language clean_special_chars
                aggressive st Hc) as (rs1 & st1 & E1 & Ho1 & Hlo & Hhi).
    rewrite E1. simpl in Hn.
    destruct (IH (S i) st1) as (rs2 & st2 & E2 & Ho2 & Hlo2 & Hhi2); [lia|].
    rewrite E2. exists (rs1 ++ rs2), st2. split; [reflexivity|]. split.
    + rewrite Ho2, Ho1, <- app_assoc. reflexivity.
    + rewrite length_app. destruct (Nat.ltb_spec (S i) n); split; lia.
Qed.

(** X26. On a console that takes every line, [process_address_batch]
    returns from every state, for every list of records, every provider
    and every pause, and never loses a record: for n records the result
    has at least n records and at most 2n-1 (a record comes twice only
    when the pause after it is rejected). *)
Theorem process_address_batch_total (addresses : list dict) (delay : Q)
    (language : str) (clean_special_chars aggressive : bool) (st : state) :
  console_accepts ->
  exists out st',
    process_address_batch addresses delay language clean_special_chars
                          aggressive st = (Ok out, st')
    /\ (List.length addresses <= List.length out)%nat
    /\ (List.length out <= 2 * List.length addresses - 1)%nat.
Proof.
  intros Hc. unfold process_address_batch, bind, clear_out, get_out.
  destruct (process_loop_total (List.length addresses) delay language
              clean_special_chars aggressive addresses Hc 0%nat
              (mk_state (st_env st) (st_log st) (st_local st) []) eq_refl)
    as (rs & st1 & E & Ho & Hlo & Hhi).
  rewrite E. simpl in Ho. exists (st_out st1), st1.
  split; [reflexivity|]. rewrite Ho. split; assumption.
Qed.

End Pipeline.

(* ================================================================== *)
(** * The properties on concrete providers *)
(* ================================================================== *)

Lemma complete_address_never_raises_witness :
  exists r st',
    complete_address failing_reverse failing_geocode
      (VStr (lit "Gran Via 25")) (Some madrid) (lit "es") false false
      (mk_state tt [] [] [])
    = (Ok (VDict r), st')
    /\ dict_get (K "error") r = Some (VStr (lit "quota exceeded"))
    /\ method_of r = Some (VStr (K "error")).
Proof.
  destruct (complete_address_never_raises unit failing_reverse failing_geocode
              (lit "Gran Via 25") (Some madrid) (lit "es") false false
              (mk_state tt [] [] [])) as (r & st' & E & H).
  exists r, st'. split; [exact E|].
  apply (H provider_down). reflexivity.
Defined.

(** C2, as stated, fails: the suggestions stay empty when the provider
    call fails, and when the reverse lookup finds a candidate, although
    the partial address has suggestions. *)
Lemma complete_address_suggestions_counterexample :
  (exists r st',
     complete_address failing_reverse failing_geocode
       (VStr (lit "callle mayor")) (Some madrid) (lit "es") false false
       (mk_state tt [] [] [])
     = (Ok (VDict r), st')
     /\ suggestions_of r
        <> Some (str_list (suggest_address_corrections (lit "callle mayor") 3)))
  /\ (exists r st',
        complete_address (answering_reverse (lit "Calle Mayor, Madrid"))
          failing_geocode
          (VStr (lit "callle mayor")) (Some madrid) (lit "es") false false
          (mk_state tt [] [] [])
        = (Ok (VDict r), st')
        /\ suggestions_of r
           <> Some (str_list
                      (suggest_address_corrections (lit "callle mayor") 3))).
Proof.
  split; eexists; eexists; (split; [reflexivity|]); vm_compute; discriminate.
Qed.

Lemma complete_address_reverse_geocoding_witness :
  exists r st',
    complete_address (answering_reverse (lit "Calle Mayor, Madrid"))
      failing_geocode (VStr []) (Some madrid) (lit "es") false false
      (mk_state tt [] [] [])
    = (Ok (VDict r), st')
    /\ method_of r = Some (VStr (K "reverse_geocoding"))
    /\ dict_get (K "confidence") r = Some (VNum (9 # 10))
    /\ st_log st' = [EvReverse (fst madrid) (snd madrid) (Some (lit "es")) false]
    /\ st_env st' = tt.
Proof.
  apply (complete_address_reverse_geocoding unit
           (answering_reverse (lit "Calle Mayor, Madrid")) failing_geocode
           [] (fst madrid) (snd madrid) (lit "es") false false
           (mk_state tt [] [] [])
           (candidate_dict (lit "Calle Mayor, Madrid")) [] tt
           (lit "Calle Mayor, Madrid")
           [(K "city", VStr (lit "Madrid")); (K "country_code", VStr (lit "es"))]).
  - reflexivity.
  - split; reflexivity.
Defined.

(** C4, as stated, fails: the digits that open the partial address are
    absent from the formatted address, yet they are not put in front of
    it, because the formatted address holds a digit of its own.  And
    digits that do not open the partial address are put in front of a
    formatted address without digits all the same. *)
Lemma complete_address_merge_counterexample :
  (span isdecimal (lit "12 Main") = 2%nat
   /\ contains (lit "12") (lit "Main St 5") = false
   /\ exists r st',
        complete_address (answering_reverse (lit "Main St 5")) failing_geocode
          (VStr (lit "12 Main")) (Some madrid) (lit "en") false false
          (mk_state tt [] [] [])
        = (Ok (VDict r), st')
        /\ dict_get (K "completed_address") r = Some (VStr (lit "Main St 5"))
        /\ dict_get (K "completed_address") r
           <> Some (VStr (lit "12 Main St 5")))
  /\ (span isdecimal (lit "Calle Mayor 7") = 0%nat
      /\ exists r st',
           complete_address (answering_reverse (lit "Calle Mayor, Madrid"))
             failing_geocode (VStr (lit "Calle Mayor 7")) (Some madrid)
             (lit "es") false false (mk_state tt [] [] [])
           = (Ok (VDict r), st')
           /\ dict_get (K "completed_address") r
              = Some (VStr (lit "7 Calle Mayor, Madrid"))).
Proof.
  split.
  - split; [reflexivity|]. split; [reflexivity|].
    eexists; eexists. split; [reflexivity|].
    split; [reflexivity|vm_compute; discriminate].
  - split; [reflexivity|].
    eexists; eexists. split; reflexivity.
Qed.

Lemma complete_address_merges_street_number_witness :
  exists r st',
    complete_address (answering_reverse (lit "Calle Mayor, Madrid"))
      failing_geocode (VStr (lit "7 calle mayor")) (Some madrid) (lit "es")
      false false (mk_state tt [] [] [])
    = (Ok (VDict r), st')
    /\ dict_get (K "completed_address") r
       = Some (VStr (lit "7 Calle Mayor, Madrid")).
Proof.
  destruct (complete_address_merges_street_number unit
              (answering_reverse (lit "Calle Mayor, Madrid")) failing_geocode
              (lit "7 calle mayor") (fst madrid) (snd madrid) (lit "es")
              false false (mk_state tt [] [] [])
              (candidate_dict (lit "Calle Mayor, Madrid")) [] tt
              (lit "Calle Mayor, Madrid")
              [(K "city", VStr (lit "Madrid"));
               (K "country_code", VStr (lit "es"))]
              eq_refl (conj eq_refl eq_refl)) as (r & st' & E & H).
  exists r, st'. split; [exact E|]. rewrite H. vm_compute. reflexivity.
Defined.

Lemma enrich_location_data_zero_coordinate_witness :
  exists r st',
    enrich_location_data (answering_reverse (lit "Gulf of Guinea"))
      failing_geocode fixed_clock gran_via_record
      (Some (VNum 0, VNum (-37 # 10))) false false (mk_state tt [] [] [])
    = (Ok (VDict r), st')
    /\ filter is_reverse (st_log st') = []
    /\ forall k, In k enrichment_keys ->
                 dict_get k r = dict_get k gran_via_record.
Proof.
  apply (enrich_location_data_zero_coordinate unit
           (answering_reverse (lit "Gulf of Guinea")) failing_geocode
           fixed_clock gran_via_record (Some (VNum 0, VNum (-37 # 10)))
           false false (mk_state tt [] [] []) (VNum 0) (VNum (-37 # 10))).
  - reflexivity.
  - left. exists 0%Q. split; reflexivity.
Defined.



(** The hypothesis on the pause is needed: when [time.sleep] rejects
    the pause, which it does for a negative one and for one of 2^63
    nanoseconds or more, the record is already in the list, and the
    handler appends it a second time. *)
Lemma process_address_batch_negative_delay :
  exists out st',
    process_address_batch (answering_reverse (lit "Gran Via 25, Madrid"))
      (answering_geocode (lit "Gran Via 25, Madrid"))
      fixed_clock no_float quiet_console [gran_via_record; calle_falsa_record]
      (-1) (lit "es") false false (mk_state tt [] [] [])
    = (Ok out, st')
    /\ List.length out = 3%nat.
Proof.
  eexists; eexists. split; [vm_compute; reflexivity|]. reflexivity.
Qed.

Lemma process_address_batch_overflowing_delay :
  exists out st',
    process_address_batch (answering_reverse (lit "Gran Via 25, Madrid"))
      (answering_geocode (lit "Gran Via 25, Madrid"))
      fixed_clock no_float quiet_console [gran_via_record; calle_falsa_record]
      10000000000 (lit "es") false false (mk_state tt [] [] [])
    = (Ok out, st')
    /\ List.length out = 3%nat.
Proof.
  eexists; eexists. split; [vm_compute; reflexivity|]. reflexivity.
Qed.

(** The hypothesis on the console is needed: the progress line stands
    before the [try], and an exception of [print] there leaves the
    function. *)
Lemma process_address_batch_console_rejects :
  fst (process_address_batch (answering_reverse (lit "Gran Via 25, Madrid"))
         (answering_geocode (lit "Gran Via 25, Madrid"))
         fixed_clock no_float broken_console [gran_via_record] 1 (lit "es")
         false false (mk_state tt [] [] []))
  = Raise console_down.
Proof. reflexivity. Qed.


(* ================================================================== *)
(** * Further properties on concrete inputs *)
(* ================================================================== *)

Lemma validate_postal_code_first_match_witness :
  validate_postal_code (VStr (lit " 28013 ")) (VStr (lit "pt"))
  = Ok [ (K "is_valid", VBool true);
         (K "possible_country", VStr (lit "ES"));
         (K "pattern_matched", VStr (lit "^\d{5}$"));
         (K "cleaned_postal_code", VStr (lit "28013")) ].
Proof.
  refine (proj1 (validate_postal_code_first_match (lit " 28013 ")
                   (VStr (lit "pt")) _ _)
                [] (List.tl postal_patterns) (lit "ES") (lit "^\d{5}$")
                (anchored (Rep 5 D)) _ _ _).
  - vm_compute. discriminate.
  - right. exists (lit "pt"). split; reflexivity.
  - reflexivity.
  - vm_compute. reflexivity.
  - constructor.
Defined.


Lemma complete_address_forward_geocoding_witness :
  complete_address failing_reverse (answering_geocode (lit "Calle Mayor, Madrid"))
    (VStr (lit "calle mayor")) None (lit "es") false false
    (mk_state tt [] [] [])
  = (Ok (VDict
           [ (K "original_address", VStr (lit "calle mayor"));
             (K "completed_address", VStr (lit "Calle Mayor, Madrid"));
             (K "method_used", VStr (K "forward_geocoding"));
             (K "confidence", VNum (Qmin (3 / 10) (8 # 10)));
             (K "components",
              VDict [(K "city", VStr (lit "Madrid"));
                     (K "country_code", VStr (lit "es"))]);
             (K "suggestions",
              str_list (suggest_address_corrections (lit "calle mayor") 3));
             (K "coordinates",
              VDict [(K "lat", VNum (404 # 10)); (K "lng", VNum (-37 # 10))]) ]),
     mk_state tt [EvGeocode (VStr (lit "calle mayor")) (Some (lit "es"))] [] [])
  /\ (Qmin (3 / 10) (8 # 10) <= 8 # 10)%Q.
Proof.
  apply (complete_address_forward_geocoding unit failing_reverse
           (answering_geocode (lit "Calle Mayor, Madrid"))
           (lit "calle mayor") (lit "es") false false (mk_state tt [] [] [])
           (candidate_dict (lit "Calle Mayor, Madrid")) [] tt
           (lit "Calle Mayor, Madrid")
           [(K "city", VStr (lit "Madrid")); (K "country_code", VStr (lit "es"))]
           (VNum (404 # 10)) (VNum (-37 # 10)) 3).
  - vm_compute. discriminate.
  - reflexivity.
  - split; [split; reflexivity|]. split; [|reflexivity].
    exists [(K "lat", VNum (404 # 10)); (K "lng", VNum (-37 # 10))].
    repeat split; reflexivity.
Defined.

Lemma complete_address_falls_back_witness :
  complete_address empty_reverse failing_geocode (VStr (lit "calle mayor"))
    (Some madrid) (lit "es") false false (mk_state tt [] [] [])
  = complete_address empty_reverse failing_geocode (VStr (lit "calle mayor"))
      None (lit "es") false false
      (mk_state tt [EvReverse (fst madrid) (snd madrid) (Some (lit "es")) false]
                [] []).
Proof.
  apply (complete_address_falls_back unit empty_reverse failing_geocode
           (VStr (lit "calle mayor")) (fst madrid) (snd madrid) (VList [])
           (lit "es") false false (mk_state tt [] [] []) tt).
  - reflexivity.
  - reflexivity.
Defined.

Lemma complete_address_blank_witness :
  complete_address failing_reverse failing_geocode (VStr (lit "  ")) None
    (lit "es") false false (mk_state tt [] [] [])
  = (Ok (VDict
           [ (K "original_address", VStr (lit "  "));
             (K "completed_address", VStr (lit "  "));
             (K "method_used", VStr (K "none"));
             (K "confidence", VNum 0);
             (K "components", VDict []);
             (K "suggestions",
              str_list (suggest_address_corrections (lit "  ") 3)) ]),
     mk_state tt [] [] []).
Proof.
  apply (complete_address_blank unit failing_reverse failing_geocode
           (lit "  ") (lit "es") false false (mk_state tt [] [] [])).
  reflexivity.
Defined.

Lemma complete_address_malformed_candidate_witness :
  complete_address malformed_reverse failing_geocode (VStr (lit "calle mayor"))
    (Some madrid) (lit "es") false false (mk_state tt [] [] [])
  = (Ok (VDict (error_result (VStr (lit "calle mayor"))
                             (key_error (K "formatted")))),
     mk_state tt [EvReverse (fst madrid) (snd madrid) (Some (lit "es")) false]
              [] []).
Proof.
  apply (complete_address_malformed_candidate unit malformed_reverse
           failing_geocode (lit "calle mayor") (fst madrid) (snd madrid)
           (lit "es") false false (mk_state tt [] [] [])
           [(K "confidence", VNum 9)] [] tt).
  - reflexivity.
  - reflexivity.
Defined.


Lemma process_address_batch_unreadable_coordinates_witness :
  exists out st',
    process_address_batch failing_reverse failing_geocode fixed_clock no_float
      quiet_console
      [unreadable_record] (-1) (lit "es") false false (mk_state tt [] [] [])
    = (Ok out, st')
    /\ Forall2 (rejected no_float) [unreadable_record] out
    /\ st_log st' = []
    /\ console_only quiet_console tt (st_env st').
Proof.
  apply (process_address_batch_unreadable_coordinates unit failing_reverse
           failing_geocode fixed_clock no_float quiet_console
           [unreadable_record] (-1) (lit "es") false false
           (mk_state tt [] [] [])).
  { intros w m. reflexivity. }
  constructor; [|constructor].
  exists (mk_exn ValueError (lit "could not convert string to float")).
  exists (VStr (lit "n/a")), (VNum (-37 # 10)).
  split; [reflexivity|]. split; [reflexivity|]. left. reflexivity.
Defined.



Lemma enrich_location_data_success_witness :
  exists d st',
    enrich_location_data (answering_reverse (lit "Gran Via 25, Madrid"))
      failing_geocode fixed_clock gran_via_record (Some madrid) false false
      (mk_state tt [] [] [])
    = (Ok (VDict d), st')
    /\ dict_get (K "administrative_levels") d
       = Some (VDict (fields_of
                        [ (K "city", VStr (lit "Madrid"));
                          (K "country_code", VStr (lit "es")) ]
                        administrative_fields))
    /\ dict_get (K "coordinate_systems") d = None
    /\ dict_get (K "enrichment_error") d = None.
Proof.
  destruct (enrich_location_data_success unit
              (answering_reverse (lit "Gran Via 25, Madrid")) failing_geocode
              fixed_clock gran_via_record (fst madrid) (snd madrid) false false
              (mk_state tt [] [] [])
              (candidate_dict (lit "Gran Via 25, Madrid")) [] tt
              [ (K "city", VStr (lit "Madrid"));
                (K "country_code", VStr (lit "es")) ] [] [])
    as (d & st' & E & _ & Hadm & _ & _ & Hcs & _ & Herr).
  - reflexivity.
  - reflexivity.
  - reflexivity.
  - repeat split; reflexivity.
  - exists d, st'. split; [exact E|]. split; [exact Hadm|].
    split; [exact Hcs|exact Herr].
Defined.



Lemma reverse_geocode_coordinates_provider_down_witness :
  exists st',
    reverse_geocode_coordinates quiet_console failing_reverse_params
      two_coordinates 1 false false (lit "en") None
      (mk_state tt [] [] [])
    = (Ok (List.map (error_row provider_down) two_coordinates),
       st')
    /\ st_log st' = [].
Proof.
  apply (reverse_geocode_coordinates_provider_down unit quiet_console
           failing_reverse_params
           two_coordinates 1 false false (lit "en") None
           provider_down (mk_state tt [] [] [])).
  - intros w m. reflexivity.
  - intros w lat lng params. reflexivity.
Defined.

Lemma reverse_geocode_coordinates_found_witness :
  exists st',
    reverse_geocode_coordinates quiet_console
      (answering_reverse_params (lit "Gran Via 25, Madrid?"))
      [((404 # 10)%Q, (-37 # 10)%Q)] 1 true false (lit "es") None
      (mk_state tt [] [] [])
    = (Ok [VDict (coordinate_row (404 # 10)%Q (-37 # 10)%Q
                    (VStr (clean_address_text (lit "Gran Via 25, Madrid?") false))
                    (VStr (clean_address_text [] false))
                    (VStr (clean_address_text [] false))
                    (VStr (clean_address_text (lit "Madrid") false))
                    (VStr []))],
       st')
    /\ st_log st' = []
    /\ st_env st' = tt.
Proof.
  apply (reverse_geocode_coordinates_found unit quiet_console
           (answering_reverse_params (lit "Gran Via 25, Madrid?"))
           (404 # 10) (-37 # 10) 1 true false (lit "es") None
           (mk_state tt [] [] [])
           (candidate_dict (lit "Gran Via 25, Madrid?")) [] tt tt
           (lit "Gran Via 25, Madrid?")
           [(K "city", VStr (lit "Madrid")); (K "country_code", VStr (lit "es"))]
           [] [] (lit "Madrid")).
  - reflexivity.
  - reflexivity.
  - repeat split; reflexivity.
Defined.

Lemma reverse_geocode_coordinates_total_witness :
  exists m out st',
    reverse_geocode_coordinates quiet_console
      (answering_reverse_params (lit "Gran Via 25, Madrid"))
      two_coordinates (-1) false false (lit "es") None (mk_state tt [] [] [])
    = (Ok out, st')
    /\ (List.length two_coordinates <= List.length out)%nat
    /\ (List.length out <= 2 * List.length two_coordinates - 1)%nat
    /\ st_log st' = [] ++ repeat (EvSleep (-1)) m
    /\ (m <= List.length two_coordinates - 1)%nat.
Proof.
  apply (reverse_geocode_coordinates_total unit quiet_console
           (answering_reverse_params (lit "Gran Via 25, Madrid"))
           two_coordinates (-1) false false (lit "es") None
           (mk_state tt [] [] [])).
  intros w m. reflexivity.
Defined.

Lemma process_address_batch_total_witness :
  exists out st',
    process_address_batch (answering_reverse (lit "Gran Via 25, Madrid"))
      (answering_geocode (lit "Gran Via 25, Madrid")) fixed_clock no_float
      quiet_console [gran_via_record; calle_falsa_record] (-1) (lit "es")
      false false (mk_state tt [] [] [])
    = (Ok out, st')
    /\ (2 <= List.length out)%nat
    /\ (List.length out <= 3)%nat.
Proof.
  apply (process_address_batch_total unit
           (answering_reverse (lit "Gran Via 25, Madrid"))
           (answering_geocode (lit "Gran Via 25, Madrid")) fixed_clock no_float
           quiet_console [gran_via_record; calle_falsa_record] (-1) (lit "es")
           false false (mk_state tt [] [] [])).
  intros w m. reflexivity.
Defined.


Lemma coordinate_columns_of_header_witness :
  coordinate_columns example_header = Ok (lit " Latitude", lit "LON")
  /\ In (lit " Latitude") example_header
  /\ In (lit "LON") example_header
  /\ lit " Latitude" <> lit "LON".
Proof.
  split; [reflexivity|].
  destruct (proj1 (coordinate_columns_of_header example_header)
                  (lit " Latitude") (lit "LON") eq_refl)
    as (Ha & Hb & Hne).
  split; [exact Ha|]. split; [exact Hb|]. apply Hne.
  repeat constructor; vm_compute; intuition discriminate.
Defined.

Lemma read_txt_line_two_fields_witness :
  read_txt_line madrid_float (lit "40.4,-3.7") = Some ((404 # 10)%Q, (-37 # 10)%Q)
  /\ read_txt_line madrid_float (lit "40.4 -3.7")
     = Some ((404 # 10)%Q, (-37 # 10)%Q).
Proof.
  split.
  - apply (read_txt_line_two_fields madrid_float (lit "40.4") (lit "-3.7") 44).
    + vm_compute. discriminate.
    + vm_compute. discriminate.
    + reflexivity.
    + reflexivity.
    + reflexivity.
    + left. reflexivity.
  - apply (read_txt_line_two_fields madrid_float (lit "40.4") (lit "-3.7") 32).
    + vm_compute. discriminate.
    + vm_compute. discriminate.
    + reflexivity.
    + reflexivity.
    + reflexivity.
    + right. reflexivity.
Defined.

Lemma flatten_record_entries_witness :
  flatten_record nested_record
  = [ (K "address", VStr (lit "Gran Via 25"));
      (K "components_city", VStr (lit "Madrid"));
      (K "components_country_code", VStr (lit "es")) ].
Proof.
  apply (proj1 (flatten_record_entries nested_record
                  ltac:(repeat constructor; vm_compute; intuition discriminate))).
Defined.


Lemma validate_postal_code_country_implies_guess_witness :
  exists country text,
    validate_postal_code (VStr (lit "28013")) VNone
    = Ok [ (K "is_valid", VBool true);
           (K "possible_country", VStr country);
           (K "pattern_matched", VStr text);
           (K "cleaned_postal_code", VStr (upper (strip (lit "28013")))) ].
Proof.
  apply (validate_postal_code_country_implies_guess (lit "28013")
           (VStr (lit "mx"))
           [ (K "is_valid", VBool true);
             (K "country_code", VStr (lit "MX"));
             (K "pattern_used", VStr (lit "^\d{5}$"));
             (K "cleaned_postal_code", VStr (lit "28013")) ]).
  - vm_compute. reflexivity.
  - reflexivity.
Defined.
